(** * TissueMAPS: workflow manager and jterator pipeline engine

    A shallow embedding of
    - [tmlib/tmaps/workflow.py]  (class [ClusterWorkflowManager]) and
    - [tmlib/workflow/jterator/api.py] (class [ImageAnalysisPipelineEngine])
    together with the properties stated about them.

    Python integers are [Z], Python strings are [string], lists are [list],
    the file system is a finite set of existing paths, and code that raises
    is modelled with an explicit exception type. *)

From Stdlib Require Import ZArith Ascii String List Bool Lia SpecFloat.
From stdpp Require Import base list strings gmap pretty sorting.
Import ListNotations.

Local Open Scope string_scope.
Local Open Scope list_scope.
Local Open Scope Z_scope.

(** ** Python preliminaries *)

Module Py.

(** The exceptions that the embedded code raises or lets through.
    [IntegrityError] and [DataError] are those of the database driver.
    [SystemExit] is what [sys.exit] raises, and so what the [parse_args] of
    [argparse] raises for a command line that it rejects. *)
Inductive exception : Type :=
| WorkflowNextStepError (msg : string)
| JobDescriptionError (msg : string)
| PipelineDescriptionError (msg : string)
| ImportError (msg : string)
| IndexError
| ValueError
| AttributeError
| KeyError
| TypeError
| IntegrityError
| DataError
| OtherException (msg : string)
| SystemExit (code : Z).

(** [isinstance(e, Exception)]: all these exceptions derive from
    [Exception] but [SystemExit], which derives from [BaseException]; an
    [except Exception] clause does not catch it. *)
Definition is_Exception (e : exception) : bool :=
  match e with
  | SystemExit _ => false
  | _ => true
  end.

Definition result (A : Type) : Type := exception + A.

(** [l[i]] with Python's negative indices. *)
Definition getitem {A} (l : list A) (i : Z) : result A :=
  let n := Z.of_nat (length l) in
  let j := if i <? 0 then n + i else i in
  if (j <? 0) || (n <=? j) then inl IndexError
  else match nth_error l (Z.to_nat j) with
       | Some x => inr x
       | None => inl IndexError
       end.

(** [l.index(x)] on a list of strings. *)
Fixpoint index (x : string) (l : list string) : option nat :=
  match l with
  | [] => None
  | y :: l' => if String.eqb y x then Some 0%nat
               else option_map S (index x l')
  end.

(** [all([...])] *)
Definition all (l : list bool) : bool := forallb (fun b => b) l.

(** [enumerate(l)] *)
Fixpoint enumerate_from {A} (i : Z) (l : list A) : list (Z * A) :=
  match l with
  | [] => []
  | x :: l' => (i, x) :: enumerate_from (i + 1) l'
  end.

Definition enumerate {A} (l : list A) : list (Z * A) := enumerate_from 0 l.

End Py.

(** ** tmlib/tmaps/workflow.py *)

Module Workflow.
Import Py.

(** [gc3libs.Run.State] *)
Inductive RunState : Type :=
| NEW | SUBMITTED | RUNNING | STOPPED | TERMINATING | TERMINATED | UNKNOWN.

(** The file system, as far as [os.path.exists] sees it. *)
Definition FS : Type := gset string.

Definition os_path_exists (fs : FS) (p : string) : bool :=
  bool_decide (p ∈ fs).

Section Manager.

(** A job collection of one step ([cli_class_inst.jobs]). *)
Variable Task : Type.

(** Parsed command line arguments; the code reads [args.method_name]. *)
Record Args : Type := mkArgs {
  method_name : string;
  argv : list string
}.

(** An instance of a step's command line interface class.  The core
    requires [required_inputs], [expected_outputs], a method named by
    [args.method_name] that creates the job descriptions (it may write
    files and it may raise), and [jobs]. *)
Record Cli : Type := mkCli {
  required_inputs : list string;
  expected_outputs_of : list string;
  getattr : string -> option (FS -> FS * option exception);
  jobs : result Task
}.

(** The step programs of the [tmlib] package, reached through
    [importlib.import_module]: the argument parser and the class of the
    command line interface of a program. *)
Record Package : Type := mkPackage {
  import_argparser : string -> result (list string -> result Args);
  import_cli : string -> result (Args -> result Cli)
}.

Variable package : Package.

(** The workflow description read from the [.workflow] file, already
    formatted and split into words. *)
Variable workflow_description : list (list string).

(** [SequentialTaskCollection.next] of gc3libs. *)
Variable super_next : list Task -> Z -> RunState.

Record Manager : Type := mkManager {
  virtualenv : string;
  verbosity : Z;
  stopped : bool;
  tasks : list Task;
  expected_outputs : list (list string);
  exitcode : option Z
}.

Definition World : Type := (Manager * FS)%type.

(** State and exception monad over the manager and the file system. *)
Definition M (A : Type) : Type := World -> World * result A.

Definition ret {A} (a : A) : M A := fun w => (w, inr a).
Definition raise {A} (e : exception) : M A := fun w => (w, inl e).
Definition bind {A B} (c : M A) (k : A -> M B) : M B :=
  fun w => match c w with
           | (w', inl e) => (w', inl e)
           | (w', inr a) => k a w'
           end.
Definition lift {A} (r : result A) : M A := fun w => (w, r).
Definition get_manager : M Manager := fun w => (w, inr (fst w)).
Definition get_fs : M FS := fun w => (w, inr (snd w)).
Definition modify_manager (f : Manager -> Manager) : M unit :=
  fun w => ((f (fst w), snd w), inr tt).

Notation "'do' x <- c ; k" := (bind c (fun x => k))
  (at level 10, x name, c at level 100, k at level 200,
   format "'[v' 'do'  x  <-  c ; '/' k ']'").
Notation "'exec' c ; k" := (bind c (fun _ => k))
  (at level 10, c at level 100, k at level 200,
   format "'[v' 'exec'  c ; '/' k ']'").

Definition append_expected_outputs (o : list string) (m : Manager) :=
  mkManager (virtualenv m) (verbosity m) (stopped m) (tasks m)
            (expected_outputs m ++ [o]) (exitcode m).

Definition append_task (t : Task) (m : Manager) :=
  mkManager (virtualenv m) (verbosity m) (stopped m) (tasks m ++ [t])
            (expected_outputs m) (exitcode m).

Definition set_exitcode (c : Z) (m : Manager) :=
  mkManager (virtualenv m) (verbosity m) (stopped m) (tasks m)
            (expected_outputs m) (Some c).

(** [getattr(cli_class_inst, args.method_name)()] *)
Definition call_method (c : Cli) (name : string) : M unit :=
  fun w => match getattr c name with
           | None => (w, inl AttributeError)
           | Some f => match f (snd w) with
                       | (fs', Some e) => ((fst w, fs'), inl e)
                       | (fs', None) => ((fst w, fs'), inr tt)
                       end
           end.

Definition _create_jobs_for_step (step_desciption : list string) : M Task :=
  do prog_name <- lift (getitem step_desciption 0) ;
  do parser <- lift (import_argparser package
                    ("tmlib." +:+ prog_name +:+ ".argparser")) ;
  do cli_module <- lift (import_cli package
                        ("tmlib." +:+ prog_name +:+ ".cli")) ;
  let init_command := skipn 1 step_desciption in
  do args <- lift (parser init_command) ;
  do cli_class_inst <- lift (cli_module args) ;
  (* Check whether inputs of current step were produced upstream *)
  do fs <- get_fs ;
  exec (if negb (all (map (os_path_exists fs)
                           (required_inputs cli_class_inst)))
   then raise (WorkflowNextStepError "required inputs do not exist")
   else ret tt) ;
  (* Create job_descriptions for new step *)
  exec call_method cli_class_inst (method_name args) ;
  (* Store the expected outputs *)
  exec modify_manager
    (append_expected_outputs (expected_outputs_of cli_class_inst)) ;
  do m <- get_manager ;
  let submit_command := if 0 <? verbosity m then ["-v"] else [] in
  do i <- lift (match index "init" init_command with
             | Some i => inr i
             | None => inl ValueError
             end) ;
  let submit_command := submit_command ++ firstn i init_command in
  let submit_command := submit_command ++ ["submit"] in
  let submit_command :=
    if String.eqb (virtualenv m) "" then submit_command
    else submit_command ++ ["--virtualenv"; virtualenv m] in
  do args <- lift (parser submit_command) ;
  do cli_class_inst <- lift (cli_module args) ;
  lift (jobs cli_class_inst).

Definition _add_step (index : Z) : M unit :=
  do m <- get_manager ;
  do fs <- get_fs ;
  exec (if 0 <? index then
     do last_outputs <- lift (getitem (expected_outputs m) (-1)) ;
     if negb (all (map (os_path_exists fs) last_outputs))
     then raise (WorkflowNextStepError
                   "outputs of previous step do not exist")
     else ret tt
   else ret tt) ;
  do step_desciption <- lift (getitem workflow_description index) ;
  do task <- _create_jobs_for_step step_desciption ;
  modify_manager (append_task task).

(** [next(done)]: the new state of the manager and of the file system,
    and the returned run state, or the exception that [except Exception]
    does not catch. *)
Definition next (done : Z) : M RunState :=
  fun w =>
  let continue (w : World) : World * result RunState :=
    let state := super_next (tasks (fst w)) done in
    match state with
    | TERMINATED =>
        let w' := (set_exitcode 0 (fst w), snd w) in
        if stopped (fst w') then (w', inr STOPPED) else (w', inr state)
    | _ => (w, inr state)
    end in
  if done + 1 <? Z.of_nat (length workflow_description) then
    match _add_step (done + 1) w with
    | (w', inl error) =>
        if is_Exception error then
          let w'' := (set_exitcode 0 (fst w'), snd w') in
          if stopped (fst w'') then (w'', inr STOPPED)
          else (w'', inr TERMINATED)
        else (w', inl error)
    | (w', inr _) => continue w'
    end
  else continue w.

(** [__init__]: the manager starts with no tasks and adds step 0; an
    exception there leaves no manager. *)
Definition __init__ (virtualenv : string) (verbosity : Z) (fs : FS)
  : World * result unit :=
  _add_step 0 (mkManager virtualenv verbosity false [] [] None, fs).

(** Computations whose effect on the manager and the files stays within a
    relation: whatever they return, and when they raise. *)
Definition respects (R : World -> World -> Prop) {A} (c : M A) : Prop :=
  forall w w' r, c w = (w', r) -> R w w'.

Definition respects_on_error (R : World -> World -> Prop) {A} (c : M A)
  : Prop :=
  forall w w' e, c w = (w', inl e) -> R w w'.

(** No task is added and the manager is neither halted nor resumed. *)
Definition frame (w w' : World) : Prop :=
  tasks (fst w') = tasks (fst w) /\ stopped (fst w') = stopped (fst w).

(** Expected outputs are registered, none is forgotten. *)
Definition registers (w w' : World) : Prop :=
  exists l, expected_outputs (fst w') = expected_outputs (fst w) ++ l.

(** Computations that return only with expected outputs registered *)
Definition registered {A} (c : M A) : Prop :=
  forall w w' a, c w = (w', inr a) -> expected_outputs (fst w') <> [].

(** The instance of the command line interface that the preparation of a
    step builds from its [init] command, when the program can be imported
    and the command parsed. *)
Definition init_instance (step_desciption : list string) : result Cli :=
  match getitem step_desciption 0 with
  | inl e => inl e
  | inr prog_name =>
      match import_argparser package ("tmlib." +:+ prog_name +:+ ".argparser"),
            import_cli package ("tmlib." +:+ prog_name +:+ ".cli") with
      | inr parser, inr cli_module =>
          match parser (skipn 1 step_desciption) with
          | inl e => inl e
          | inr args => cli_module args
          end
      | inl e, _ => inl e
      | _, inl e => inl e
      end
  end.

(** Some declared required input of the step at [index] does not exist. *)
Definition required_input_missing (index : Z) (fs : FS) : Prop :=
  exists step_desciption cli_class_inst p,
    getitem workflow_description index = inr step_desciption /\
    init_instance step_desciption = inr cli_class_inst /\
    In p (required_inputs cli_class_inst) /\ p ∉ fs.

(** Some expected output of the step that was prepared last does not
    exist. *)
Definition expected_output_missing (m : Manager) (fs : FS) : Prop :=
  exists outputs p,
    getitem (expected_outputs m) (-1) = inr outputs /\
    In p outputs /\ p ∉ fs.

(** [Run.State.TERMINATED] and [Run.State.STOPPED] end the run of the
    workflow. *)
Definition terminal (s : RunState) : Prop := s = TERMINATED \/ s = STOPPED.

(** The manager shows an exit code other than zero. *)
Definition nonzero_exit (m : Manager) : Prop :=
  exists c, exitcode m = Some c /\ c <> 0.

End Manager.

Arguments mkArgs method_name argv : clear implicits.
Arguments mkCli {Task} _ _ _ _.
Arguments required_inputs {Task} _.
Arguments expected_outputs_of {Task} _.
Arguments getattr {Task} _ _.
Arguments jobs {Task} _.
Arguments mkPackage {Task} _ _.
Arguments import_argparser {Task} _ _.
Arguments import_cli {Task} _ _.
Arguments mkManager {Task} _ _ _ _ _ _.
Arguments virtualenv {Task} _.
Arguments verbosity {Task} _.
Arguments stopped {Task} _.
Arguments tasks {Task} _.
Arguments expected_outputs {Task} _.
Arguments exitcode {Task} _.
Arguments set_exitcode {Task} _ _.
Arguments append_task {Task} _ _.
Arguments append_expected_outputs {Task} _ _.
Arguments _create_jobs_for_step {Task} _ _ _.
Arguments _add_step {Task} _ _ _ _.
Arguments next {Task} _ _ _ _ _.
Arguments __init__ {Task} _ _ _ _ _.
Arguments init_instance {Task} _ _.
Arguments required_input_missing {Task} _ _ _ _.
Arguments expected_output_missing {Task} _ _.
Arguments nonzero_exit {Task} _.
Arguments respects {Task} _ {A} _.
Arguments respects_on_error {Task} _ {A} _.
Arguments frame {Task} _ _.
Arguments registers {Task} _ _.
Arguments registered {Task A} _.
Arguments ret {Task A} _ _.
Arguments raise {Task A} _ _.
Arguments bind {Task A B} _ _ _.
Arguments lift {Task A} _ _.
Arguments get_manager {Task} _.
Arguments get_fs {Task} _.
Arguments modify_manager {Task} _ _.
Arguments call_method {Task} _ _ _.

End Workflow.

(** *** A workflow of two steps *)

Module WorkflowExample.
Import Py Workflow.

(** A parser that wants one of the commands [init] and [submit]; like
    [argparse], it ends with [sys.exit(2)] on another command line. *)
Definition parser (argv : list string) : result Args :=
  if existsb (String.eqb "init") argv then inr (mkArgs "init" argv)
  else if existsb (String.eqb "submit") argv then inr (mkArgs "submit" argv)
  else inl (SystemExit 2).

(** [metaconfig] reads the images and writes the metadata; [align] reads
    the metadata and writes the shifts. *)
Definition Metaconfig (args : Args) : result (Cli string) :=
  inr (mkCli ["/exp/images"] ["/exp/metadata.json"]
         (fun name => if String.eqb name "init"
                      then Some (fun fs : FS =>
                                   ({["/exp/metaconfig.jobs"]} ∪ fs, None))
                      else None)
         (inr "metaconfig")).

Definition Align (args : Args) : result (Cli string) :=
  inr (mkCli ["/exp/metadata.json"] ["/exp/shifts.json"]
         (fun name => if String.eqb name "init"
                      then Some (fun fs : FS =>
                                   ({["/exp/align.jobs"]} ∪ fs, None))
                      else None)
         (inr "align")).

Definition package : Package string :=
  mkPackage
    (fun module =>
       if String.eqb module "tmlib.metaconfig.argparser" then inr parser
       else if String.eqb module "tmlib.align.argparser" then inr parser
       else inl (ImportError module))
    (fun module =>
       if String.eqb module "tmlib.metaconfig.cli" then inr Metaconfig
       else if String.eqb module "tmlib.align.cli" then inr Align
       else inl (ImportError module)).

Definition workflow_description : list (list string) :=
  [ ["metaconfig"; "/exp"; "init"]; ["align"; "/exp"; "init"] ].

(** The last task of the collection ends the run. *)
Definition super_next (tasks : list string) (done : Z) : RunState :=
  if done =? Z.of_nat (length tasks) - 1 then TERMINATED else RUNNING.

(** The manager after its construction, and a file system in which the
    first step has not written the metadata. *)
Definition manager : Manager string :=
  mkManager "" 0 false ["metaconfig"] [["/exp/metadata.json"]] None.

Definition files : FS := {[ "/exp/images"; "/exp/metaconfig.jobs" ]}.

(** A workflow whose second step has no command, and a file system in
    which the first step has written the metadata. *)
Definition rejected_description : list (list string) :=
  [ ["metaconfig"; "/exp"; "init"]; ["align"] ].

Definition files_after_metaconfig : FS :=
  {[ "/exp/images"; "/exp/metaconfig.jobs"; "/exp/metadata.json" ]}.

End WorkflowExample.


(** ** tmlib/workflow/jterator/api.py: job batches and the module pipeline *)

Module Jterator.
Import Py.

(** *** [create_run_batches] *)

(** [tmlib.workflow.jterator.args.BatchArguments], the fields the code reads *)
Record BatchArguments : Type := mkBatchArguments {
  plot : bool;
  batch_size : Z
}.

(** A job description: the dictionary with the keys ['id'], ['site_ids']
    and ['plot'] that [create_run_batches] yields. *)
Record JobDescription : Type := mkJobDescription {
  id : Z;
  site_ids : list Z;
  job_plot : bool
}.

(** What a generator does when it is run to its end: the values it yields,
    in order, and the exception that stopped it, if any. *)
Record generated (A : Type) : Type := mkGenerated {
  yielded : list A;
  raised : option exception
}.
Arguments mkGenerated {A} _ _.
Arguments yielded {A} _.
Arguments raised {A} _.

(** Contiguous groups of [n] elements, the last one possibly shorter. *)
Fixpoint groups_of (fuel n : nat) (li : list Z) : list (list Z) :=
  match fuel with
  | O => []
  | S fuel' =>
      match li with
      | [] => []
      | _ :: _ => firstn n li :: groups_of fuel' n (skipn n li)
      end
  end.

(** Modelled from the spec: [WorkflowStepAPI._create_batches] of
    [tmlib/workflow/api.py], which is not among the sources.  It "splits
    unit_ids into contiguous groups of at most batch_size, preserving the
    original ordering (stable, deterministic)"; five units and a batch size
    of two give groups of two, two and one units.  The spec describes it
    for batch sizes of at least one. *)
Definition _create_batches (li : list Z) (n : Z) : list (list Z) :=
  groups_of (length li) (Z.to_nat n) li.

(** [site_ids] is the result of
    [session.query(tm.Site.id).order_by(tm.Site.id).all()].  The query for
    [image_file_locations] inside the loop only reads the database and its
    result is not used. *)
Definition create_run_batches (site_ids : list Z) (args : BatchArguments)
  : generated JobDescription :=
  if plot args && negb (batch_size args =? 1) then
    mkGenerated []
      (Some (JobDescriptionError
               "Batch size must be 1 when plotting is active."))
  else
    let batches := _create_batches site_ids (batch_size args) in
    mkGenerated
      (map (fun jb : Z * list Z =>
              let (j, batch) := jb in
              mkJobDescription (j + 1) batch (plot args))
           (enumerate batches))
      None.

(** *** [pipeline] *)

(** An element of [project.pipe.description.pipeline] *)
Record PipelineModuleDescription : Type := mkPipelineModuleDescription {
  source : string;
  active : bool
}.

(** ['/' in source_file] *)
Fixpoint contains_slash (s : string) : bool :=
  match s with
  | EmptyString => false
  | String c s' => if Ascii.eqb c "/"%char then true else contains_slash s'
  end.

Section Pipeline.

(** The description of the inputs and outputs of a module *)
Variable Handles : Type.

(** An element of [project.handles] *)
Record HandleDescriptions : Type := mkHandleDescriptions {
  hd_name : string;
  description : Handles
}.

Record ImageAnalysisModule : Type := mkImageAnalysisModule {
  name : string;
  source_file : string;
  handles : Handles
}.

(** [os.path] and the location of the step *)
Record OsPath : Type := mkOsPath {
  expandvars : string -> string;
  expanduser : string -> string;
  isabs : string -> bool;
  join : string -> string -> string;
  exists_ : string -> bool
}.

Variable os_path : OsPath.
Variable step_location : string.

Definition resolve_source (source_file : string) : result string :=
  if contains_slash source_file then
    let source_file := expandvars os_path source_file in
    let source_file := expanduser os_path source_file in
    let source_file :=
      if negb (isabs os_path source_file)
      then join os_path step_location source_file
      else source_file in
    if negb (exists_ os_path source_file)
    then inl (PipelineDescriptionError
                ("Module file does not exist: " +:+ source_file))
    else inr source_file
  else inr source_file.

(** The loop over [enumerate(self.project.pipe.description.pipeline)];
    [pipeline] is the list built so far. *)
Fixpoint pipeline_loop (project_handles : list HandleDescriptions)
    (elements : list (Z * PipelineModuleDescription))
    (pipeline : list ImageAnalysisModule)
  : result (list ImageAnalysisModule) :=
  match elements with
  | [] => inr pipeline
  | (i, element) :: rest =>
      if negb (active element) then
        pipeline_loop project_handles rest pipeline
      else
        match resolve_source (source element) with
        | inl e => inl e
        | inr source_file =>
            match getitem project_handles i with
            | inl e => inl e
            | inr h =>
                let module := mkImageAnalysisModule
                                (hd_name h) source_file (description h) in
                pipeline_loop project_handles rest (pipeline ++ [module])
            end
        end
  end.

Definition pipeline (project_pipeline : list PipelineModuleDescription)
    (project_handles : list HandleDescriptions)
  : result (list ImageAnalysisModule) :=
  pipeline_loop project_handles (enumerate project_pipeline) [].

(** The module [m] is built from the element at position [i] of the
    description and from the handles at position [i] of [project.handles]. *)
Definition built_from (elements : list PipelineModuleDescription)
    (project_handles : list HandleDescriptions)
    (m : ImageAnalysisModule) (ie : Z * PipelineModuleDescription) : Prop :=
  exists h,
    nth_error elements (Z.to_nat (fst ie)) = Some (snd ie) /\
    nth_error project_handles (Z.to_nat (fst ie)) = Some h /\
    name m = hd_name h /\
    handles m = description h /\
    resolve_source (source (snd ie)) = inr (source_file m).

End Pipeline.

Arguments mkHandleDescriptions {Handles} _ _.
Arguments hd_name {Handles} _.
Arguments description {Handles} _.
Arguments mkImageAnalysisModule {Handles} _ _ _.
Arguments name {Handles} _.
Arguments source_file {Handles} _.
Arguments handles {Handles} _.
Arguments pipeline_loop {Handles} _ _ _ _ _.
Arguments pipeline {Handles} _ _ _ _.
Arguments built_from {Handles} _ _ _ _ _ _.

(** *** The feature catalog and [_add_feature] *)

(** A row of the table [features] *)
Record Feature : Type := mkFeature {
  feature_id : Z;
  feature_name : string;
  is_aggregate : bool;
  mapobject_type_id : Z
}.

(** The table [features] with the sequence that numbers its rows: the
    next value of the sequence, and the largest id that the sequence and
    the column [id] take.  The table has the constraint
    [features_name_mapobject_type_id_key], no two rows agree on [name] and
    [mapobject_type_id], and its primary key, no two rows agree on [id]. *)
Record Features : Type := mkFeatures {
  rows : list Feature;
  id_seq : Z;
  id_max : Z
}.

Definition has_key (name : string) (mapobject_type_id_ : Z) (f : Feature)
  : bool :=
  String.eqb (feature_name f) name && (mapobject_type_id f =? mapobject_type_id_).

(** [INSERT INTO features ... ON CONFLICT ON CONSTRAINT
    features_name_mapobject_type_id_key DO NOTHING RETURNING id] and
    [fetchone()].  The id of the new row is the next value of the sequence;
    the statement fails with [DataError] when the sequence is used up.  The
    sequence advances also when no row is added.  The row is not added
    when a row with this name and object type is there; only this conflict
    does nothing: when another row has the id of the new row, the primary
    key is violated and the statement fails with [IntegrityError]. *)
Definition insert_on_conflict_do_nothing
    (name : string) (is_aggregate_ : bool) (mapobject_type_id_ : Z)
    (t : Features) : Features * result (option Z) :=
  let new_id := id_seq t in
  if id_max t <? new_id then (t, inl DataError)
  else
    let t' := mkFeatures (rows t) (id_seq t + 1) (id_max t) in
    if existsb (has_key name mapobject_type_id_) (rows t) then
      (t', inr None)
    else if existsb (fun f => feature_id f =? new_id) (rows t) then
      (t', inl IntegrityError)
    else
      (mkFeatures (rows t ++ [mkFeature new_id name is_aggregate_
                                mapobject_type_id_])
                  (id_seq t + 1) (id_max t),
       inr (Some new_id)).

(** [SELECT id FROM features WHERE name = ... AND mapobject_type_id = ...]
    followed by [fetchone()] *)
Definition select_id (name : string) (mapobject_type_id_ : Z) (t : Features)
  : option Z :=
  option_map feature_id (find (has_key name mapobject_type_id_) (rows t)).

Definition _add_feature (name : string) (mapobject_type_id_ : Z)
    (is_aggregate_ : bool) (t : Features) : Features * result Z :=
  let (t', record) :=
    insert_on_conflict_do_nothing name is_aggregate_ mapobject_type_id_ t in
  match record with
  | inl e => (t', inl e)
  | inr (Some i) => (t', inr i)
  | inr None =>
      match select_id name mapobject_type_id_ t' with
      | Some i => (t', inr i)
      | None => (t', inl AttributeError)   (* [None.id] *)
      end
  end.

(** A sequence of calls of [_add_feature] on one connection: the table
    after them and what each call returns. *)
Fixpoint add_features (calls : list (string * Z * bool)) (t : Features)
  : Features * list (result Z) :=
  match calls with
  | [] => (t, [])
  | (name, mapobject_type_id_, is_aggregate_) :: calls' =>
      let (t', r) := _add_feature name mapobject_type_id_ is_aggregate_ t in
      let (t'', rs) := add_features calls' t' in
      (t'', r :: rs)
  end.

(** The number of rows with a name and an object type *)
Definition count_key (name : string) (mapobject_type_id_ : Z) (t : Features)
  : nat :=
  length (List.filter (has_key name mapobject_type_id_) (rows t)).

(** The constraint [features_name_mapobject_type_id_key] *)
Definition features_name_mapobject_type_id_key (t : Features) : Prop :=
  forall name mapobject_type_id_,
    (count_key name mapobject_type_id_ t <= 1)%nat.

(** The primary key of the catalog: the ids of the rows are distinct and
    below the next value of the sequence. *)
Definition features_pkey (t : Features) : Prop :=
  List.NoDup (map feature_id (rows t)) /\
  Forall (fun f => feature_id f < id_seq t) (rows t).

(** The sequence has [n] more values. *)
Definition ids_left (n : Z) (t : Features) : Prop :=
  id_seq t + n <= id_max t + 1.

(** *** [_aggregate] *)

(** The name of an aggregate feature, as [_aggregate] builds it. *)
Definition agg_feature_name (stat_name feature_name_ mapobject_type_name : string)
  : string :=
  if String.eqb stat_name "count" then
    mapobject_type_name +:+ "_" +:+ stat_name
  else
    feature_name_ +:+ "_" +:+ mapobject_type_name +:+ "_" +:+ stat_name.

Section Aggregate.

(** Floating point numbers and the functions of numpy and Python on them *)
Variable float : Type.

Inductive number : Type :=
| Int (z : Z)
| Float (x : float).

Record Numpy : Type := mkNumpy {
  nanmin : list float -> float;
  nanmax : list float -> float;
  nansum : list float -> float;
  nanmean : list float -> float;
  round : number -> Z -> number;
  str : number -> string
}.

Variable np : Numpy.

(** A row of the table [feature_values]; the keys of [values] are feature
    ids (as strings in the database; the model keeps the integers). *)
Record FeatureValues : Type := mkFeatureValues {
  fv_mapobject_id : Z;
  fv_values : gmap Z string;
  fv_tpoint : Z
}.

(** The items of the dictionary [statistics], in the order in which
    CPython 2.7 (64 bit) iterates a dictionary that is made with these
    keys. *)
Definition statistics : list (string * (list float -> number)) :=
  [ ("Count", fun v => Int (Z.of_nat (length v)));
    ("Max", fun v => Float (nanmax np v));
    ("Sum", fun v => Float (nansum np v));
    ("Mean", fun v => Float (nanmean np v));
    ("Min", fun v => Float (nanmin np v)) ].

(** The state of the loops of [_aggregate]: the catalog, the dictionaries
    [agg_values] and [agg_features] and the table [feature_values]. *)
Record AggState : Type := mkAggState {
  catalog : Features;
  agg_values : gmap Z string;
  agg_features : gmap Z string;
  feature_values : list FeatureValues
}.

(** [data.rename(columns=feature_map)] *)
Definition rename (feature_map : gmap string string)
    (data : list (string * list float)) : list (string * list float) :=
  map (fun c => (default (fst c) (feature_map !! fst c), snd c)) data.

(** [for feature_name, vals in data.iteritems()] *)
Fixpoint aggregate_columns (mapobject_type_name : string)
    (ref_mapobject_type_id : Z)
    (stat_name : string) (func : list float -> number)
    (data : list (string * list float)) (st : AggState) : result AggState :=
  match data with
  | [] => inr st
  | (feature_name_, vals) :: data' =>
      let agg_value := round np (func vals) 6 in
      let agg_feature_name_ :=
        agg_feature_name stat_name feature_name_ mapobject_type_name in
      match _add_feature agg_feature_name_ ref_mapobject_type_id true
                         (catalog st) with
      | (_, inl e) => inl e
      | (t', inr agg_id) =>
          aggregate_columns mapobject_type_name ref_mapobject_type_id
            stat_name func data'
            (mkAggState t'
               (<[agg_id := str np agg_value]> (agg_values st))
               (<[agg_id := agg_feature_name_]> (agg_features st))
               (feature_values st))
      end
  end.

(** [for stat_name, func in statistics.iteritems()] *)
Fixpoint aggregate_statistics (mapobject_type_name : string)
    (ref_mapobject_type_id : Z)
    (stats : list (string * (list float -> number)))
    (data : list (string * list float)) (st : AggState) : result AggState :=
  match stats with
  | [] => inr st
  | (stat_name, func) :: stats' =>
      match aggregate_columns mapobject_type_name ref_mapobject_type_id
                              stat_name func data st with
      | inl e => inl e
      | inr st' =>
          aggregate_statistics mapobject_type_name ref_mapobject_type_id
                               stats' data st'
      end
  end.

(** [for record in results]; a record is a time point and the data frame
    of the feature values of the objects inside the reference geometry, one
    column per feature id. *)
Fixpoint aggregate_records (feature_map : gmap string string)
    (mapobject_type_name : string)
    (ref_mapobject_type_id ref_mapobject_id : Z)
    (results : list (Z * list (string * list float))) (st : AggState)
  : result AggState :=
  match results with
  | [] => inr st
  | (t, data) :: results' =>
      let data := rename feature_map data in
      match aggregate_statistics mapobject_type_name ref_mapobject_type_id
                                 statistics data st with
      | inl e => inl e
      | inr st' =>
          let row := mkFeatureValues ref_mapobject_id (agg_values st') t in
          aggregate_records feature_map mapobject_type_name
            ref_mapobject_type_id ref_mapobject_id results'
            (mkAggState (catalog st') (agg_values st') (agg_features st')
                        (feature_values st' ++ [row]))
      end
  end.

(** [results] is what the query for the feature values of the objects of
    type [mapobject_type_id] that intersect [ref_geometry] returns.  The
    result is the database after the call together with [agg_features]. *)
Definition _aggregate (feature_map : gmap string string)
    (mapobject_type_name : string)
    (ref_mapobject_type_id ref_mapobject_id : Z)
    (results : list (Z * list (string * list float)))
    (features : Features) (values : list FeatureValues)
  : result (Features * list FeatureValues * gmap Z string) :=
  match aggregate_records feature_map mapobject_type_name
          ref_mapobject_type_id ref_mapobject_id results
          (mkAggState features ∅ ∅ values) with
  | inl e => inl e
  | inr st => inr (catalog st, feature_values st, agg_features st)
  end.

End Aggregate.

(** *** [_save_pipeline_outputs] *)

(** An element of [project.pipe.description.input.objects] *)
Record PipelineObjectInputDescription : Type :=
  mkPipelineObjectInputDescription {
  input_name : string
}.

(** An element of [project.pipe.description.output.objects] *)
Record PipelineObjectOutputDescription : Type :=
  mkPipelineObjectOutputDescription {
  output_name : string;
  as_polygons : bool
}.

(** The Python values that meet in [obj_name not in inputs]: the key of
    [objects_to_save], a [str], and the elements of [input.objects],
    instances of a description class whose attribute [name] the code reads
    elsewhere ([obj.name]). *)
Inductive pyvalue : Type :=
| PyStr (s : string)
| PyObjectInput (d : PipelineObjectInputDescription).

(** [x == y]: a string and an instance of a description class are never
    equal. *)
Definition py_eq (x y : pyvalue) : bool :=
  match x, y with
  | PyStr s, PyStr t => String.eqb s t
  | PyObjectInput d, PyObjectInput e =>
      String.eqb (input_name d) (input_name e)
  | _, _ => false
  end.

(** [x in l] *)
Definition py_in (x : pyvalue) (l : list pyvalue) : bool :=
  existsb (fun y => py_eq x y) l.

(** [poly_thresh = layer.maxzoom_level_index - 3] and
    [segmentation_layer.polygon_threshold = 0 if poly_thresh < 0 else
    poly_thresh] *)
Definition polygon_threshold (maxzoom_level_index : Z) : Z :=
  let poly_thresh := maxzoom_level_index - 3 in
  if poly_thresh <? 0 then 0 else poly_thresh.

(** [centroid_thresh = segmentation_layer.polygon_threshold - 2] and
    [segmentation_layer.centroid_threshold = 0 if centroid_thresh < 0 else
    centroid_thresh] *)
Definition centroid_threshold (polygon_threshold_ : Z) : Z :=
  let centroid_thresh := polygon_threshold_ - 2 in
  if centroid_thresh <? 0 then 0 else centroid_thresh.

(** A [tm.MapobjectSegmentation], without the geometries: whether it has
    a polygon, the map object, the segmentation layer and the label *)
Record MapobjectSegmentation : Type := mkMapobjectSegmentation {
  has_polygon : bool;
  ms_mapobject_id : Z;
  ms_segmentation_layer_id : Z;
  ms_label : Z
}.

(** A [tm.FeatureValues] of a segmented object; the keys of [values] are
    the strings that [d.index.astype(str)] gives. *)
Record ObjectFeatureValues : Type := mkObjectFeatureValues {
  ofv_mapobject_id : Z;
  ofv_tpoint : Z;
  ofv_values : gmap string string
}.

(** What [_save_pipeline_outputs] writes, in the order of the code: the
    thresholds of a segmentation layer (in the session), and the calls on
    the connection. *)
Inductive db_call : Type :=
| SegmentationLayer_thresholds (segmentation_layer_id polygon_threshold_
                                centroid_threshold_ : Z)
| Mapobject_delete_cascade (mapobject_type_id_ : Z) (ref_type : string)
                           (ref_id : Z)
| Mapobject_add_multiple (mapobject_type_id_ : Z) (n : nat)
| MapobjectSegmentation_add_multiple (l : list MapobjectSegmentation)
| FeatureValues_add_multiple (l : list ObjectFeatureValues).

Section Save.

(** Floating point numbers *)
Variable float : Type.

(** A data frame of [measurements]: the feature values of the objects at
    one time point, with a column for each feature and a row for each
    label. *)
Record DataFrame : Type := mkDataFrame {
  columns : list string;
  df_rows : list (Z * list float)
}.

(** [data.empty]: an axis of the frame has no element. *)
Definition df_empty (data : DataFrame) : bool :=
  match columns data, df_rows data with
  | [], _ | _, [] => true
  | _, _ => false
  end.

(** The handle [SegmentedObjects] in [store['objects']], as far as
    [_save_pipeline_outputs] reads and writes it: the attributes [save],
    [represent_as_polygons], [labels] and [measurements], the time points
    and planes of [iter_planes], and the time point, the plane and the
    label of what [iter_polygons] and [iter_points] give, for a polygon
    with [polygon.is_empty]. *)
Record SegmentedObjects : Type := mkSegmentedObjects {
  save : bool;
  represent_as_polygons : bool;
  labels : list Z;
  measurements : list DataFrame;
  iter_planes : list (Z * Z);
  iter_polygons : list (Z * Z * Z * bool);
  iter_points : list (Z * Z * Z)
}.

(** [store['objects'][item.name].save = True] and
    [.represent_as_polygons = as_polygons] for each output object *)
Fixpoint mark_outputs (objects_output : list PipelineObjectOutputDescription)
    (objects : gmap string SegmentedObjects)
  : result (gmap string SegmentedObjects) :=
  match objects_output with
  | [] => inr objects
  | item :: rest =>
      match objects !! output_name item with
      | None => inl KeyError
      | Some o =>
          mark_outputs rest
            (<[output_name item :=
                 mkSegmentedObjects true (as_polygons item) (labels o)
                   (measurements o) (iter_planes o) (iter_polygons o)
                   (iter_points o)]>
               objects)
      end
  end.

(** The order in which [store['objects'].iteritems()] and
    [objects_to_save.iteritems()] give the items of the dictionaries *)
Variable iteritems : gmap string SegmentedObjects ->
                     list (string * SegmentedObjects).
Variable iteritems_to_save : gmap string SegmentedObjects ->
                             list (string * SegmentedObjects).

(** The ids of the rows that [session.get_or_create] returns: of the
    object type of a name, of the feature of a name and an object type, and
    of the segmentation layer of an object type, a time point and a
    plane *)
Variable get_or_create_mapobject_type : string -> Z.
Variable get_or_create_feature : string -> Z -> Z.
Variable get_or_create_segmentation_layer : Z -> Z -> Z -> Z.

(** [maxzoom_level_index] of [session.query(tm.ChannelLayer).first()], if
    there is a channel layer *)
Variable layer : option Z.

(** [aligned_offset] of [session.query(tm.Site).get(store['site_id'])], if
    there is the site *)
Variable site_aligned_offset : option (Z * Z).

(** [data.round(6)] on a value, and [d.values.astype(str)] on a value *)
Variable df_round : float -> Z -> float.
Variable astype_str : float -> string.

(** The variables of the first part that the second part reads:
    [objects_to_save], [feature_ids], [segmentation_layer_ids], and
    [measurements], which is bound when the first object is saved and
    holds the measurements of the object that was saved last. *)
Record SessionState : Type := mkSessionState {
  objects_to_save : gmap string SegmentedObjects;
  feature_ids : gmap string (gmap string Z);
  segmentation_layer_ids : gmap (string * Z * Z) Z;
  last_measurements : option (list DataFrame);
  session_calls : list db_call
}.

(** [for (t, z), plane in segm_objs.iter_planes()] *)
Fixpoint session_planes (obj_name : string) (mapobject_type_id_ : Z)
    (planes : list (Z * Z)) (st : SessionState) : result SessionState :=
  match planes with
  | [] => inr st
  | (t, z) :: planes' =>
      let segmentation_layer_id :=
        get_or_create_segmentation_layer mapobject_type_id_ t z in
      match layer with
      | None => inl AttributeError   (* [None.maxzoom_level_index] *)
      | Some maxzoom_level_index =>
          let polygon_threshold_ := polygon_threshold maxzoom_level_index in
          let centroid_threshold_ := centroid_threshold polygon_threshold_ in
          session_planes obj_name mapobject_type_id_ planes'
            (mkSessionState (objects_to_save st) (feature_ids st)
               (<[(obj_name, t, z) := segmentation_layer_id]>
                  (segmentation_layer_ids st))
               (last_measurements st)
               (session_calls st
                ++ [SegmentationLayer_thresholds segmentation_layer_id
                      polygon_threshold_ centroid_threshold_]))
      end
  end.

(** The body of the loop over [store['objects'].iteritems()].  In
    [feature_ids] the entry of the object is made with its first feature;
    the lookups default to the empty dictionary. *)
Definition session_object (obj_name : string) (segm_objs : SegmentedObjects)
    (st : SessionState) : result SessionState :=
  if negb (save segm_objs) then inr st
  else
    let mapobject_type_id_ := get_or_create_mapobject_type obj_name in
    let measurements_ := measurements segm_objs in
    match measurements_ with
    | [] => inl IndexError   (* [measurements[0]] *)
    | first :: _ =>
        let column_lut :=
          fold_left
            (fun d feature_name_ =>
               <[feature_name_ :=
                   get_or_create_feature feature_name_ mapobject_type_id_]> d)
            (columns first)
            (default ∅ (feature_ids st !! obj_name)) in
        session_planes obj_name mapobject_type_id_ (iter_planes segm_objs)
          (mkSessionState
             (<[obj_name := segm_objs]> (objects_to_save st))
             (<[obj_name := column_lut]> (feature_ids st))
             (segmentation_layer_ids st)
             (Some measurements_)
             (session_calls st))
    end.

Fixpoint session_objects (items : list (string * SegmentedObjects))
    (st : SessionState) : result SessionState :=
  match items with
  | [] => inr st
  | (obj_name, segm_objs) :: items' =>
      match session_object obj_name segm_objs st with
      | inl e => inl e
      | inr st' => session_objects items' st'
      end
  end.

(** [{label: mapobjects[i].id for i, label in enumerate(segm_objs.labels)}],
    for the ids that the new rows get: the values of the sequence of the
    table from [first_id] on.  A label that comes twice keeps the later
    id. *)
Definition mapobject_ids_of (labels_ : list Z) (first_id : Z) : gmap Z Z :=
  fold_left (fun d il => <[snd il := first_id + fst il]> d)
            (enumerate labels_) ∅.

(** The segmentations of the polygons; an empty polygon is skipped. *)
Fixpoint polygon_segmentations (obj_name : string) (mapobject_ids : gmap Z Z)
    (layer_ids : gmap (string * Z * Z) Z)
    (polygons : list (Z * Z * Z * bool))
  : result (list MapobjectSegmentation) :=
  match polygons with
  | [] => inr []
  | (t, z, label, is_empty) :: polygons' =>
      if is_empty then
        polygon_segmentations obj_name mapobject_ids layer_ids polygons'
      else
        match mapobject_ids !! label, layer_ids !! (obj_name, t, z) with
        | Some mapobject_id, Some segmentation_layer_id =>
            match polygon_segmentations obj_name mapobject_ids layer_ids
                                        polygons' with
            | inl e => inl e
            | inr l =>
                inr (mkMapobjectSegmentation true mapobject_id
                       segmentation_layer_id label :: l)
            end
        | _, _ => inl KeyError
        end
  end.

(** The segmentations of the points *)
Fixpoint point_segmentations (obj_name : string) (mapobject_ids : gmap Z Z)
    (layer_ids : gmap (string * Z * Z) Z) (points : list (Z * Z * Z))
  : result (list MapobjectSegmentation) :=
  match points with
  | [] => inr []
  | (t, z, label) :: points' =>
      match mapobject_ids !! label, layer_ids !! (obj_name, t, z) with
      | Some mapobject_id, Some segmentation_layer_id =>
          match point_segmentations obj_name mapobject_ids layer_ids
                                    points' with
          | inl e => inl e
          | inr l =>
              inr (mkMapobjectSegmentation false mapobject_id
                     segmentation_layer_id label :: l)
          end
      | _, _ => inl KeyError
      end
  end.

(** [dict(zip(d.index.astype(str), d.values.astype(str)))] for a row of
    the rounded and renamed data: a column that [column_lut] has is named
    by its id, another column keeps its name. *)
Definition row_values (column_lut : gmap string Z) (columns_ : list string)
    (d : list float) : gmap string string :=
  fold_left
    (fun values kv => <[fst kv := snd kv]> values)
    (combine
       (map (fun c => match column_lut !! c with
                      | Some feature_id_ => pretty feature_id_
                      | None => c
                      end) columns_)
       (map (fun v => astype_str (df_round v 6)) d))
    ∅.

(** [for label, d in data.rename(columns=column_lut).iterrows()] *)
Fixpoint frame_feature_values (column_lut : gmap string Z)
    (mapobject_ids : gmap Z Z) (t : Z) (columns_ : list string)
    (rows_ : list (Z * list float)) : result (list ObjectFeatureValues) :=
  match rows_ with
  | [] => inr []
  | (label, d) :: rows' =>
      let values := row_values column_lut columns_ d in
      match mapobject_ids !! label with
      | None => inl KeyError
      | Some mapobject_id =>
          match frame_feature_values column_lut mapobject_ids t columns_
                                     rows' with
          | inl e => inl e
          | inr l => inr (mkObjectFeatureValues mapobject_id t values :: l)
          end
      end
  end.

(** [for t, data in enumerate(measurements)] *)
Fixpoint measurements_feature_values (column_lut : gmap string Z)
    (mapobject_ids : gmap Z Z) (frames : list (Z * DataFrame))
  : result (list ObjectFeatureValues) :=
  match frames with
  | [] => inr []
  | (t, data) :: frames' =>
      if df_empty data then
        measurements_feature_values column_lut mapobject_ids frames'
      else
        match frame_feature_values column_lut mapobject_ids t
                (columns data) (df_rows data) with
        | inl e => inl e
        | inr l =>
            match measurements_feature_values column_lut mapobject_ids
                                              frames' with
            | inl e => inl e
            | inr l' => inr (l ++ l')
            end
        end
  end.

(** The body of the loop over [objects_to_save.iteritems()]: the calls
    on the connection for one object, the new rows of [mapobjects] taking
    their ids from [first_id] on.  [measurements] is the variable of the
    first part: the feature values of every object are built from the
    measurements of the object that the first part saved last. *)
Definition save_objects (inputs : list PipelineObjectInputDescription)
    (site_id : Z) (st : SessionState) (obj_name : string)
    (segm_objs : SegmentedObjects) (first_id : Z) : result (list db_call) :=
  let mapobject_type_id_ := get_or_create_mapobject_type obj_name in
  let deleted :=
    if negb (py_in (PyStr obj_name) (map PyObjectInput inputs))
    then [Mapobject_delete_cascade mapobject_type_id_ "Site" site_id]
    else [] in
  let mapobject_ids := mapobject_ids_of (labels segm_objs) first_id in
  match (if represent_as_polygons segm_objs
         then polygon_segmentations obj_name mapobject_ids
                (segmentation_layer_ids st) (iter_polygons segm_objs)
         else point_segmentations obj_name mapobject_ids
                (segmentation_layer_ids st) (iter_points segm_objs)) with
  | inl e => inl e
  | inr mapobject_segmentations =>
      match last_measurements st with
      | None =>
          inl (OtherException
                 "local variable 'measurements' referenced before assignment")
      | Some measurements_ =>
          let column_lut := default ∅ (feature_ids st !! obj_name) in
          match measurements_feature_values column_lut mapobject_ids
                  (enumerate measurements_) with
          | inl e => inl e
          | inr feature_values_ =>
              inr (deleted ++
                   [ Mapobject_add_multiple mapobject_type_id_
                       (length (labels segm_objs));
                     MapobjectSegmentation_add_multiple
                       mapobject_segmentations;
                     FeatureValues_add_multiple feature_values_ ])
          end
      end
  end.

Fixpoint save_all (inputs : list PipelineObjectInputDescription)
    (site_id : Z) (st : SessionState)
    (items : list (string * SegmentedObjects)) (first_id : Z)
  : result (list db_call) :=
  match items with
  | [] => inr []
  | (obj_name, segm_objs) :: items' =>
      match save_objects inputs site_id st obj_name segm_objs first_id with
      | inl e => inl e
      | inr calls =>
          match save_all inputs site_id st items'
                  (first_id + Z.of_nat (length (labels segm_objs))) with
          | inl e => inl e
          | inr calls' => inr (calls ++ calls')
          end
      end
  end.

(** The objects of the store are those of the pipeline run of the site
    [site_id]; [mapobject_id_seq] is the next value of the sequence of the
    table [mapobjects].  The result lists what is written when no exception
    is raised. *)
Definition _save_pipeline_outputs
    (inputs : list PipelineObjectInputDescription)
    (objects_output : list PipelineObjectOutputDescription)
    (store_objects : gmap string SegmentedObjects) (site_id : Z)
    (mapobject_id_seq : Z) : result (list db_call) :=
  match mark_outputs objects_output store_objects with
  | inl e => inl e
  | inr objects =>
      match session_objects (iteritems objects)
              (mkSessionState ∅ ∅ ∅ None []) with
      | inl e => inl e
      | inr st =>
          match site_aligned_offset with
          | None => inl AttributeError   (* [None.aligned_offset] *)
          | Some _ =>
              match save_all inputs site_id st
                      (iteritems_to_save (objects_to_save st))
                      mapobject_id_seq with
              | inl e => inl e
              | inr calls => inr (session_calls st ++ calls)
              end
          end
      end
  end.

End Save.

Arguments Int {float} _.
Arguments Float {float} _.
Arguments mkNumpy {float} _ _ _ _ _ _.
Arguments _aggregate {float} _ _ _ _ _ _ _ _.
Arguments mkDataFrame {float} _ _.
Arguments columns {float} _.
Arguments df_rows {float} _.
Arguments mkSegmentedObjects {float} _ _ _ _ _ _ _.
Arguments save {float} _.
Arguments represent_as_polygons {float} _.
Arguments labels {float} _.
Arguments measurements {float} _.
Arguments iter_planes {float} _.
Arguments iter_polygons {float} _.
Arguments iter_points {float} _.
Arguments mark_outputs {float} _ _.
Arguments mkSessionState {float} _ _ _ _ _.
Arguments objects_to_save {float} _.
Arguments feature_ids {float} _.
Arguments segmentation_layer_ids {float} _.
Arguments last_measurements {float} _.
Arguments session_calls {float} _.
Arguments row_values {float} _ _ _ _ _.
Arguments df_empty {float} _.
Arguments session_planes {float} _ _ _ _ _ _.
Arguments session_object {float} _ _ _ _ _ _ _.
Arguments session_objects {float} _ _ _ _ _ _.
Arguments frame_feature_values {float} _ _ _ _ _ _ _.
Arguments measurements_feature_values {float} _ _ _ _ _.
Arguments save_objects {float} _ _ _ _ _ _ _ _ _.
Arguments save_all {float} _ _ _ _ _ _ _ _.
Arguments _save_pipeline_outputs {float} _ _ _ _ _ _ _ _ _ _ _ _ _ _.

End Jterator.

(** ** Floating point numbers and numpy's rounding *)

Module Binary64.
Import Jterator.

(** The floats of Python and numpy are the binary floating point numbers
    of 64 bits: 53 bits of precision, exponents below 1024. *)
Definition prec : Z := 53.
Definition emax : Z := 1024.

Definition float : Type := spec_float.

(** The float nearest to an integer *)
Definition of_Z (z : Z) : float := binary_normalize prec emax z 0 false.

Definition mul : float -> float -> float := SFmul prec emax.
Definition div : float -> float -> float := SFdiv prec emax.
Definition add : float -> float -> float := SFadd prec emax.
Definition ltb : float -> float -> bool := SFltb.

(** The float that Python reads from a decimal literal with the digits
    [n], of which [k] are after the point: the float nearest to
    [n / 10 ^ k].  The division gives it when [n] and [10 ^ k] are floats
    themselves, so for [n] and [10 ^ k] below [2 ^ 53]. *)
Definition of_decimal (n k : Z) : float := div (of_Z n) (of_Z (10 ^ k)).

(** [rint]: the nearest integer, and the even one of two nearest *)
Definition rint (x : float) : float :=
  match x with
  | S754_finite s m e =>
      if 0 <=? e then x
      else
        let d := 2 ^ (- e) in
        let q := Z.pos m / d in
        let r := Z.pos m mod d in
        let n := match 2 * r ?= d with
                 | Lt => q
                 | Gt => q + 1
                 | Eq => if Z.even q then q else q + 1
                 end in
        if n =? 0 then S754_zero s
        else binary_normalize prec emax (if s then - n else n) 0 s
  | _ => x
  end.

(** [np.round(x, decimals)] for [decimals > 0], as numpy computes it: the
    product with the power of ten, [rint], and the quotient by the power
    of ten. *)
Definition round (x : float) (decimals : Z) : float :=
  let f := of_Z (10 ^ decimals) in
  div (rint (mul x f)) f.

Definition is_nan (x : float) : bool :=
  match x with
  | S754_nan => true
  | _ => false
  end.

(** [np.fmin] and [np.fmax], which prefer a number to [nan] *)
Definition fmin (a b : float) : float :=
  if is_nan a then b else if is_nan b then a
  else if ltb b a then b else a.

Definition fmax (a b : float) : float :=
  if is_nan a then b else if is_nan b then a
  else if ltb a b then b else a.

(** [np.nanmin], [np.nanmax], [np.nansum] and [np.nanmean] on a column.
    A column of a record is not empty.  The sum of [add.reduce] is the
    first number plus the sum of the others, which is taken from zero on,
    one number after the other; numpy takes it so for less than eight
    other numbers and in blocks for more, which are not modelled. *)
Definition nanmin (v : list float) : float :=
  match v with
  | [] => S754_nan
  | x :: l => fold_left fmin l x
  end.

Definition nanmax (v : list float) : float :=
  match v with
  | [] => S754_nan
  | x :: l => fold_left fmax l x
  end.

Definition nansum (v : list float) : float :=
  match map (fun x => if is_nan x then S754_zero false else x) v with
  | [] => S754_zero false
  | [x] => x
  | x :: l => add x (fold_left add l (S754_zero false))
  end.

Definition nanmean (v : list float) : float :=
  div (nansum v)
      (of_Z (Z.of_nat (length (List.filter (fun x => negb (is_nan x)) v)))).

(** numpy with these floats; [str_] is the conversion of a number to a
    string.  An integer is rounded to itself. *)
Definition numpy (str_ : number float -> string) : Numpy float :=
  mkNumpy nanmin nanmax nansum nanmean
    (fun x decimals => match x with
                       | Int z => Int z
                       | Float y => Float (round y decimals)
                       end)
    str_.

End Binary64.

(** *** A pipeline, a catalog and a store *)

Module JteratorExample.
Import Py Jterator.

Definition os_path : OsPath :=
  mkOsPath (fun p => p) (fun p => p)
    (fun p => match p with String "/" _ => true | _ => false end)
    (fun a b => a +:+ "/" +:+ b)
    (fun p => existsb (String.eqb p)
                ["/exp/jterator/modules/threshold.py"; "/opt/jtlib/label.py"]).

Definition step_location : string := "/exp/jterator".

(** Three modules, the second one switched off *)
Definition project_pipeline : list PipelineModuleDescription :=
  [ mkPipelineModuleDescription "smooth.py" true;
    mkPipelineModuleDescription "modules/threshold.py" false;
    mkPipelineModuleDescription "/opt/jtlib/label.py" true ].

Definition project_handles : list (HandleDescriptions string) :=
  [ mkHandleDescriptions "smooth" "smooth.handles.yaml";
    mkHandleDescriptions "threshold" "threshold.handles.yaml";
    mkHandleDescriptions "label" "label.handles.yaml" ].

(** A catalog with one feature of the object type 7, and three calls *)
Definition catalog : Features :=
  mkFeatures [mkFeature 1 "Area" false 7] 2 2147483647.

Definition calls : list (string * Z * bool) :=
  [ ("Area_Cells_Mean", 9, true); ("Area", 7, false);
    ("Area_Cells_Mean", 9, true) ].

(** The object types of a pipeline that takes the nuclei as input and
    writes the nuclei and the cells *)
Definition mapobject_type_ids (name : string) : Z :=
  if String.eqb name "Nuclei" then 3 else 4.

Definition inputs : list PipelineObjectInputDescription :=
  [ mkPipelineObjectInputDescription "Nuclei" ].

Definition objects_output : list PipelineObjectOutputDescription :=
  [ mkPipelineObjectOutputDescription "Nuclei" true ].

(** The features of an object type, the segmentation layers of the first
    time point and plane, a channel layer with ten zoom levels, and the
    site *)
Definition feature_id_of (name : string) (mapobject_type_id_ : Z) : Z :=
  if String.eqb name "Area" then 10 * mapobject_type_id_ + 1
  else 10 * mapobject_type_id_ + 2.

Definition segmentation_layer_id_of (mapobject_type_id_ t z : Z) : Z :=
  100 * mapobject_type_id_ + 10 * t + z.

Definition maxzoom_level_index : Z := 9.

Definition aligned_offset : Z * Z := (0, 0).

(** Integers in the place of floating point numbers: rounding does nothing
    to them. *)
Definition df_round (v : Z) (decimals : Z) : Z := v.

Definition astype_str (v : Z) : string := pretty v.

(** The nuclei of the store: two objects in one plane, with their areas *)
Definition nuclei : SegmentedObjects Z :=
  mkSegmentedObjects false false [1; 2]
    [mkDataFrame ["Area"] [(1, [120]); (2, [95])]]
    [(0, 0)]
    [(0, 0, 1, false); (0, 0, 2, false)]
    [(0, 0, 1); (0, 0, 2)].

Definition store_objects : gmap string (SegmentedObjects Z) :=
  {[ "Nuclei" := nuclei ]}.

(** A store with the nuclei and the cells, which have other labels, and a
    pipeline that writes both *)
Definition cells : SegmentedObjects Z :=
  mkSegmentedObjects false false [3; 4]
    [mkDataFrame ["Area"] [(3, [310]); (4, [275])]]
    [(0, 0)]
    [(0, 0, 3, false); (0, 0, 4, false)]
    [(0, 0, 3); (0, 0, 4)].

Definition store_objects_2 : gmap string (SegmentedObjects Z) :=
  {[ "Nuclei" := nuclei; "Cells" := cells ]}.

Definition objects_output_2 : list PipelineObjectOutputDescription :=
  [ mkPipelineObjectOutputDescription "Nuclei" true;
    mkPipelineObjectOutputDescription "Cells" true ].

(** The objects of this store after the marking of these outputs *)
Definition marked_objects_2 : gmap string (SegmentedObjects Z) :=
  match mark_outputs objects_output_2 store_objects_2 with
  | inr objects => objects
  | inl _ => ∅
  end.

(** The saving of the outputs of the site 5, the sequence of the table
    [mapobjects] being at 100 *)
Definition save_pipeline_outputs inputs_ objects_output_ store_objects_
  : result (list db_call) :=
  _save_pipeline_outputs map_to_list map_to_list mapobject_type_ids
    feature_id_of segmentation_layer_id_of (Some maxzoom_level_index)
    (Some aligned_offset) df_round astype_str
    inputs_ objects_output_ store_objects_ 5 100.

End JteratorExample.

(** *** A feature value of 1.23456789 *)

Module RoundingExample.
Import Py Jterator.

Definition x : Binary64.float := Binary64.of_decimal 123456789 8.
Definition y : Binary64.float := Binary64.of_decimal 1234568 6.

(** A cell with the value as its area *)
Definition cell : SegmentedObjects Binary64.float :=
  mkSegmentedObjects true false [1]
    [mkDataFrame ["Area"] [(1, [x])]] [] [] [].

Definition store_objects : gmap string (SegmentedObjects Binary64.float) :=
  {[ "Cells" := cell ]}.

Definition save_pipeline_outputs (astype_str : Binary64.float -> string)
  : result (list db_call) :=
  _save_pipeline_outputs map_to_list map_to_list
    JteratorExample.mapobject_type_ids JteratorExample.feature_id_of
    JteratorExample.segmentation_layer_id_of
    (Some JteratorExample.maxzoom_level_index)
    (Some JteratorExample.aligned_offset) Binary64.round astype_str
    [] [] store_objects 5 100.

(** The cells of a site at one time point: one cell, with the value under
    the feature id 41 *)
Definition feature_map : gmap string string := {[ "41" := "Area" ]}.

Definition results : list (Z * list (string * list Binary64.float)) :=
  [ (0, [("41", [x])]) ].

End RoundingExample.

(** * More of the code *)

(** *** More of [tmlib/tmaps/workflow.py] *)

Module WorkflowMore0.
Import Py Workflow.

(** The exit code and the halt flag of the manager are the same. *)
Definition same_flags {Task} (a b : World Task) : Prop :=
  stopped (fst b) = stopped (fst a) /\ exitcode (fst b) = exitcode (fst a).

End WorkflowMore0.

(** *** A workflow whose second step is started with [run] *)

Module WorkflowExample2.
Import Py Workflow.

(** The parser takes the word after the directory as the name of the
    method. *)
Definition parser (argv : list string) : result Args :=
  if existsb (String.eqb "init") argv then inr (mkArgs "init" argv)
  else if existsb (String.eqb "run") argv then inr (mkArgs "run" argv)
  else if existsb (String.eqb "submit") argv then inr (mkArgs "submit" argv)
  else inl (SystemExit 2).

Definition Align (args : Args) : result (Cli string) :=
  inr (mkCli ["/exp/metadata.json"] ["/exp/shifts.json"]
         (fun name => if String.eqb name "init" || String.eqb name "run"
                      then Some (fun fs : FS =>
                                   ({["/exp/align.jobs"]} ∪ fs, None))
                      else None)
         (inr "align")).

Definition package : Package string :=
  mkPackage
    (fun module =>
       if String.eqb module "tmlib.align.argparser" then inr parser
       else inl (ImportError module))
    (fun module =>
       if String.eqb module "tmlib.align.cli" then inr Align
       else inl (ImportError module)).

Definition step : list string := ["align"; "/exp"; "run"].

Definition manager : Manager string :=
  mkManager "" 0 false ["metaconfig"] [["/exp/metadata.json"]] None.

Definition files : FS := {[ "/exp/images"; "/exp/metadata.json" ]}.

End WorkflowExample2.

(** ** More of [tmlib/workflow/jterator/api.py] *)

Module JteratorMore.
Import Py Jterator.

(** *** [_aggregate_aggregates] *)

Fixpoint contains_underscore (s : string) : bool :=
  match s with
  | EmptyString => false
  | String c s' => if Ascii.eqb c "_"%char then true else contains_underscore s'
  end.

(** [re.search(r'_([^_]+)$', feature_name)] and [.group(1)] of the match:
    the text after the last underscore, when there is an underscore and
    the text after it is not empty. *)
Fixpoint statistic_suffix (feature_name_ : string) : option string :=
  match feature_name_ with
  | EmptyString => None
  | String c s' =>
      match statistic_suffix s' with
      | Some stat_name => Some stat_name
      | None =>
          if Ascii.eqb c "_"%char && negb (String.eqb s' "")
             && negb (contains_underscore s')
          then Some s' else None
      end
  end.

(** [d[k]] for a dictionary with strings as keys, given by its items *)
Fixpoint dict_get {V} (k : string) (d : list (string * V)) : option V :=
  match d with
  | [] => None
  | (k', v) :: d' => if String.eqb k' k then Some v else dict_get k d'
  end.

Section AggregateAggregates.

Variable float : Type.
Variable np : Numpy float.

(** [np.sum] *)
Variable np_sum : list float -> float.

(** The items of the dictionary [statistics] of [_aggregate_aggregates] *)
Definition statistics_of_aggregates
  : list (string * (list float -> number float)) :=
  [ ("Count", fun v => Float (np_sum v));
    ("Max", fun v => Float (nanmax float np v));
    ("Sum", fun v => Float (nansum float np v));
    ("Mean", fun v => Float (nanmean float np v));
    ("Min", fun v => Float (nanmin float np v)) ].

(** [for feature_name, vals in data.iteritems()] *)
Fixpoint aggregate_aggregates_columns (ref_mapobject_type_id : Z)
    (data : list (string * list float)) (st : AggState) : result AggState :=
  match data with
  | [] => inr st
  | (feature_name_, vals) :: data' =>
      match statistic_suffix feature_name_ with
      | None => inl AttributeError      (* [None.group(1)] *)
      | Some stat_name =>
          match dict_get stat_name statistics_of_aggregates with
          | None => inl KeyError
          | Some func =>
              let agg_value := round float np (func vals) 6 in
              let agg_feature_name_ := feature_name_ in
              match _add_feature agg_feature_name_ ref_mapobject_type_id true
                                 (catalog st) with
              | (_, inl e) => inl e
              | (t', inr agg_id) =>
                  aggregate_aggregates_columns ref_mapobject_type_id data'
                    (mkAggState t'
                       (<[agg_id := str float np agg_value]> (agg_values st))
                       (<[agg_id := agg_feature_name_]> (agg_features st))
                       (feature_values st))
              end
          end
      end
  end.

(** [for record in records] *)
Fixpoint aggregate_aggregates_records (feature_map : gmap string string)
    (ref_mapobject_type_id ref_mapobject_id : Z)
    (records : list (Z * list (string * list float))) (st : AggState)
  : result AggState :=
  match records with
  | [] => inr st
  | (t, data) :: records' =>
      let data := rename float feature_map data in
      match aggregate_aggregates_columns ref_mapobject_type_id data st with
      | inl e => inl e
      | inr st' =>
          let row := mkFeatureValues ref_mapobject_id (agg_values st') t in
          aggregate_aggregates_records feature_map ref_mapobject_type_id
            ref_mapobject_id records'
            (mkAggState (catalog st') (agg_values st') (agg_features st')
                        (feature_values st' ++ [row]))
      end
  end.

(** [records] is what the query returns, as for [_aggregate];
    [mapobject_type_name] is not used by the code. *)
Definition _aggregate_aggregates (feature_map : gmap string string)
    (mapobject_type_name : string)
    (ref_mapobject_type_id ref_mapobject_id : Z)
    (records : list (Z * list (string * list float)))
    (features : Features) (values : list FeatureValues)
  : result (Features * list FeatureValues * gmap Z string) :=
  match aggregate_aggregates_records feature_map ref_mapobject_type_id
          ref_mapobject_id records (mkAggState features ∅ ∅ values) with
  | inl e => inl e
  | inr st => inr (catalog st, feature_values st, agg_features st)
  end.

(** The name of every column of every record, after the renaming, ends in
    an underscore and the name of a statistic. *)
Definition columns_name_statistics (feature_map : gmap string string)
    (records : list (Z * list (string * list float))) : Prop :=
  forall t data n vals,
    In (t, data) records -> In (n, vals) (rename float feature_map data) ->
    exists stat_name func,
      statistic_suffix n = Some stat_name /\
      In (stat_name, func) statistics_of_aggregates.

End AggregateAggregates.

Arguments statistics_of_aggregates {float} _ _.
Arguments _aggregate_aggregates {float} _ _ _ _ _ _ _ _ _.
Arguments columns_name_statistics {float} _ _ _ _.

(** The dictionary [agg_features] agrees with the catalog: the feature
    that it names under an id is the one that the catalog has under this
    name, for the object type of the reference. *)
Definition agg_consistent (ref_mapobject_type_id : Z) (st : AggState) : Prop :=
  forall i n, agg_features st !! i = Some n ->
              select_id n ref_mapobject_type_id (catalog st) = Some i.

(** What the loops of [_aggregate] and [_aggregate_aggregates] do to their
    state: rows are added to the catalog, all of them aggregates of the
    object type of the reference; no key of [agg_values] is removed; the
    rows of [feature_values] stay; the constraint, the primary key and the
    agreement of [agg_features] with the catalog are kept. *)
Definition agg_extends (ref_mapobject_type_id : Z) (st st' : AggState)
  : Prop :=
  (exists new,
     rows (catalog st') = rows (catalog st) ++ new /\
     Forall (fun f => is_aggregate f = true /\
                      mapobject_type_id f = ref_mapobject_type_id) new) /\
  dom (agg_values st) ⊆ dom (agg_values st') /\
  (features_name_mapobject_type_id_key (catalog st) ->
   features_name_mapobject_type_id_key (catalog st')) /\
  (features_pkey (catalog st) -> features_pkey (catalog st')) /\
  (agg_consistent ref_mapobject_type_id st ->
   agg_consistent ref_mapobject_type_id st').

(** The keys of the rows of [feature_values] grow along the rows, from
    the keys [d] on. *)
Fixpoint dom_chain (d : gset Z) (l : list FeatureValues) : Prop :=
  match l with
  | [] => True
  | r :: l' => d ⊆ dom (fv_values r) /\ dom_chain (dom (fv_values r)) l'
  end.

(** The number of the columns of the records.  [_aggregate_aggregates]
    calls [_add_feature] once for each of them, [_aggregate] once for each
    of them and each of its five statistics. *)
Definition columns_count {float}
    (records : list (Z * list (string * list float))) : nat :=
  length (concat (map snd records)).

End JteratorMore.

(** ** [create_debug_run_jobs] *)

Module DebugJobs.
Import Py.

(** An element of a command: a string, or the id of the experiment, which
    [_build_debug_run_command] appends as it is. *)
Inductive argument : Type :=
| Word (s : string)
| Number (z : Z).

(** The value of the parameter [cores]: an integer, which Python 2 has as
    an [int] up to [sys.maxint] and as a [long] beyond; a [long] that is
    written as one, like [4L]; a truth value; or something else. *)
Inductive value : Type :=
| IntValue (z : Z)
| LongValue (z : Z)
| BoolValue (b : bool)
| StrValue (s : string)
| NoneValue.

Section DebugJobs.

(** [step_name], [experiment_id] and [log_location] of the step *)
Variable step_name : string.
Variable experiment_id : Z.
Variable log_location : string.

(** [gc3libs.quantity.Duration] and [Memory(memory, Memory.MB)] *)
Variable Walltime : Type.
Variable Mem : Type.
Variable Duration : string -> result Walltime.
Variable Memory : Z -> result Mem.

(** [sys.maxint] *)
Variable maxint : Z.

(** [isinstance(cores, int)]: an [int], or a truth value, [bool] being a
    subclass of [int] *)
Definition isinstance_int (v : value) : bool :=
  match v with
  | IntValue z => (- maxint - 1 <=? z) && (z <=? maxint)
  | BoolValue _ => true
  | _ => false
  end.

(** [cores > 0] for an instance of [int]; [True] is 1 and [False] is 0. *)
Definition greater_than_zero (v : value) : bool :=
  match v with
  | IntValue z => 0 <? z
  | BoolValue b => b
  | _ => false
  end.

(** [range(verbosity)] is empty for a negative [verbosity]. *)
Definition _build_debug_run_command (site_id verbosity : Z) : list argument :=
  let command := [Word step_name] in
  let command := command ++ repeat (Word "-v") (Z.to_nat verbosity) in
  let command := command ++ [Number experiment_id] in
  command ++ [Word "debug"; Word "--site"; Word (pretty site_id);
              Word "--plot"].

(** A job, by the arguments that [DebugRunJob] is made with and the
    resources that are requested for it *)
Record DebugRunJob : Type := mkDebugRunJob {
  arguments : list argument;
  output_dir : string;
  job_id : Z;
  submission_id : Z;
  parent_id : Z;
  user_name : string;
  requested_walltime : Walltime;
  requested_memory : Mem;
  requested_cores : value
}.

(** The collection of the jobs of the run phase *)
Record RunPhase : Type := mkRunPhase {
  phase_submission_id : Z;
  persistent_id : Z;
  phase_jobs : list DebugRunJob
}.

Definition add (job : DebugRunJob) (c : RunPhase) : RunPhase :=
  mkRunPhase (phase_submission_id c) (persistent_id c) (phase_jobs c ++ [job]).

(** The body of the loop, for the batch [b]: the collection after it, and
    the exception if one is raised *)
Definition create_debug_run_job (user : string) (verbosity : Z)
    (duration : string) (memory : Z) (cores : value)
    (b : gmap string Z) (job_collection : RunPhase)
  : RunPhase * option exception :=
  match b !! "site_id" with
  | None => (job_collection, Some KeyError)
  | Some site_id =>
      match Duration duration with
      | inl e => (job_collection, Some e)
      | inr walltime =>
          match Memory memory with
          | inl e => (job_collection, Some e)
          | inr mem =>
              if negb (isinstance_int cores) then
                (job_collection, Some TypeError)
              else if negb (greater_than_zero cores) then
                (job_collection, Some ValueError)
              else
                (add (mkDebugRunJob
                        (_build_debug_run_command site_id verbosity)
                        log_location site_id
                        (phase_submission_id job_collection)
                        (persistent_id job_collection)
                        user walltime mem cores)
                     job_collection,
                 None)
          end
      end
  end.

(** [for b in batches]; the collection is changed in place, so the jobs
    added before an exception stay in it. *)
Fixpoint create_debug_run_jobs (user : string) (job_collection : RunPhase)
    (batches : list (gmap string Z)) (verbosity : Z) (duration : string)
    (memory : Z) (cores : value) : RunPhase * option exception :=
  match batches with
  | [] => (job_collection, None)
  | b :: batches' =>
      match create_debug_run_job user verbosity duration memory cores b
                                 job_collection with
      | (c, Some e) => (c, Some e)
      | (c, None) =>
          create_debug_run_jobs user c batches' verbosity duration memory
                                cores
      end
  end.

End DebugJobs.

Arguments mkDebugRunJob {Walltime Mem} _ _ _ _ _ _ _ _ _.
Arguments job_id {Walltime Mem} _.
Arguments arguments {Walltime Mem} _.
Arguments mkRunPhase {Walltime Mem} _ _ _.
Arguments phase_jobs {Walltime Mem} _.
Arguments phase_submission_id {Walltime Mem} _.
Arguments persistent_id {Walltime Mem} _.
Arguments RunPhase : clear implicits.
Arguments create_debug_run_jobs _ _ _ {Walltime Mem} _ _ _ _ _ _ _ _ _ _.

End DebugJobs.

(** *** Two sites to debug *)

Module DebugJobsExample.
Import Py DebugJobs.

(** Durations as seconds and memory as megabytes; the duration is not
    parsed here. *)
Definition Duration (d : string) : result Z :=
  if String.eqb d "" then inl ValueError else inr 900.

Definition Memory (m : Z) : result Z := inr m.

Definition job_collection : RunPhase Z Z :=
  mkRunPhase 12 34 [].

Definition batches : list (gmap string Z) :=
  [ {[ "site_id" := 5 ]}; {[ "site_id" := 6 ]} ].

(** [sys.maxint] of a Python of 64 bits *)
Definition maxint : Z := 2 ^ 63 - 1.

End DebugJobsExample.

(** ** [tmlib/jterator/path_utils.py] *)

Module PathUtils.
Import Py.

(** *** [posixpath] *)

Definition slash : ascii := "/"%char.
Definition dot : ascii := "."%char.

(** [s.startswith(c)] and [s.endswith(c)] for a character [c] *)
Definition startswith (s : string) (c : ascii) : bool :=
  match s with
  | String x _ => Ascii.eqb x c
  | EmptyString => false
  end.

Fixpoint endswith (s : string) (c : ascii) : bool :=
  match s with
  | EmptyString => false
  | String x EmptyString => Ascii.eqb x c
  | String _ s' => endswith s' c
  end.

(** [os.path.join(a, b)] *)
Definition join (a b : string) : string :=
  if startswith b slash then b
  else if String.eqb a "" || endswith a slash then a +:+ b
  else a +:+ "/" +:+ b.

(** [s.split('/')] *)
Fixpoint split_slash (s : string) : list string :=
  match s with
  | EmptyString => [""]
  | String c s' =>
      if Ascii.eqb c slash then "" :: split_slash s'
      else match split_slash s' with
           | h :: t => String c h :: t
           | [] => [String c ""]
           end
  end.

(** ['/'.join(comps)] *)
Fixpoint join_slash (comps : list string) : string :=
  match comps with
  | [] => ""
  | [c] => c
  | c :: comps' => c +:+ "/" +:+ join_slash comps'
  end.

(** The loop of [normpath] over the components; [new_comps] is kept in
    reverse, its last element first. *)
Fixpoint normpath_loop (initial_slashes : nat) (comps : list string)
    (new_comps : list string) : list string :=
  match comps with
  | [] => new_comps
  | comp :: comps' =>
      if String.eqb comp "" || String.eqb comp "." then
        normpath_loop initial_slashes comps' new_comps
      else if negb (String.eqb comp "..")
              || (Nat.eqb initial_slashes 0
                  && match new_comps with [] => true | _ => false end)
              || match new_comps with
                 | last :: _ => String.eqb last ".."
                 | [] => false
                 end
      then normpath_loop initial_slashes comps' (comp :: new_comps)
      else match new_comps with
           | _ :: popped => normpath_loop initial_slashes comps' popped
           | [] => normpath_loop initial_slashes comps' new_comps
           end
  end.

(** [os.path.normpath(path)] *)
Definition normpath (path : string) : string :=
  if String.eqb path "" then "."
  else
    let initial_slashes :=
      match path with
      | String "/" (String "/" (String "/" _)) => 1%nat
      | String "/" (String "/" _) => 2%nat
      | String "/" _ => 1%nat
      | _ => 0%nat
      end in
    let comps := rev (normpath_loop initial_slashes (split_slash path) []) in
    let path := join_slash comps in
    let path :=
      match initial_slashes with
      | O => path
      | S O => "/" +:+ path
      | _ => "//" +:+ path
      end in
    if String.eqb path "" then "." else path.

(** [os.path.abspath(path)], with the working directory [cwd] *)
Definition abspath (cwd path : string) : string :=
  normpath (if startswith path slash then path else join cwd path).

(** [os.path.basename(p)] *)
Definition basename (p : string) : string := List.last (split_slash p) "".

Fixpoint strip_leading_dots (s : string) : string :=
  match s with
  | String c s' => if Ascii.eqb c dot then strip_leading_dots s' else s
  | EmptyString => s
  end.

(** The text from the last dot on *)
Fixpoint last_dot_suffix (s : string) : option string :=
  match s with
  | EmptyString => None
  | String c s' =>
      match last_dot_suffix s' with
      | Some r => Some r
      | None => if Ascii.eqb c dot then Some s else None
      end
  end.

(** [os.path.splitext(p)[1]] for a name [p] without slashes: the text from
    the last dot on, when something other than dots is before this dot. *)
Definition splitext_ext (p : string) : string :=
  match last_dot_suffix (strip_leading_dots p) with
  | Some ext => ext
  | None => ""
  end.

(** *** The functions of the module *)

Definition determine_language (cwd filename : string) : result string :=
  let filename := abspath cwd filename in
  let suffix := splitext_ext (basename filename) in
  if String.eqb suffix ".m" then inr "Matlab"
  else if String.eqb suffix ".R" || String.eqb suffix ".r" then inr "R"
  else if String.eqb suffix ".py" then inr "Python"
  else if String.eqb suffix ".jl" then inr "Julia"
  else inl (OtherException
              "Language could not be determined from filename.").

(** The dictionary that [get_module_directories] returns, by its items *)
Definition get_module_directories (repo_dir : string)
  : list (string * string) :=
  [ ("Python", join repo_dir "python/jtlib/modules");
    ("Matlab", join repo_dir "matlab/+jtlib/+modules");
    ("R", join repo_dir "r/jtlib/modules") ].

Fixpoint getitem_str (d : list (string * string)) (k : string)
  : result string :=
  match d with
  | [] => inl KeyError
  | (k', v) :: d' => if String.eqb k' k then inr v else getitem_str d' k
  end.

Definition get_module_path (cwd module_file repo_dir : string)
  : result string :=
  match determine_language cwd module_file with
  | inl e => inl e
  | inr language =>
      match getitem_str (get_module_directories repo_dir) language with
      | inl e => inl e
      | inr modules_dir => inr (join modules_dir module_file)
      end
  end.

(** The name has no slash. *)
Fixpoint no_slash (s : string) : bool :=
  match s with
  | EmptyString => true
  | String c s' => negb (Ascii.eqb c slash) && no_slash s'
  end.

(** The name has a character other than the dot. *)
Fixpoint has_non_dot (s : string) : bool :=
  match s with
  | EmptyString => false
  | String c s' => negb (Ascii.eqb c dot) || has_non_dot s'
  end.

End PathUtils.

(** ** [tmlib/cycle.py] *)

Module Cycle.
Import Py.

(** The metadata of an image: the name of its file, its channel and its
    cycle *)
Record ChannelImageMetadata : Type := mkChannelImageMetadata {
  md_name : string;
  channel : string;
  cycle : string
}.

(** An image, as [ChannelImage.create_from_file] is given it: the path of
    the file and the metadata *)
Record ChannelImage : Type := mkChannelImage {
  filename : string;
  metadata : ChannelImageMetadata
}.

(** The metadata of a layer, as [MosaicMetadata.create_from_images] is
    given it: the images of the layer and its name *)
Record MosaicMetadata : Type := mkMosaicMetadata {
  layer_images : list ChannelImage;
  layer_name : string
}.

(** [l.index(x)]: the position of the first element whose name is [f] *)
Fixpoint names_index (f : string) (names : list string) : option nat :=
  match names with
  | [] => None
  | n :: names' => if String.eqb n f then Some 0%nat
                   else option_map S (names_index f names')
  end.

Section Cycle.

(** [natsort.natsorted] *)
Variable natsorted : list string -> list string.

(** [self.cfg.LAYER_NAME.format(cycle=..., channel=...)] *)
Variable LAYER_NAME : string -> string -> string.

(** [self.image_dir] *)
Variable image_dir : string.

(** The loop of [image_metadata] over the sorted names *)
Fixpoint image_metadata_loop (metadata_ : list ChannelImageMetadata)
    (names sorted : list string) : result (list ChannelImageMetadata) :=
  match sorted with
  | [] => inr []
  | f :: sorted' =>
      match names_index f names with
      | None => inl ValueError
      | Some i =>
          match nth_error metadata_ i with
          | None => inl IndexError
          | Some md =>
              match image_metadata_loop metadata_ names sorted' with
              | inl e => inl e
              | inr l => inr (md :: l)
              end
          end
      end
  end.

(** [metadata_] is what the reader reads from the metadata file. *)
Definition image_metadata (metadata_ : list ChannelImageMetadata)
  : result (list ChannelImageMetadata) :=
  let names := map md_name metadata_ in
  image_metadata_loop metadata_ names (natsorted names).

(** [images], from the value of [image_metadata] *)
Definition images (image_metadata_ : list ChannelImageMetadata)
  : list ChannelImage :=
  map (fun md => mkChannelImage (PathUtils.join image_dir (md_name md)) md)
      image_metadata_.

(** [layer_names]; [user_layer_names] is [user_cfg.LAYER_NAMES], if the
    user configuration has this attribute.  In the dictionary that is made
    otherwise, a later image of a channel replaces the name of an
    earlier. *)
Definition layer_names (user_layer_names : option (gmap string string))
    (image_metadata_ : list ChannelImageMetadata) : gmap string string :=
  match user_layer_names with
  | Some names => names
  | None =>
      fold_left
        (fun d img =>
           <[channel (metadata img) :=
               LAYER_NAME (cycle (metadata img)) (channel (metadata img))]> d)
        (images image_metadata_) ∅
  end.

(** [for c in channels] *)
Fixpoint layer_metadata_loop (user_layer_names : option (gmap string string))
    (image_metadata_ : list ChannelImageMetadata) (channels : list string)
  : result (list MosaicMetadata) :=
  match channels with
  | [] => inr []
  | c :: channels' =>
      match layer_names user_layer_names image_metadata_ !! c with
      | None => inl KeyError
      | Some layer_name_ =>
          let images_ :=
            List.filter (fun img => String.eqb (channel (metadata img)) c)
                        (images image_metadata_) in
          match layer_metadata_loop user_layer_names image_metadata_
                                    channels' with
          | inl e => inl e
          | inr l => inr (mkMosaicMetadata images_ layer_name_ :: l)
          end
      end
  end.

(** [channels = list(set([md.channel for md in self.image_metadata]))]: the
    channels without repetition, in the order in which the set gives
    them. *)
Definition layer_metadata (user_layer_names : option (gmap string string))
    (image_metadata_ : list ChannelImageMetadata)
  : result (list MosaicMetadata) :=
  let channels :=
    elements (list_to_set (map channel image_metadata_) : gset string) in
  layer_metadata_loop user_layer_names image_metadata_ channels.

End Cycle.

(** *** [illumstats_files] of the later version of the module *)

Definition is_digit (c : ascii) : bool :=
  match Ascii.is_nat c with Some _ => true | None => false end.

(** [int(c)] for a digit *)
Definition digit_value (c : ascii) : Z :=
  match Ascii.is_nat c with Some n => Z.of_nat n | None => 0 end.

(** The dot of a regular expression matches every character but the end of
    a line. *)
Definition any_char (c : ascii) : bool := negb (Ascii.eqb c "010"%char).

(** The regular expression [channel_([0-9]).stat.h5], matched at the start
    of [s]: the digit, if it matches *)
Definition match_stats_pattern (s : string) : option ascii :=
  match s with
  | String "c" (String "h" (String "a" (String "n" (String "n" (String "e"
      (String "l" (String "_" (String d (String x (String "s" (String "t"
        (String "a" (String "t" (String y (String "h" (String "5" _))))))))))))))))
    => if is_digit d && any_char x && any_char y then Some d else None
  | _ => None
  end.

(** [regexp.search(f)] and [.group(1)] of the match *)
Fixpoint search_stats_pattern (s : string) : option ascii :=
  match match_stats_pattern s with
  | Some d => Some d
  | None =>
      match s with
      | EmptyString => None
      | String _ s' => search_stats_pattern s'
      end
  end.

(** The quotation mark of the message of the exception *)
Definition double_quote : string := String "034"%char EmptyString.

(** The dictionary of the files, filled in the order of [os.listdir] *)
Definition stats_files_of (listdir : list string) : gmap Z string :=
  fold_left
    (fun files f =>
       match search_stats_pattern f with
       | Some d => <[digit_value d := f]> files
       | None => files
       end)
    listdir ∅.

(** [listdir] is [os.listdir(self.stats_dir)]; the exception is an
    [OSError]. *)
Definition illumstats_files (stats_dir : string) (listdir : list string)
  : result (gmap Z string) :=
  let files := stats_files_of listdir in
  if decide (files = ∅) then
    inl (OtherException
           ("No illumination statistic files found in " +:+ double_quote
              +:+ stats_dir +:+ double_quote))
  else inr files.

(** [STATS_FILE_FORMAT.format(channel_ix=...)] for an integer, which is
    written in decimal digits *)
Definition stats_file_name (channel_ix : Z) : string :=
  "channel_" +:+ pretty channel_ix +:+ ".stat.h5".

(** The strings of decimal digits *)
Fixpoint all_digits (s : string) : bool :=
  match s with
  | EmptyString => true
  | String c s' => is_digit c && all_digits s'
  end.

(** The strings in which the letter [c] occurs *)
Fixpoint has_c (s : string) : bool :=
  match s with
  | EmptyString => false
  | String a s' => Ascii.eqb a "c" || has_c s'
  end.

End Cycle.

(** *** A cycle with three images of two channels *)

Module CycleExample.
Import Py Cycle.

(** The order of the names, in the place of the natural order *)
Definition name_le (a b : string) : Prop := String.leb a b = true.

#[global] Instance name_le_dec (a b : string) : Decision (name_le a b) :=
  decide (String.leb a b = true).

Definition natsorted (names : list string) : list string :=
  merge_sort name_le names.

Definition LAYER_NAME (cycle_ channel_ : string) : string :=
  "cycle_" +:+ cycle_ +:+ "_" +:+ channel_.

Definition image_dir : string := "/exp/cycle_1/images".

(** What the reader reads from the metadata file *)
Definition metadata_ : list ChannelImageMetadata :=
  [ mkChannelImageMetadata "b_dapi.png" "dapi" "1";
    mkChannelImageMetadata "a_gfp.png" "gfp" "1";
    mkChannelImageMetadata "a_dapi.png" "dapi" "1" ].

Definition image_metadata_ : list ChannelImageMetadata :=
  [ mkChannelImageMetadata "a_dapi.png" "dapi" "1";
    mkChannelImageMetadata "a_gfp.png" "gfp" "1";
    mkChannelImageMetadata "b_dapi.png" "dapi" "1" ].

Definition layers : list MosaicMetadata :=
  match layer_metadata LAYER_NAME image_dir None image_metadata_ with
  | inr l => l
  | inl _ => []
  end.

(** The files of a directory of statistics *)
Definition listdir : list string :=
  [ "channel_0.stat.h5"; "readme.txt"; "channel_10.stat.h5";
    "old_channel_1_stat_h5.bak" ].

Definition stats_files : gmap Z string := stats_files_of listdir.

End CycleExample.

(** *** Numbers for the examples *)

Module JteratorExample2.
Import Py Jterator JteratorMore.

(** Integers in the place of floating point numbers, with the minimum, the
    maximum, the sum and the floored mean; rounding does nothing to them. *)
Definition np : Numpy Z :=
  mkNumpy (fun v => match v with [] => 0 | x :: l => fold_right Z.min x l end)
          (fun v => match v with [] => 0 | x :: l => fold_right Z.max x l end)
          (fun v => fold_right Z.add 0 v)
          (fun v => fold_right Z.add 0 v / Z.of_nat (length v))
          (fun x _ => x)
          (fun x => match x with Int z => pretty z | Float z => pretty z end).

Definition np_sum (v : list Z) : Z := fold_right Z.add 0 v.

(** The cells of a site at two time points, with their areas under the
    feature id 1 *)
Definition feature_map : gmap string string := {[ "1" := "Area" ]}.

Definition results : list (Z * list (string * list Z)) :=
  [ (0, [("1", [10; 30])]); (1, [("1", [20; 40; 60])]) ].

(** The aggregates of the sites of a well, under the names that
    [_aggregate] gives them *)
Definition site_feature_map : gmap string string :=
  {[ "5" := "Area_Cells_Min"; "1" := "Area_Cells_Count" ]}.

Definition site_records : list (Z * list (string * list Z)) :=
  [ (0, [("5", [10; 20]); ("1", [2; 3])]) ].

(** What [_aggregate] and [_aggregate_aggregates] return for them, from
    an empty catalog *)
Definition aggregated : Features * list FeatureValues * gmap Z string :=
  match _aggregate np feature_map "Cells" 7 70 results
          (mkFeatures [] 1 2147483647) [] with
  | inr r => r
  | inl _ => (mkFeatures [] 1 2147483647, [], ∅)
  end.

Definition aggregated_aggregates
  : Features * list FeatureValues * gmap Z string :=
  match _aggregate_aggregates np np_sum site_feature_map "Site" 8 80
          site_records (mkFeatures [] 1 2147483647) [] with
  | inr r => r
  | inl _ => (mkFeatures [] 1 2147483647, [], ∅)
  end.

End JteratorExample2.

(** * Properties *)

(** ** The workflow manager *)

Module WorkflowProps.
Import Py Workflow WorkflowMore0.

(** *** Effects of the monadic operations, for a preorder on worlds *)

Section Respects.

Variable Task : Type.
Variable R : World Task -> World Task -> Prop.
Hypothesis R_refl : forall w, R w w.
Hypothesis R_trans : forall w1 w2 w3, R w1 w2 -> R w2 w3 -> R w1 w3.

Lemma respects_ret {A} (a : A) : respects R (ret a).
Proof. intros w w' r H. inversion H. apply R_refl. Qed.

Lemma respects_raise {A} e : respects R (A:=A) (raise e).
Proof. intros w w' r H. inversion H. apply R_refl. Qed.

Lemma respects_lift {A} (x : result A) : respects R (lift x).
Proof. intros w w' r H. inversion H. apply R_refl. Qed.

Lemma respects_get_fs : respects R get_fs.
Proof. intros w w' r H. inversion H. apply R_refl. Qed.

Lemma respects_get_manager : respects R get_manager.
Proof. intros w w' r H. inversion H. apply R_refl. Qed.

Lemma respects_bind {A B} (c : M Task A) (k : A -> M Task B) :
  respects R c -> (forall a, respects R (k a)) -> respects R (bind c k).
Proof.
  intros Hc Hk w w' r. unfold bind.
  destruct (c w) as [w1 [e | a]] eqn:E; intros H.
  - inversion H; subst. eapply Hc; eauto.
  - eapply R_trans; [eapply Hc | eapply Hk]; eauto.
Qed.

Lemma respects_on_error_bind {A B} (c : M Task A) (k : A -> M Task B) :
  respects R c -> (forall a, respects_on_error R (k a)) ->
  respects_on_error R (bind c k).
Proof.
  intros Hc Hk w w' e. unfold bind.
  destruct (c w) as [w1 [e1 | a]] eqn:E; intros H.
  - inversion H; subst. eapply Hc; eauto.
  - eapply R_trans; [eapply Hc | eapply Hk]; eauto.
Qed.

(** A method of a step only touches the files. *)
Lemma respects_call_method (c : Cli Task) name :
  (forall m fs fs', R (m, fs) (m, fs')) -> respects R (call_method c name).
Proof.
  intros Hfs [m fs] w' r. unfold call_method. simpl.
  destruct (getattr c name) as [f |]; [destruct (f fs) as [fs' [e |]] |];
    intros H; inversion H; auto.
Qed.

End Respects.

Section Manager.

Variable Task : Type.
Variable package : Package Task.
Variable workflow_description : list (list string).
Variable super_next : list Task -> Z -> RunState.

Lemma frame_refl (w : World Task) : frame w w.
Proof. split; reflexivity. Qed.

Lemma frame_trans (w1 w2 w3 : World Task) :
  frame w1 w2 -> frame w2 w3 -> frame w1 w3.
Proof. unfold frame. intros [? ?] [? ?]. split; congruence. Qed.

Lemma frame_files (m : Manager Task) (fs fs' : FS) : frame (m, fs) (m, fs').
Proof. split; reflexivity. Qed.

Lemma registers_refl (w : World Task) : registers w w.
Proof. exists []. rewrite app_nil_r. reflexivity. Qed.

Lemma registers_trans (w1 w2 w3 : World Task) :
  registers w1 w2 -> registers w2 w3 -> registers w1 w3.
Proof.
  intros [l1 H1] [l2 H2]. exists (l1 ++ l2).
  rewrite H2, H1, app_assoc. reflexivity.
Qed.

Lemma registers_files (m : Manager Task) (fs fs' : FS) :
  registers (m, fs) (m, fs').
Proof. exists []. simpl. rewrite app_nil_r. reflexivity. Qed.

Lemma registers_nonempty (w w' : World Task) :
  registers w w' -> expected_outputs (fst w) <> [] ->
  expected_outputs (fst w') <> [].
Proof.
  intros [l H] Hne. rewrite H. destruct (expected_outputs (fst w));
    [congruence | discriminate].
Qed.

Lemma frame_register o :
  respects frame (Task:=Task) (modify_manager (append_expected_outputs o)).
Proof. intros [m fs] w' r H. inversion H. split; reflexivity. Qed.

Lemma registers_register o :
  respects registers (Task:=Task)
    (modify_manager (append_expected_outputs o)).
Proof. intros [m fs] w' r H. inversion H. exists [o]. reflexivity. Qed.

Lemma registers_append_task (t : Task) :
  respects registers (modify_manager (append_task t)).
Proof.
  intros [m fs] w' r H. inversion H. exists []. simpl.
  rewrite app_nil_r. reflexivity.
Qed.

Ltac preorder :=
  first [ exact frame_refl | exact frame_trans | exact frame_files
        | exact registers_refl | exact registers_trans
        | exact registers_files ].

Ltac respects_leaf :=
  first [ apply respects_ret | apply respects_raise | apply respects_lift
        | apply respects_get_fs | apply respects_get_manager
        | apply respects_call_method | apply frame_register
        | apply registers_register | apply registers_append_task ];
  try preorder.

Ltac respects_step :=
  first [ apply respects_bind; [ preorder | | intros ? ]
        | match goal with
          | |- respects _ (if ?b then _ else _) => destruct b
          end
        | solve [ respects_leaf ] ].

(** Preparing the jobs of a step adds no task and does not halt or resume
    the manager. *)
Lemma create_jobs_frame (step : list string) :
  respects frame (_create_jobs_for_step package step).
Proof. unfold _create_jobs_for_step. repeat respects_step. Qed.

(** [_add_step] adds a task only when it returns. *)
Lemma add_step_error_frame index :
  respects_on_error frame (_add_step package workflow_description index).
Proof.
  unfold _add_step.
  repeat (apply respects_on_error_bind;
          [ preorder | repeat respects_step | intros ? ]).
  intros w w' e H. inversion H.
Qed.

(** The preparation of a step forgets no expected outputs. *)
Lemma create_jobs_registers (step : list string) :
  respects registers (_create_jobs_for_step package step).
Proof. unfold _create_jobs_for_step. repeat respects_step. Qed.

Lemma add_step_registers index :
  respects registers (_add_step package workflow_description index).
Proof.
  unfold _add_step. repeat respects_step.
Qed.

Lemma registered_bind_later {A B} (c : M Task A) (k : A -> M Task B) :
  (forall a, registered (k a)) -> registered (bind c k).
Proof.
  intros Hk w w' b. unfold bind.
  destruct (c w) as [w1 [e | a]]; intros H; [discriminate |].
  eapply Hk; eauto.
Qed.

Lemma registered_bind_now {A B} (c : M Task A) (k : A -> M Task B) :
  registered c -> (forall a, respects registers (k a)) -> registered (bind c k).
Proof.
  intros Hc Hk w w' b. unfold bind.
  destruct (c w) as [w1 [e | a]] eqn:E; intros H; [discriminate |].
  eapply registers_nonempty; [eapply Hk | eapply Hc]; eauto.
Qed.

(** When the preparation of a step returns, the expected outputs of the
    step are registered. *)
Lemma create_jobs_registered (step : list string) :
  registered (_create_jobs_for_step package step).
Proof.
  unfold _create_jobs_for_step.
  do 8 (apply registered_bind_later; intros ?).
  apply registered_bind_now.
  - intros [m fs] w1 u H. inversion H. simpl.
    destruct (expected_outputs m); discriminate.
  - intros ?. repeat respects_step.
Qed.

Lemma add_step_registered index :
  registered (_add_step package workflow_description index).
Proof.
  unfold _add_step.
  do 4 (apply registered_bind_later; intros ?).
  apply registered_bind_now; [apply create_jobs_registered |].
  intros t. apply registers_append_task.
Qed.

(** A manager that was constructed has expected outputs registered, and
    [next] keeps it so. *)
Lemma init_registered virtualenv verbosity fs (w : World Task) :
  __init__ package workflow_description virtualenv verbosity fs = (w, inr tt) ->
  expected_outputs (fst w) <> [].
Proof. unfold __init__. apply add_step_registered. Qed.

Lemma next_registered (done : Z) (w : World Task) :
  expected_outputs (fst w) <> [] ->
  expected_outputs
    (fst (fst (next package workflow_description super_next done w))) <> [].
Proof.
  intros Hne. unfold next.
  destruct (done + 1 <? Z.of_nat (length workflow_description)).
  - destruct (_add_step package workflow_description (done + 1) w)
      as [w' [e | u]] eqn:E;
      apply add_step_registers in E;
      pose proof (registers_nonempty _ _ E Hne) as Hne'; simpl.
    + destruct (is_Exception e); [| exact Hne'].
      destruct (stopped (fst w')); simpl; exact Hne'.
    + destruct (super_next (tasks (fst w')) done); simpl; auto.
      destruct (stopped (fst w')); simpl; exact Hne'.
  - destruct (super_next (tasks (fst w)) done); simpl; auto.
    destruct (stopped (fst w)); simpl; exact Hne.
Qed.

Lemma all_exists_false (fs : FS) (l : list string) (p : string) :
  In p l -> p ∉ fs -> all (map (os_path_exists fs) l) = false.
Proof.
  intros Hin Hp. unfold all. induction l as [| q l IH]; simpl in *.
  - contradiction.
  - destruct Hin as [-> | Hin].
    + unfold os_path_exists at 1. rewrite bool_decide_eq_false_2 by exact Hp.
      reflexivity.
    + rewrite IH by exact Hin. apply andb_false_r.
Qed.

Lemma getitem_last {A} (l : list A) :
  l <> [] -> exists x, getitem l (-1) = inr x.
Proof.
  intros Hl. unfold getitem. simpl.
  destruct l as [| a l]; [congruence |].
  set (n := Z.of_nat (length (a :: l))).
  assert (Hn : 1 <= n) by (unfold n; simpl length; lia).
  destruct ((n + -1 <? 0) || (n <=? n + -1)) eqn:E.
  - apply orb_true_iff in E. destruct E as [E | E]; lia.
  - destruct (nth_error (a :: l) (Z.to_nat (n + -1))) eqn:N; eauto.
    apply nth_error_None in N. unfold n in *. simpl length in *. lia.
Qed.

(** With a required input missing, the preparation of the jobs raises the
    next-step error and leaves the manager and the files as they are. *)
Lemma create_jobs_required_missing step (c : Cli Task) p (w : World Task) :
  init_instance package step = inr c ->
  In p (required_inputs c) -> p ∉ snd w ->
  _create_jobs_for_step package step w =
    (w, inl (WorkflowNextStepError "required inputs do not exist")).
Proof.
  intros Hc Hin Hp. unfold init_instance in Hc.
  unfold _create_jobs_for_step, bind, lift, get_fs. simpl.
  destruct (getitem step 0) as [e | prog_name]; [discriminate |].
  destruct (import_argparser package ("tmlib." +:+ prog_name +:+ ".argparser"))
    as [e | parser]; [discriminate |].
  destruct (import_cli package ("tmlib." +:+ prog_name +:+ ".cli"))
    as [e | cli_module]; [discriminate |].
  destruct (parser (drop 1 step)) as [e | args]; [discriminate |].
  rewrite Hc. rewrite (all_exists_false _ _ p Hin Hp). reflexivity.
Qed.

(** The exit code and the halt flag are not touched by [_add_step]. *)
Lemma add_step_same_flags index :
  respects (same_flags (Task:=Task))
           (_add_step package workflow_description index).
Proof.
  assert (Htrans : forall w1 w2 w3 : World Task,
             same_flags w1 w2 -> same_flags w2 w3 -> same_flags w1 w3)
    by (unfold same_flags; intros ? ? ? [? ?] [? ?]; split; congruence).
  assert (Hrefl : forall w : World Task, same_flags w w)
    by (split; reflexivity).
  unfold _add_step, _create_jobs_for_step.
  repeat (first
    [ apply respects_bind; [exact Htrans | | intros ?]
    | match goal with
      | |- respects _ (if ?b then _ else _) => destruct b
      end
    | apply respects_ret; exact Hrefl
    | apply respects_raise; exact Hrefl
    | apply respects_lift; exact Hrefl
    | apply respects_get_fs; exact Hrefl
    | apply respects_get_manager; exact Hrefl
    | apply respects_call_method; intros; split; reflexivity
    | intros [? ?] ? ? H; inversion H; split; reflexivity ]).
Qed.

(** C2.  Let step [done + 1] be a step of the workflow, and let the manager
    have registered expected outputs (its constructor registers those of
    step 0).  If a required input that the step declares does not exist,
    or an expected output of the step prepared last does not exist, then
    [_add_step] raises [WorkflowNextStepError] and changes nothing, [next]
    returns [TERMINATED] or [STOPPED], and the list of tasks is the one
    before the call. *)
Theorem add_step_missing_inputs (done : Z) (m : Manager Task) (fs : FS) :
  0 <= done ->
  done + 1 < Z.of_nat (length workflow_description) ->
  expected_outputs m <> [] ->
  required_input_missing package workflow_description (done + 1) fs \/
  expected_output_missing m fs ->
  (exists msg,
     _add_step package workflow_description (done + 1) (m, fs) =
       ((m, fs), inl (WorkflowNextStepError msg))) /\
  (exists state,
     snd (next package workflow_description super_next done (m, fs))
       = inr state /\ terminal state) /\
  tasks (fst (fst (next package workflow_description super_next done (m, fs))))
    = tasks m.
Proof.
  intros Hdone Hlen Hne Hmiss.
  assert (Hadd : exists msg,
     _add_step package workflow_description (done + 1) (m, fs) =
       ((m, fs), inl (WorkflowNextStepError msg))).
  { unfold _add_step, bind, get_manager, get_fs, lift. simpl.
    replace (0 <? done + 1) with true by (symmetry; apply Z.ltb_lt; lia).
    destruct (getitem_last _ Hne) as [outputs Hout]. rewrite Hout.
    destruct (all (map (os_path_exists fs) outputs)) eqn:Hall; simpl.
    - destruct Hmiss as [(step & c & p & Hstep & Hc & Hin & Hp)
                        | (outputs' & p & Hout' & Hin & Hp)].
      + rewrite Hstep.
        rewrite (create_jobs_required_missing step c p (m, fs) Hc Hin Hp).
        eauto.
      + rewrite Hout in Hout'. inversion Hout'; subst.
        rewrite (all_exists_false _ _ p Hin Hp) in Hall. discriminate.
    - eauto. }
  split; [exact Hadd |].
  destruct Hadd as [msg Hadd]. unfold next.
  replace (done + 1 <? Z.of_nat (length workflow_description)) with true
    by (symmetry; apply Z.ltb_lt; lia).
  rewrite Hadd. simpl.
  destruct (stopped m); simpl; unfold terminal; eauto.
Qed.

(** C3, amended.  When the preparation of the next step raises an
    exception inside [next], what happens depends on the class of the
    exception.  For an instance of [Exception], [next] sets the exit code
    to zero and returns [STOPPED] if the manager was halted and
    [TERMINATED] otherwise.  Another exception, such as the [SystemExit]
    of an argument parser that rejects the command of the step, is not
    caught: [next] raises it, returns no state, and the exit code stays
    as it was. *)
Theorem next_exception_exit (done : Z) (w w' : World Task) (e : exception) :
  done + 1 < Z.of_nat (length workflow_description) ->
  _add_step package workflow_description (done + 1) w = (w', inl e) ->
  if is_Exception e then
    exitcode (fst (fst (next package workflow_description super_next done w)))
      = Some 0 /\
    snd (next package workflow_description super_next done w)
      = inr (if stopped (fst w) then STOPPED else TERMINATED)
  else
    next package workflow_description super_next done w = (w', inl e) /\
    exitcode (fst w') = exitcode (fst w).
Proof.
  intros Hlen Hadd.
  destruct (add_step_error_frame _ _ _ _ Hadd) as [_ Hstopped].
  destruct (add_step_same_flags _ _ _ _ Hadd) as [_ Hexit].
  unfold next.
  replace (done + 1 <? Z.of_nat (length workflow_description)) with true
    by (symmetry; apply Z.ltb_lt; lia).
  rewrite Hadd. destruct (is_Exception e); [| auto].
  simpl. rewrite Hstopped.
  destruct (stopped (fst w)); simpl; auto.
Qed.


End Manager.

Import WorkflowExample.

Lemma metadata_missing : "/exp/metadata.json" ∉ files.
Proof. vm_compute. intros H. discriminate H. Qed.

Lemma add_step_missing_inputs_witness :
  (exists msg,
     _add_step package workflow_description (0 + 1) (manager, files) =
       ((manager, files), inl (WorkflowNextStepError msg))) /\
  (exists state,
     snd (next package workflow_description super_next 0 (manager, files))
       = inr state /\ terminal state) /\
  tasks (fst (fst (next package workflow_description super_next 0
                     (manager, files)))) = tasks manager.
Proof.
  apply (add_step_missing_inputs string package workflow_description
           super_next 0 manager files).
  - lia.
  - simpl. lia.
  - discriminate.
  - left. exists ["align"; "/exp"; "init"].
    eexists. exists "/exp/metadata.json".
    split; [reflexivity |]. split; [reflexivity |].
    split; [simpl; auto | exact metadata_missing].
Defined.

Lemma add_step_fails :
  _add_step package workflow_description (0 + 1) (manager, files) =
    ((manager, files),
     inl (WorkflowNextStepError "outputs of previous step do not exist")).
Proof. vm_compute. reflexivity. Qed.

Lemma next_exception_exit_witness :
  if is_Exception
       (WorkflowNextStepError "outputs of previous step do not exist")
  then
    exitcode (fst (fst (next package workflow_description super_next 0
                          (manager, files)))) = Some 0 /\
    snd (next package workflow_description super_next 0 (manager, files))
      = inr (if stopped (fst (manager, files)) then STOPPED else TERMINATED)
  else
    next package workflow_description super_next 0 (manager, files)
      = ((manager, files),
         inl (WorkflowNextStepError "outputs of previous step do not exist"))
    /\ exitcode (fst (manager, files)) = exitcode (fst (manager, files)).
Proof.
  apply (next_exception_exit string package workflow_description super_next
           0 (manager, files) (manager, files)
           (WorkflowNextStepError "outputs of previous step do not exist")).
  - simpl. lia.
  - exact add_step_fails.
Defined.

(** C3 as stated fails.  The second step of the workflow has no command;
    its argument parser ends with [SystemExit], which [next] does not
    catch: [next] raises it, returns no state, and the exit code is not
    set. *)
Lemma system_exit_counterexample :
  _add_step package rejected_description 1 (manager, files_after_metaconfig)
    = ((manager, files_after_metaconfig), inl (SystemExit 2)) /\
  next package rejected_description super_next 0
       (manager, files_after_metaconfig)
    = ((manager, files_after_metaconfig), inl (SystemExit 2)) /\
  exitcode manager = None.
Proof.
  split; [vm_compute; reflexivity |].
  split; [vm_compute; reflexivity | reflexivity].
Qed.



End WorkflowProps.

Module JteratorProps.
Import Py Jterator.

(** *** Batches *)

Lemma groups_of_concat (fuel n : nat) (li : list Z) :
  (0 < n)%nat -> (length li <= fuel)%nat ->
  concat (groups_of fuel n li) = li.
Proof.
  intros Hn. revert li.
  induction fuel as [| fuel IH]; intros li Hlen; simpl.
  - destruct li; [reflexivity | simpl in Hlen; lia].
  - destruct li as [| x li]; [reflexivity |].
    change (concat (firstn n (x :: li) :: groups_of fuel n (skipn n (x :: li)))
            = x :: li).
    simpl concat. rewrite IH.
    + apply firstn_skipn.
    + rewrite length_skipn. simpl in *. lia.
Qed.

(** The groups have between one and [n] elements. *)
Lemma groups_of_sizes (fuel n : nat) :
  (0 < n)%nat ->
  forall li : list Z,
    Forall (fun g : list Z => (1 <= length g <= n)%nat) (groups_of fuel n li).
Proof.
  intros Hn. induction fuel as [| fuel IH]; intros li; simpl.
  - constructor.
  - destruct li as [| x li]; [constructor |].
    constructor; [| apply IH].
    rewrite length_firstn. simpl length. lia.
Qed.

Lemma enumerate_from_ids (f : Z -> list Z -> JobDescription)
    (Hf : forall j b, id (f j b) = j + 1) (l : list (list Z)) :
  forall (i : Z) (k : nat) (d : JobDescription),
    nth_error (map (fun jb : Z * list Z => let (j, b) := jb in f j b)
                   (enumerate_from i l)) k = Some d ->
    id d = i + Z.of_nat k + 1.
Proof.
  induction l as [| b l IH]; intros i k d; simpl.
  - destruct k; discriminate.
  - destruct k as [| k]; simpl.
    + intros H. inversion H; subst. rewrite Hf. lia.
    + intros H. apply IH in H. lia.
Qed.

Lemma enumerate_from_site_ids (p : bool) (l : list (list Z)) :
  forall i : Z,
    map site_ids
      (map (fun jb : Z * list Z =>
              let (j, b) := jb in mkJobDescription (j + 1) b p)
           (enumerate_from i l)) = l.
Proof.
  induction l as [| b l IH]; intros i; simpl; [reflexivity |].
  rewrite IH. reflexivity.
Qed.

Lemma not_in_batches (u : Z) (js : list JobDescription) :
  ~ In u (concat (map site_ids js)) ->
  List.filter (fun j => existsb (Z.eqb u) (site_ids j)) js = [].
Proof.
  induction js as [| j js IH]; simpl; [reflexivity |].
  intros Hnot. rewrite in_app_iff in Hnot.
  destruct (existsb (Z.eqb u) (site_ids j)) eqn:E.
  - exfalso. apply Hnot. left.
    apply existsb_exists in E. destruct E as (v & Hv & Huv).
    apply Z.eqb_eq in Huv. subst. exact Hv.
  - apply IH. tauto.
Qed.

Lemma in_one_batch (u : Z) (js : list JobDescription) :
  List.NoDup (concat (map site_ids js)) ->
  In u (concat (map site_ids js)) ->
  length (List.filter (fun j => existsb (Z.eqb u) (site_ids j)) js) = 1%nat.
Proof.
  induction js as [| j js IH]; simpl; [contradiction |].
  intros Hnd Hin.
  destruct (existsb (Z.eqb u) (site_ids j)) eqn:E.
  - simpl. rewrite not_in_batches; [reflexivity |].
    apply existsb_exists in E. destruct E as (v & Hv & Huv).
    apply Z.eqb_eq in Huv. subst v.
    intros Hrest. revert Hnd Hv Hrest. generalize (concat (map site_ids js)).
    generalize (site_ids j). clear.
    induction l as [| a l IHl]; simpl; intros l' Hnd Hv Hrest; [contradiction |].
    inversion Hnd as [| ? ? Ha Hnd']; subst.
    destruct Hv as [-> | Hv].
    + apply Ha. apply in_or_app. right. exact Hrest.
    + eapply IHl; eauto.
  - apply IH.
    + revert Hnd. generalize (concat (map site_ids js)).
      generalize (site_ids j). clear.
      induction l as [| a l IHl]; simpl; intros l' Hnd; [exact Hnd |].
      inversion Hnd; subst. auto.
    + apply in_app_or in Hin. destruct Hin as [Hin | Hin]; [| exact Hin].
      exfalso. assert (existsb (Z.eqb u) (site_ids j) = true).
      { apply existsb_exists. exists u. split; [exact Hin | apply Z.eqb_refl]. }
      congruence.
Qed.




(** Five sites and a batch size of two give batches of two, two and one
    sites. *)
Example create_run_batches_5_2 :
  yielded (create_run_batches [11; 12; 13; 14; 15] (mkBatchArguments false 2))
  = [ mkJobDescription 1 [11; 12] false;
      mkJobDescription 2 [13; 14] false;
      mkJobDescription 3 [15] false ].
Proof. reflexivity. Qed.

(** C5.  With plotting requested and a batch size other than one,
    [create_run_batches] raises [JobDescriptionError] without having yielded
    a batch, for every sequence of sites. *)
Theorem create_run_batches_plot (U : list Z) (args : BatchArguments) :
  plot args = true -> batch_size args <> 1 ->
  create_run_batches U args =
    mkGenerated []
      (Some (JobDescriptionError
               "Batch size must be 1 when plotting is active.")).
Proof.
  intros Hplot Hsize. unfold create_run_batches. rewrite Hplot.
  replace (batch_size args =? 1) with false
    by (symmetry; apply Z.eqb_neq; exact Hsize).
  reflexivity.
Qed.

Lemma create_run_batches_plot_witness :
  create_run_batches [11; 12; 13] (mkBatchArguments true 2) =
    mkGenerated []
      (Some (JobDescriptionError
               "Batch size must be 1 when plotting is active.")).
Proof.
  apply (create_run_batches_plot [11; 12; 13] (mkBatchArguments true 2)).
  - reflexivity.
  - simpl. lia.
Defined.


(** *** The module pipeline *)

Section Pipeline.

Variable Handles : Type.
Variable os_path : OsPath.
Variable step_location : string.

Lemma getitem_nth_error {A} (l : list A) (i : Z) (x : A) :
  0 <= i -> getitem l i = inr x -> nth_error l (Z.to_nat i) = Some x.
Proof.
  intros Hi. unfold getitem.
  replace (i <? 0) with false by (symmetry; apply Z.ltb_ge; lia).
  destruct ((i <? 0) || (Z.of_nat (length l) <=? i)); [discriminate |].
  destruct (nth_error l (Z.to_nat i)); [| discriminate].
  intros H. inversion H. reflexivity.
Qed.

Lemma enumerate_from_nth {A} (l : list A) :
  forall (n : nat) (i : Z) (x : A),
    In (i, x) (enumerate_from (Z.of_nat n) l) ->
    (Z.of_nat n <= i) /\ nth_error l (Z.to_nat i - n) = Some x.
Proof.
  induction l as [| y l IH]; intros n i x; simpl; [contradiction |].
  intros [H | H].
  - inversion H; subst. split; [lia |].
    replace (Z.to_nat (Z.of_nat n) - n)%nat with 0%nat by lia. reflexivity.
  - replace (Z.of_nat n + 1) with (Z.of_nat (S n)) in H by lia.
    apply IH in H. destruct H as [Hle Hnth]. split; [lia |].
    replace (Z.to_nat i - n)%nat with (S (Z.to_nat i - S n))%nat by lia.
    exact Hnth.
Qed.

Lemma enumerate_nth {A} (l : list A) (i : Z) (x : A) :
  In (i, x) (enumerate l) -> 0 <= i /\ nth_error l (Z.to_nat i) = Some x.
Proof.
  intros H. apply (enumerate_from_nth l 0) in H. destruct H as [Hle Hnth].
  split; [lia |]. rewrite Nat.sub_0_r in Hnth. exact Hnth.
Qed.

Lemma pipeline_loop_spec (elements : list PipelineModuleDescription)
    (project_handles : list (HandleDescriptions Handles)) :
  forall (l : list (Z * PipelineModuleDescription))
         (acc mods : list (ImageAnalysisModule Handles)),
    (forall ie, In ie l -> In ie (enumerate elements)) ->
    pipeline_loop os_path step_location project_handles l acc = inr mods ->
    exists new,
      mods = acc ++ new /\
      Forall2 (built_from os_path step_location elements project_handles) new
              (List.filter (fun ie => active (snd ie)) l).
Proof.
  induction l as [| [i element] l IH]; intros acc mods Hsub; simpl.
  - intros H. inversion H; subst. exists []. rewrite app_nil_r.
    split; [reflexivity | constructor].
  - assert (Hsub' : forall ie, In ie l -> In ie (enumerate elements))
      by (intros ie Hie; apply Hsub; right; exact Hie).
    destruct (active element) eqn:Hactive; simpl.
    + destruct (resolve_source os_path step_location (source element))
        as [e | source_file_] eqn:Hsrc; [discriminate |].
      destruct (getitem project_handles i) as [e | h] eqn:Hh; [discriminate |].
      intros H. apply IH in H; [| exact Hsub'].
      destruct H as (new & -> & Hnew).
      exists (mkImageAnalysisModule (hd_name h) source_file_
                (description h) :: new).
      split; [rewrite <- app_assoc; reflexivity |].
      constructor; [| exact Hnew].
      destruct (enumerate_nth elements i element) as [Hi Hnth];
        [apply Hsub; left; reflexivity |].
      exists h. simpl. repeat split; auto.
      apply getitem_nth_error; assumption.
    + intros H. apply IH in H; [| exact Hsub']. exact H.
Qed.

(** C10.  When [pipeline] returns, the modules correspond one to one, in
    order, to the elements of the description with [active] set: the
    elements with [active] unset have no module, and the module of the
    element at position [i] of the full description has the name and the
    handles of [project.handles[i]] and the resolved source file of the
    element. *)
Theorem pipeline_active_modules
    (elements : list PipelineModuleDescription)
    (project_handles : list (HandleDescriptions Handles))
    (mods : list (ImageAnalysisModule Handles)) :
  pipeline os_path step_location elements project_handles = inr mods ->
  Forall2 (built_from os_path step_location elements project_handles) mods
          (List.filter (fun ie => active (snd ie)) (enumerate elements)).
Proof.
  unfold pipeline. intros H.
  apply (pipeline_loop_spec elements) in H; [| auto].
  destruct H as (new & -> & Hnew). exact Hnew.
Qed.

Lemma pipeline_loop_returns (project_handles : list (HandleDescriptions Handles)) :
  forall (l : list (Z * PipelineModuleDescription))
         (acc : list (ImageAnalysisModule Handles)),
    (forall i e, In (i, e) l -> active e = true ->
       0 <= i < Z.of_nat (length project_handles) /\
       exists f, resolve_source os_path step_location (source e) = inr f) ->
    exists mods,
      pipeline_loop os_path step_location project_handles l acc = inr mods.
Proof.
  induction l as [| [i element] l IH]; intros acc Hok; simpl; [eauto |].
  assert (Hok' : forall i e, In (i, e) l -> active e = true ->
       0 <= i < Z.of_nat (length project_handles) /\
       exists f, resolve_source os_path step_location (source e) = inr f)
    by (intros; apply Hok; [right |]; assumption).
  destruct (active element) eqn:Hactive; simpl; [| apply IH; exact Hok'].
  destruct (Hok i element (or_introl eq_refl) Hactive) as [Hi [f Hf]].
  rewrite Hf. unfold getitem.
  replace (i <? 0) with false by (symmetry; apply Z.ltb_ge; lia).
  replace ((i <? 0) || (Z.of_nat (length project_handles) <=? i)) with false
    by (symmetry; apply orb_false_iff; split;
        [apply Z.ltb_ge | apply Z.leb_gt]; lia).
  destruct (nth_error project_handles (Z.to_nat i)) eqn:N.
  - apply IH. exact Hok'.
  - apply nth_error_None in N. lia.
Qed.

(** When the files of the active modules exist and every element has its
    handles, [pipeline] returns. *)
Lemma pipeline_returns (elements : list PipelineModuleDescription)
    (project_handles : list (HandleDescriptions Handles)) :
  (length elements <= length project_handles)%nat ->
  (forall e, In e elements -> active e = true ->
     exists f, resolve_source os_path step_location (source e) = inr f) ->
  exists mods,
    pipeline os_path step_location elements project_handles = inr mods.
Proof.
  intros Hlen Hsrc. unfold pipeline. apply pipeline_loop_returns.
  intros i e Hin Hactive. apply enumerate_nth in Hin.
  destruct Hin as [Hi Hnth]. split.
  - assert (Z.to_nat i < length elements)%nat
      by (apply nth_error_Some; congruence).
    lia.
  - apply Hsrc; [| exact Hactive]. eapply nth_error_In. exact Hnth.
Qed.

End Pipeline.


Import JteratorExample.

Lemma pipeline_active_modules_witness :
  Forall2 (built_from os_path step_location project_pipeline project_handles)
    [ mkImageAnalysisModule "smooth" "smooth.py" "smooth.handles.yaml";
      mkImageAnalysisModule "label" "/opt/jtlib/label.py" "label.handles.yaml" ]
    (List.filter (fun ie => active (snd ie)) (enumerate project_pipeline)).
Proof.
  apply (pipeline_active_modules string os_path step_location
           project_pipeline project_handles).
  reflexivity.
Defined.

End JteratorProps.

Module CatalogProps.
Import Py Jterator.

Lemma has_key_iff name ty f :
  has_key name ty f = true <-> feature_name f = name /\ mapobject_type_id f = ty.
Proof.
  unfold has_key. rewrite andb_true_iff, String.eqb_eq, Z.eqb_eq. tauto.
Qed.

Lemma existsb_false_filter {A} (p : A -> bool) (l : list A) :
  existsb p l = false -> List.filter p l = [].
Proof.
  induction l as [| a l IH]; simpl; [reflexivity |].
  destruct (p a); simpl; [discriminate | exact IH].
Qed.

Lemma existsb_true_find {A} (p : A -> bool) (l : list A) :
  existsb p l = true -> exists a, find p l = Some a.
Proof.
  induction l as [| a l IH]; simpl; [discriminate |].
  destruct (p a); simpl; eauto.
Qed.

Lemma find_app_some {A} (p : A -> bool) (l l' : list A) (a : A) :
  find p l = Some a -> find p (l ++ l') = Some a.
Proof.
  induction l as [| b l IH]; simpl; [discriminate |].
  destruct (p b); auto.
Qed.

Lemma find_app_none {A} (p : A -> bool) (l l' : list A) :
  existsb p l = false -> find p (l ++ l') = find p l'.
Proof.
  induction l as [| b l IH]; simpl; [reflexivity |].
  destruct (p b); simpl; [discriminate | exact IH].
Qed.

Lemma find_head_filter {A} (p : A -> bool) (l : list A) :
  find p l = head (List.filter p l).
Proof.
  induction l as [| a l IH]; simpl; [reflexivity |].
  destruct (p a); [reflexivity | exact IH].
Qed.

(** What one call does to the table: it leaves the rows or, when no row has
    the key, adds one row with the next value of the sequence and returns
    this value. *)
Lemma add_feature_rows name ty agg t :
  rows (fst (_add_feature name ty agg t)) = rows t \/
  (existsb (has_key name ty) (rows t) = false /\
   rows (fst (_add_feature name ty agg t))
     = rows t ++ [mkFeature (id_seq t) name agg ty] /\
   snd (_add_feature name ty agg t) = inr (id_seq t)).
Proof.
  unfold _add_feature, insert_on_conflict_do_nothing.
  destruct (id_max t <? id_seq t); [left; reflexivity |].
  destruct (existsb (has_key name ty) (rows t)) eqn:E.
  - left. simpl. destruct (select_id name ty _); reflexivity.
  - destruct (existsb (fun f => feature_id f =? id_seq t) (rows t));
      [left; reflexivity | right; simpl; auto].
Qed.

(** The sequence never goes back, and its largest value stays. *)
Lemma add_feature_seq name ty agg t :
  id_seq t <= id_seq (fst (_add_feature name ty agg t)) <= id_seq t + 1 /\
  id_max (fst (_add_feature name ty agg t)) = id_max t.
Proof.
  unfold _add_feature, insert_on_conflict_do_nothing.
  destruct (id_max t <? id_seq t); [simpl; lia |].
  destruct (existsb (has_key name ty) (rows t)); simpl.
  - destruct (select_id name ty _); simpl; lia.
  - destruct (existsb (fun f => feature_id f =? id_seq t) (rows t));
      simpl; lia.
Qed.

(** A call that returns gives the id that the table then has for the key. *)
Lemma add_feature_returns name ty agg t i :
  snd (_add_feature name ty agg t) = inr i ->
  select_id name ty (fst (_add_feature name ty agg t)) = Some i.
Proof.
  unfold _add_feature, insert_on_conflict_do_nothing, select_id.
  destruct (id_max t <? id_seq t); [discriminate |].
  destruct (existsb (has_key name ty) (rows t)) eqn:E; cbn.
  - destruct (find (has_key name ty) (rows t)) as [f |] eqn:F; cbn;
      [| discriminate].
    rewrite F. intros H. inversion H. reflexivity.
  - destruct (existsb (fun f => feature_id f =? id_seq t) (rows t));
      [discriminate |].
    simpl. intros H. inversion H; subst i.
    rewrite find_app_none by exact E. simpl.
    assert (Hk : has_key name ty (mkFeature (id_seq t) name agg ty) = true)
      by (apply has_key_iff; auto).
    rewrite Hk. reflexivity.
Qed.

(** On a table that keeps its primary key and whose sequence has a value
    left, a call returns. *)
Lemma add_feature_total name ty agg t :
  features_pkey t -> ids_left 1 t ->
  exists i, snd (_add_feature name ty agg t) = inr i.
Proof.
  intros [_ Hlt] Hleft. unfold ids_left in Hleft.
  unfold _add_feature, insert_on_conflict_do_nothing.
  replace (id_max t <? id_seq t) with false
    by (symmetry; apply Z.ltb_ge; lia).
  destruct (existsb (has_key name ty) (rows t)) eqn:E; simpl.
  - destruct (existsb_true_find _ _ E) as [f Hf].
    unfold select_id. simpl. rewrite Hf. simpl. eauto.
  - replace (existsb (fun f => feature_id f =? id_seq t) (rows t)) with false;
      [simpl; eauto |].
    symmetry. apply not_true_is_false. intros H.
    apply existsb_exists in H. destruct H as (f & Hin & Hf).
    rewrite Forall_forall in Hlt. apply list_elem_of_In in Hin.
    specialize (Hlt f Hin). simpl in Hlt. lia.
Qed.

(** A call that has a value of the sequence leaves one value less. *)
Lemma add_feature_ids_left name ty agg t n :
  ids_left (n + 1) t -> 0 <= n ->
  ids_left n (fst (_add_feature name ty agg t)).
Proof.
  unfold ids_left. intros H Hn.
  destruct (add_feature_seq name ty agg t) as [Hs ->]. lia.
Qed.

(** The id that the table has for a key stays. *)
Lemma add_feature_select_stable name ty agg t name' ty' i :
  select_id name' ty' t = Some i ->
  select_id name' ty' (fst (_add_feature name ty agg t)) = Some i.
Proof.
  unfold select_id.
  destruct (add_feature_rows name ty agg t) as [-> | (_ & -> & _)];
    [auto |].
  destruct (find (has_key name' ty') (rows t)) eqn:F; [| discriminate].
  intros H. rewrite (find_app_some _ _ _ _ F). exact H.
Qed.

Lemma add_feature_count name ty agg t name' ty' :
  count_key name' ty' (fst (_add_feature name ty agg t))
    = count_key name' ty' t \/
  (existsb (has_key name ty) (rows t) = false /\
   count_key name' ty' (fst (_add_feature name ty agg t))
     = (count_key name' ty' t
        + if has_key name' ty' (mkFeature (id_seq t) name agg ty)
          then 1 else 0)%nat).
Proof.
  unfold count_key.
  destruct (add_feature_rows name ty agg t) as [-> | (E & -> & _)];
    [left; reflexivity |].
  right. split; [exact E |].
  rewrite List.filter_app, length_app. simpl.
  destruct (has_key name' ty' _); reflexivity.
Qed.

Lemma existsb_count name ty t :
  existsb (has_key name ty) (rows t) = true <-> (1 <= count_key name ty t)%nat.
Proof.
  unfold count_key. induction (rows t) as [| f l IH]; simpl.
  - split; [discriminate | lia].
  - destruct (has_key name ty f); simpl; [split; [lia | reflexivity] | exact IH].
Qed.

Lemma select_id_count name ty t i :
  select_id name ty t = Some i -> (1 <= count_key name ty t)%nat.
Proof.
  unfold select_id. intros H. apply existsb_count.
  destruct (find (has_key name ty) (rows t)) as [f |] eqn:F; [| discriminate].
  apply find_some in F. apply existsb_exists. exists f. exact F.
Qed.

(** One call keeps the constraint. *)
Lemma add_feature_key name ty agg t :
  features_name_mapobject_type_id_key t ->
  features_name_mapobject_type_id_key (fst (_add_feature name ty agg t)).
Proof.
  intros Hkey n y.
  destruct (add_feature_count name ty agg t n y) as [-> | [E ->]];
    [apply Hkey |].
  destruct (has_key n y (mkFeature (id_seq t) name agg ty)) eqn:K.
  - apply has_key_iff in K. simpl in K. destruct K as [-> ->].
    destruct (count_key n y t) eqn:C; [lia |].
    assert (existsb (has_key n y) (rows t) = true)
      by (apply existsb_count; lia).
    congruence.
  - specialize (Hkey n y). lia.
Qed.

(** One call keeps the primary key: a new row gets the next value of the
    sequence. *)
Lemma add_feature_pkey name ty agg t :
  features_pkey t -> features_pkey (fst (_add_feature name ty agg t)).
Proof.
  intros [Hnd Hlt]. unfold features_pkey.
  destruct (add_feature_seq name ty agg t) as [Hseq _].
  destruct (add_feature_rows name ty agg t) as [-> | (_ & Hrows & Hret)].
  - split; [exact Hnd |].
    eapply Forall_impl; [exact Hlt |]. simpl. intros. lia.
  - assert (Hs : id_seq (fst (_add_feature name ty agg t)) = id_seq t + 1).
    { revert Hret. unfold _add_feature, insert_on_conflict_do_nothing.
      destruct (id_max t <? id_seq t); [discriminate |].
      destruct (existsb (has_key name ty) (rows t)); simpl.
      - destruct (select_id name ty _); reflexivity.
      - destruct (existsb (fun f => feature_id f =? id_seq t) (rows t));
          reflexivity. }
    rewrite Hrows, Hs. split.
    + rewrite map_app. simpl. apply NoDup_ListNoDup.
      apply NoDup_app. split; [apply NoDup_ListNoDup; exact Hnd |].
      split; [| apply NoDup_singleton].
      intros i Hi Hi'. apply list_elem_of_singleton in Hi'. subst i.
      apply list_elem_of_In, in_map_iff in Hi. destruct Hi as (f & Hf & Hin).
      rewrite Forall_forall in Hlt. apply list_elem_of_In in Hin.
      specialize (Hlt f Hin). simpl in Hlt. lia.
    + apply Forall_app. split.
      * eapply Forall_impl; [exact Hlt |]. simpl. intros. lia.
      * constructor; [simpl; lia | constructor].
Qed.

(** After a sequence of calls: the constraint and the primary key hold,
    the rows that were there before are there after, in their places, and
    every call that has returned an id has returned the id that the table
    has for its key in the end. *)
Lemma add_features_spec (calls : list (string * Z * bool)) :
  forall t : Features,
    (features_name_mapobject_type_id_key t ->
     features_name_mapobject_type_id_key (fst (add_features calls t))) /\
    (features_pkey t -> features_pkey (fst (add_features calls t))) /\
    (exists new, rows (fst (add_features calls t)) = rows t ++ new) /\
    (forall n y i, select_id n y t = Some i ->
                   select_id n y (fst (add_features calls t)) = Some i) /\
    Forall2 (fun c r =>
               forall i, r = inr i ->
                 select_id (fst (fst c)) (snd (fst c))
                           (fst (add_features calls t)) = Some i)
            calls (snd (add_features calls t)).
Proof.
  induction calls as [| [[name ty] agg] calls IH]; intros t; simpl.
  - split; [auto |]. split; [auto |].
    split; [exists []; rewrite app_nil_r; reflexivity |].
    split; [auto | constructor].
  - pose proof (add_feature_key name ty agg t) as Hkey1.
    pose proof (add_feature_pkey name ty agg t) as Hp1.
    pose proof (add_feature_returns name ty agg t) as Hret.
    pose proof (fun n y i => add_feature_select_stable name ty agg t n y i)
      as Hstable.
    pose proof (add_feature_rows name ty agg t) as Hrows.
    destruct (_add_feature name ty agg t) as [t1 r]. simpl in *.
    destruct (IH t1) as (Hkey2 & Hp2 & [new Hnew] & Hsel & Hall).
    destruct (add_features calls t1) as [t2 rs]. simpl in *.
    split; [auto |]. split; [auto |]. split; [| split].
    + destruct Hrows as [Hr | (_ & Hr & _)]; rewrite Hnew, Hr;
        [eauto | rewrite <- app_assoc; eauto].
    + intros n y i Hi. apply Hsel, Hstable. exact Hi.
    + constructor; [| exact Hall].
      simpl. intros i Hi. apply Hsel, Hret. exact Hi.
Qed.

(** With the primary key kept and a value of the sequence for every call,
    every call returns. *)
Lemma add_features_total (calls : list (string * Z * bool)) :
  forall t : Features,
    features_pkey t -> ids_left (Z.of_nat (length calls)) t ->
    Forall (fun r => exists i, r = @inr exception Z i)
           (snd (add_features calls t)).
Proof.
  induction calls as [| [[name ty] agg] calls IH]; intros t Hp Hleft; simpl;
    [constructor |].
  assert (Hleft1 : ids_left 1 t)
    by (unfold ids_left in *; simpl length in Hleft; lia).
  destruct (add_feature_total name ty agg t Hp Hleft1) as [i Hi].
  pose proof (add_feature_pkey name ty agg t Hp) as Hp1.
  pose proof (add_feature_ids_left name ty agg t
                (Z.of_nat (length calls))) as Hl.
  destruct (_add_feature name ty agg t) as [t1 r]. simpl in *.
  specialize (IH t1 Hp1).
  destruct (add_features calls t1) as [t2 rs]. simpl in *.
  constructor; [eauto |]. apply IH. apply Hl; [| lia].
  unfold ids_left in *. lia.
Qed.

Lemma add_features_length (calls : list (string * Z * bool)) :
  forall t, length (snd (add_features calls t)) = length calls.
Proof.
  induction calls as [| [[name ty] agg] calls IH]; intros t; simpl;
    [reflexivity |].
  destruct (_add_feature name ty agg t) as [t1 r].
  specialize (IH t1). destruct (add_features calls t1) as [t2 rs].
  simpl in *. rewrite IH. reflexivity.
Qed.

(** The row that a table with the constraint has for a key *)
Lemma select_id_filter name ty t i :
  features_name_mapobject_type_id_key t ->
  select_id name ty t = Some i ->
  exists f, List.filter (has_key name ty) (rows t) = [f] /\ feature_id f = i.
Proof.
  intros Hkey Hsel. specialize (Hkey name ty). unfold count_key in Hkey.
  unfold select_id in Hsel. rewrite find_head_filter in Hsel.
  destruct (List.filter (has_key name ty) (rows t)) as [| f [| g l]];
    simpl in *; [discriminate | | lia].
  exists f. split; [reflexivity |]. inversion Hsel. reflexivity.
Qed.

(** C9, amended.  Start from a catalog that satisfies its constraint and
    its primary key, with a value of the sequence left for every call, and
    make any sequence of calls of [_add_feature].  Every call returns an id.  The rows that
    were in the catalog stay.  For the name and object type of each call
    the catalog has exactly one row in the end, and the id that the call
    has returned is the id of this row: the id of the row that was there
    for the name and object type before the calls, if there was one, and
    the id of a new row otherwise.  All calls with this name and object
    type return this id, whatever their [is_aggregate]. *)
Theorem add_feature_idempotent (t : Features)
    (calls : list (string * Z * bool)) :
  features_name_mapobject_type_id_key t ->
  features_pkey t ->
  ids_left (Z.of_nat (length calls)) t ->
  let t' := fst (add_features calls t) in
  let returned := snd (add_features calls t) in
  length returned = length calls /\
  exists new,
    rows t' = rows t ++ new /\
    forall k name ty agg, calls !! k = Some (name, ty, agg) ->
      exists i f,
        returned !! k = Some (inr i) /\
        List.filter (has_key name ty) (rows t') = [f] /\
        feature_id f = i /\
        (forall j, select_id name ty t = Some j -> j = i) /\
        (select_id name ty t = None -> In f new) /\
        forall k' agg', calls !! k' = Some (name, ty, agg') ->
                        returned !! k' = Some (inr i).
Proof.
  intros Hkey Hp Hleft t' returned.
  destruct (add_features_spec calls t) as (Hkey' & _ & [new Hnew] & Hsel & Hall).
  pose proof (add_features_total calls t Hp Hleft) as Htotal.
  specialize (Hkey' Hkey).
  fold t' in Hkey', Hnew, Hsel, Hall. fold returned in Hall, Htotal.
  split; [apply add_features_length |].
  exists new. split; [exact Hnew |].
  intros k name ty agg Hk.
  destruct (Forall2_lookup_l _ _ _ _ _ Hall Hk) as (r & Hr & Hi).
  rewrite Forall_forall in Htotal.
  destruct (Htotal r) as [i ->]; [eapply list_elem_of_lookup_2; exact Hr |].
  specialize (Hi i eq_refl). simpl in Hi.
  destruct (select_id_filter name ty t' i Hkey' Hi) as (f & Hf & Hfi).
  exists i, f. split; [exact Hr |]. split; [exact Hf |]. split; [exact Hfi |].
  split; [| split].
  - intros j Hj. apply Hsel in Hj. congruence.
  - intros Hnone.
    assert (Hin : In f (rows t')).
    { assert (H : In f (List.filter (has_key name ty) (rows t')))
        by (rewrite Hf; left; reflexivity).
      apply filter_In in H. tauto. }
    rewrite Hnew in Hin. apply in_app_or in Hin.
    destruct Hin as [Hin | Hin]; [| exact Hin].
    exfalso. unfold select_id in Hnone.
    destruct (find (has_key name ty) (rows t)) eqn:F; [discriminate |].
    assert (Hk' : has_key name ty f = true).
    { assert (H : In f (List.filter (has_key name ty) (rows t')))
        by (rewrite Hf; left; reflexivity).
      apply filter_In in H. tauto. }
    eapply find_none in F; [| exact Hin]. congruence.
  - intros k' agg' Hk'.
    destruct (Forall2_lookup_l _ _ _ _ _ Hall Hk') as (r' & Hr' & Hi').
    destruct (Htotal r') as [i' ->];
      [eapply list_elem_of_lookup_2; exact Hr' |].
    specialize (Hi' i' eq_refl). simpl in Hi'.
    assert (i' = i) by congruence. subst i'. exact Hr'.
Qed.

Import JteratorExample.

Lemma catalog_key : features_name_mapobject_type_id_key catalog.
Proof.
  intros name ty. unfold count_key. simpl.
  destruct (has_key name ty _); simpl; lia.
Qed.

Lemma catalog_pkey : features_pkey catalog.
Proof.
  split; simpl.
  - constructor; [intros [] | constructor].
  - constructor; [simpl; lia | constructor].
Qed.

Lemma add_feature_idempotent_witness :
  let t' := fst (add_features calls catalog) in
  let returned := snd (add_features calls catalog) in
  length returned = length calls /\
  exists new,
    rows t' = rows catalog ++ new /\
    forall k name ty agg, calls !! k = Some (name, ty, agg) ->
      exists i f,
        returned !! k = Some (inr i) /\
        List.filter (has_key name ty) (rows t') = [f] /\
        feature_id f = i /\
        (forall j, select_id name ty catalog = Some j -> j = i) /\
        (select_id name ty catalog = None -> In f new) /\
        forall k' agg', calls !! k' = Some (name, ty, agg') ->
                        returned !! k' = Some (inr i).
Proof.
  apply (add_feature_idempotent catalog calls).
  - exact catalog_key.
  - exact catalog_pkey.
  - unfold ids_left. simpl. lia.
Defined.

(** The first call adds the row 2, the second finds the row 1, the third
    finds the row 2. *)
Example add_features_calls :
  add_features calls catalog =
    (mkFeatures [ mkFeature 1 "Area" false 7;
                  mkFeature 2 "Area_Cells_Mean" true 9 ] 5 2147483647,
     [inr 2; inr 1; inr 2]).
Proof. reflexivity. Qed.

(** C9 as stated fails where the sequence cannot give a new id.  Every
    call takes a value of the sequence, also when the row is there.  With
    the sequence of an empty table at its last value, the first call for a
    name adds the row, and the second call for this name raises
    [DataError] and returns no id.  With the sequence behind the id of a
    row, the call for a new name raises [IntegrityError] and adds no
    row. *)
Lemma add_feature_sequence_counterexample :
  add_features [("Area", 7, false); ("Area", 7, false)]
               (mkFeatures [] 2147483647 2147483647)
  = (mkFeatures [mkFeature 2147483647 "Area" false 7] 2147483648 2147483647,
     [inr 2147483647; inl DataError]) /\
  _add_feature "Perimeter" 7 false
               (mkFeatures [mkFeature 1 "Area" false 7] 1 2147483647)
  = (mkFeatures [mkFeature 1 "Area" false 7] 2 2147483647,
     inl IntegrityError).
Proof. split; reflexivity. Qed.

End CatalogProps.

(** *** The names of the aggregate features *)

Module AggregateProps.
Import Py Jterator.

Lemma append_length (a b : string) :
  String.length (a +:+ b) = (String.length a + String.length b)%nat.
Proof. induction a as [| c a IH]; simpl; [reflexivity | rewrite IH; reflexivity]. Qed.

(** The comparison with ["count"] fails for each key of [statistics], so
    every aggregate feature carries the name of its source feature. *)
Lemma agg_feature_name_statistics {float} (np : Numpy float)
    (stat_name feature type : string) (func : list float -> number float) :
  In (stat_name, func) (statistics float np) ->
  agg_feature_name stat_name feature type
    = feature +:+ "_" +:+ type +:+ "_" +:+ stat_name.
Proof.
  simpl. intros H.
  repeat (destruct H as [H | H]; [inversion H; subst; reflexivity |]).
  contradiction.
Qed.

Lemma count_names_differ (feature type : string) :
  feature +:+ "_" +:+ type +:+ "_" +:+ "Count" <> type +:+ "_" +:+ "Count".
Proof.
  intros H. apply (f_equal String.length) in H.
  repeat rewrite append_length in H. simpl in H. lia.
Qed.

(** C6.  The cells of a site have one feature, the area.  The features that
    [_aggregate] adds for minimum, maximum, sum and mean are named
    [Area_Cells_Min], ..., [Area_Cells_Mean]; the one for the count is named
    [Area_Cells_Count], with the name of the source feature in front, and no
    feature named [Cells_Count] is added. *)
Theorem aggregate_count_feature_name {float} (np : Numpy float) (x y : float) :
  exists catalog values agg_features,
    _aggregate np {["1" := "Area"]} "Cells" 7 70 [(0, [("1", [x; y])])]
               (mkFeatures [] 1 2147483647) []
      = inr (catalog, values, agg_features) /\
    Permutation (map feature_name (rows catalog))
      [ "Area_Cells_Min"; "Area_Cells_Max"; "Area_Cells_Sum";
        "Area_Cells_Mean"; "Area_Cells_Count" ] /\
    ~ In "Cells_Count" (map feature_name (rows catalog)) /\
    exists agg_id, agg_features !! agg_id = Some "Area_Cells_Count".
Proof.
  eexists. eexists. eexists.
  split; [vm_compute; reflexivity |].
  split; [| split; [| exists 1; reflexivity]].
  - simpl. apply (bool_decide_unpack _). vm_compute. exact I.
  - simpl. intros H.
    repeat (destruct H as [H | H]; [discriminate H |]). exact H.
Qed.

(** *** The values that [_aggregate] writes *)

Section Rounded.

Variable float : Type.
Variable np : Numpy float.

Lemma aggregate_columns_values type ref stat func
    (data : list (string * list float)) :
  forall st st' : AggState,
    aggregate_columns float np type ref stat func data st = inr st' ->
    feature_values st' = feature_values st /\
    forall i s,
      agg_values st' !! i = Some s ->
      agg_values st !! i = Some s \/
      exists n vals,
        In (n, vals) data /\
        s = str float np (round float np (func vals) 6).
Proof.
  induction data as [| [n vals] data IH]; intros st st'; simpl.
  - intros H. inversion H; subst. auto.
  - destruct (_add_feature (agg_feature_name stat n type) ref true (catalog st))
      as [t' [e | i]]; [discriminate |].
    intros H. apply IH in H. simpl in H. destruct H as [Hfv Hvals].
    split; [exact Hfv |].
    intros j s Hj. apply Hvals in Hj.
    destruct Hj as [Hj | (n' & vals' & Hin & Hs)]; [| right; eauto].
    destruct (decide (i = j)) as [<- | Hne].
    + rewrite lookup_insert_eq in Hj. inversion Hj. right. eauto.
    + rewrite lookup_insert_ne in Hj by exact Hne. auto.
Qed.

Lemma aggregate_statistics_values type ref
    (stats : list (string * (list float -> number float)))
    (data : list (string * list float)) :
  forall st st' : AggState,
    aggregate_statistics float np type ref stats data st = inr st' ->
    feature_values st' = feature_values st /\
    forall i s,
      agg_values st' !! i = Some s ->
      agg_values st !! i = Some s \/
      exists n vals stat func,
        In (n, vals) data /\ In (stat, func) stats /\
        s = str float np (round float np (func vals) 6).
Proof.
  induction stats as [| [stat func] stats IH]; intros st st'; simpl.
  - intros H. inversion H; subst. auto.
  - destruct (aggregate_columns float np type ref stat func data st)
      as [e | st1] eqn:E; [discriminate |].
    apply aggregate_columns_values in E. destruct E as [Hfv1 Hvals1].
    intros H. apply IH in H. destruct H as [Hfv Hvals].
    split; [congruence |].
    intros i s Hi. apply Hvals in Hi.
    destruct Hi as [Hi | (n & vals & stat' & func' & Hin & Hst & Hs)].
    + apply Hvals1 in Hi.
      destruct Hi as [Hi | (n & vals & Hin & Hs)]; [auto |].
      right. exists n, vals, stat, func. auto.
    + right. exists n, vals, stat', func'. auto.
Qed.

Lemma in_rename (feature_map : gmap string string)
    (data : list (string * list float)) (n : string) (vals : list float) :
  In (n, vals) (rename float feature_map data) ->
  exists n', In (n', vals) data.
Proof.
  unfold rename. intros H. apply in_map_iff in H.
  destruct H as ([n' vals'] & H & Hin). inversion H; subst. eauto.
Qed.

Lemma aggregate_records_values feature_map type ref ref_id
    (results : list (Z * list (string * list float))) :
  forall st st' : AggState,
    aggregate_records float np feature_map type ref ref_id results st
      = inr st' ->
    (forall i s,
       agg_values st' !! i = Some s ->
       agg_values st !! i = Some s \/
       exists t data n vals stat func,
         In (t, data) results /\ In (n, vals) data /\
         In (stat, func) (statistics float np) /\
         s = str float np (round float np (func vals) 6)) /\
    exists new,
      feature_values st' = feature_values st ++ new /\
      forall row i s,
        In row new -> fv_values row !! i = Some s ->
        agg_values st !! i = Some s \/
        exists t data n vals stat func,
          In (t, data) results /\ In (n, vals) data /\
          In (stat, func) (statistics float np) /\
          s = str float np (round float np (func vals) 6).
Proof.
  induction results as [| [t data] results IH]; intros st st';
    cbn [aggregate_records].
  - intros H. inversion H; subst. split; [auto |].
    exists []. rewrite app_nil_r. split; [reflexivity | contradiction].
  - destruct (aggregate_statistics float np type ref (statistics float np)
                (rename float feature_map data) st) as [e | st1] eqn:E;
      [discriminate |].
    apply aggregate_statistics_values in E. destruct E as [Hfv1 Hvals1].
    intros H. apply IH in H. simpl in H.
    destruct H as (Hvals & new & Hnew & Hrows).
    assert (Hfirst : forall i s,
      agg_values st1 !! i = Some s ->
      agg_values st !! i = Some s \/
      exists t0 data0 n vals stat func,
        In (t0, data0) ((t, data) :: results) /\ In (n, vals) data0 /\
        In (stat, func) (statistics float np) /\
        s = str float np (round float np (func vals) 6)).
    { intros i s Hi. apply Hvals1 in Hi.
      destruct Hi as [Hi | (n & vals & stat & func & Hin & Hst & Hs)];
        [auto |].
      apply in_rename in Hin. destruct Hin as [n' Hin].
      right. exists t, data, n', vals, stat, func.
      split; [left; reflexivity | auto]. }
    assert (Hlater : forall s,
      (exists t0 data0 n vals stat func,
         In (t0, data0) results /\ In (n, vals) data0 /\
         In (stat, func) (statistics float np) /\
         s = str float np (round float np (func vals) 6)) ->
      exists t0 data0 n vals stat func,
        In (t0, data0) ((t, data) :: results) /\ In (n, vals) data0 /\
        In (stat, func) (statistics float np) /\
        s = str float np (round float np (func vals) 6)).
    { intros s (t0 & data0 & n & vals & stat & func & Hin & H').
      exists t0, data0, n, vals, stat, func.
      split; [right; exact Hin | exact H']. }
    split.
    + intros i s Hi. apply Hvals in Hi.
      destruct Hi as [Hi | Hi]; [apply Hfirst; exact Hi | right; auto].
    + exists (mkFeatureValues ref_id (agg_values st1) t :: new).
      split; [rewrite Hnew, Hfv1, <- app_assoc; reflexivity |].
      intros row i s [<- | Hrow] Hi.
      * simpl in Hi. apply Hfirst. exact Hi.
      * destruct (Hrows row i s Hrow Hi) as [Hi' | Hi'];
          [apply Hfirst; exact Hi' | right; auto].
Qed.

(** Every value that [_aggregate] writes is the string of a statistic of a
    column of a record, rounded to six decimals. *)
Lemma aggregate_values_rounded feature_map type ref ref_id
    (results : list (Z * list (string * list float)))
    (features catalog' : Features) (values values' : list FeatureValues)
    (agg_features' : gmap Z string) :
  _aggregate np feature_map type ref ref_id results features values
    = inr (catalog', values', agg_features') ->
  exists new_rows,
    values' = values ++ new_rows /\
    forall row i s,
      In row new_rows -> fv_values row !! i = Some s ->
      exists t data n vals stat func,
        In (t, data) results /\ In (n, vals) data /\
        In (stat, func) (statistics float np) /\
        s = str float np (round float np (func vals) 6).
Proof.
  unfold _aggregate.
  destruct (aggregate_records float np feature_map type ref ref_id results
              (mkAggState features ∅ ∅ values)) as [e | st] eqn:E;
    [discriminate |].
  intros H. inversion H; subst; clear H.
  apply aggregate_records_values in E. simpl in E.
  destruct E as (_ & new & Hnew & Hrows).
  exists new. split; [exact Hnew |].
  intros row i s Hrow Hi.
  destruct (Hrows row i s Hrow Hi) as [H | H]; [| exact H].
  rewrite lookup_empty in H. discriminate.
Qed.

End Rounded.

End AggregateProps.

(** *** The objects that are deleted when the outputs are saved *)

Module SaveProps.
Import Py Jterator.

(** A name is never found among the descriptions of the input objects. *)
Lemma name_not_in_inputs (obj_name : string)
    (inputs : list PipelineObjectInputDescription) :
  py_in (PyStr obj_name) (map PyObjectInput inputs) = false.
Proof. induction inputs as [| d l IH]; simpl; [reflexivity | exact IH]. Qed.

Lemma in_enumerate_from {A} (l : list A) :
  forall (i t : Z) (x : A), In (t, x) (enumerate_from i l) -> In x l.
Proof.
  induction l as [| a l IH]; intros i t x; simpl; [auto |].
  intros [H | H]; [inversion H; auto | right; eapply IH; exact H].
Qed.

Section Save.

Variable float : Type.
Variable iteritems iteritems_to_save :
  gmap string (SegmentedObjects float) ->
  list (string * SegmentedObjects float).
Variable get_or_create_mapobject_type : string -> Z.
Variable get_or_create_feature : string -> Z -> Z.
Variable get_or_create_segmentation_layer : Z -> Z -> Z -> Z.
Variable layer : option Z.
Variable site_aligned_offset : option (Z * Z).
Variable df_round : float -> Z -> float.
Variable astype_str : float -> string.

Local Abbreviation session :=
  (session_objects get_or_create_mapobject_type get_or_create_feature
     get_or_create_segmentation_layer layer).
Local Abbreviation save_one :=
  (save_objects get_or_create_mapobject_type df_round astype_str).
Local Abbreviation save_outputs :=
  (_save_pipeline_outputs iteritems iteritems_to_save
     get_or_create_mapobject_type get_or_create_feature
     get_or_create_segmentation_layer layer site_aligned_offset
     df_round astype_str).

(** *** The feature values *)

Lemma fold_insert_lookup (l : list (string * string)) :
  forall (m : gmap string string) k s,
    fold_left (fun values kv => <[fst kv := snd kv]> values) l m !! k
      = Some s ->
    m !! k = Some s \/ In (k, s) l.
Proof.
  induction l as [| [k' s'] l IH]; intros m k s; simpl; [auto |].
  intros H. apply IH in H. destruct H as [H | H]; [| auto].
  destruct (decide (k' = k)) as [<- | Hne].
  - rewrite lookup_insert_eq in H. inversion H. auto.
  - rewrite lookup_insert_ne in H by exact Hne. auto.
Qed.

Lemma row_values_rounded column_lut (columns_ : list string)
    (d : list float) k s :
  row_values df_round astype_str column_lut columns_ d !! k = Some s ->
  exists v, In v d /\ s = astype_str (df_round v 6).
Proof.
  unfold row_values. intros H. apply fold_insert_lookup in H.
  destruct H as [H | H]; [rewrite lookup_empty in H; discriminate |].
  apply in_combine_r in H. apply in_map_iff in H.
  destruct H as (v & <- & Hv). eauto.
Qed.

Lemma frame_feature_values_rows column_lut mapobject_ids t
    (columns_ : list string) (rows_ : list (Z * list float)) :
  forall l,
    frame_feature_values df_round astype_str column_lut mapobject_ids t
                         columns_ rows_ = inr l ->
    Forall2 (fun r row =>
               mapobject_ids !! fst r = Some (ofv_mapobject_id row) /\
               ofv_tpoint row = t /\
               ofv_values row
                 = row_values df_round astype_str column_lut columns_ (snd r))
            rows_ l.
Proof.
  induction rows_ as [| [label d] rows_ IH]; intros l; simpl.
  - intros H. inversion H. constructor.
  - destruct (mapobject_ids !! label) as [i |] eqn:E; [| discriminate].
    destruct (frame_feature_values df_round astype_str column_lut
                mapobject_ids t columns_ rows_) as [e | l']; [discriminate |].
    intros H. inversion H; subst. constructor; [simpl; auto |].
    apply IH. reflexivity.
Qed.

Lemma frame_feature_values_rounded column_lut mapobject_ids t
    (columns_ : list string) (rows_ : list (Z * list float)) l row k s :
  frame_feature_values df_round astype_str column_lut mapobject_ids t
                       columns_ rows_ = inr l ->
  In row l -> ofv_values row !! k = Some s ->
  exists label d v,
    In (label, d) rows_ /\ In v d /\ s = astype_str (df_round v 6).
Proof.
  intros H Hrow Hk. apply frame_feature_values_rows in H.
  apply list_elem_of_In in Hrow.
  apply list_elem_of_lookup in Hrow. destruct Hrow as [j Hj].
  destruct (Forall2_lookup_r _ _ _ _ _ H Hj) as ([label d] & Hr & _ & _ & Hv).
  simpl in Hv. rewrite Hv in Hk. apply row_values_rounded in Hk.
  destruct Hk as (v & Hin & Hs). exists label, d, v.
  split; [| auto].
  apply list_elem_of_In. eapply list_elem_of_lookup_2. exact Hr.
Qed.

Lemma measurements_feature_values_rounded column_lut mapobject_ids
    (frames : list (Z * DataFrame float)) :
  forall l row k s,
    measurements_feature_values df_round astype_str column_lut
                                mapobject_ids frames = inr l ->
    In row l -> ofv_values row !! k = Some s ->
    exists t data label d v,
      In (t, data) frames /\ In (label, d) (df_rows data) /\ In v d /\
      s = astype_str (df_round v 6).
Proof.
  induction frames as [| [t data] frames IH]; intros l row k s; simpl.
  - intros H. inversion H. contradiction.
  - destruct (df_empty data).
    + intros H Hrow Hk.
      destruct (IH l row k s H Hrow Hk) as (t' & data' & label & d & v & Hin & H').
      exists t', data', label, d, v. split; [right; exact Hin | exact H'].
    + destruct (frame_feature_values df_round astype_str column_lut
                  mapobject_ids t (columns data) (df_rows data))
        as [e | l1] eqn:E1; [discriminate |].
      destruct (measurements_feature_values df_round astype_str column_lut
                  mapobject_ids frames) as [e | l2] eqn:E2; [discriminate |].
      intros H Hrow Hk. inversion H; subst l.
      apply in_app_or in Hrow. destruct Hrow as [Hrow | Hrow].
      * destruct (frame_feature_values_rounded _ _ _ _ _ _ _ _ _ E1 Hrow Hk)
          as (label & d & v & Hin & H').
        exists t, data, label, d, v. split; [left; reflexivity | auto].
      * destruct (IH l2 row k s eq_refl Hrow Hk)
          as (t' & data' & label & d & v & Hin & H').
        exists t', data', label, d, v. split; [right; exact Hin | exact H'].
Qed.

(** *** The calls *)

(** What [save_objects] returns: the deletion, the new map objects, their
    segmentations, and the feature values that are built from the
    measurements which the first part has left. *)
Lemma save_objects_returns inputs site_id (st : SessionState float)
    obj_name (segm_objs : SegmentedObjects float) first_id calls :
  save_one inputs site_id st obj_name segm_objs first_id = inr calls ->
  exists segmentations measurements_ feature_values_,
    last_measurements st = Some measurements_ /\
    measurements_feature_values df_round astype_str
      (default ∅ (feature_ids st !! obj_name))
      (mapobject_ids_of (labels segm_objs) first_id)
      (enumerate measurements_) = inr feature_values_ /\
    calls =
      [ Mapobject_delete_cascade (get_or_create_mapobject_type obj_name)
          "Site" site_id;
        Mapobject_add_multiple (get_or_create_mapobject_type obj_name)
          (length (labels segm_objs));
        MapobjectSegmentation_add_multiple segmentations;
        FeatureValues_add_multiple feature_values_ ].
Proof.
  unfold save_objects. rewrite name_not_in_inputs. simpl.
  match goal with
  | |- context [match (if ?b then ?x else ?y) with _ => _ end] =>
      destruct (if b then x else y) as [e | segmentations]; [discriminate |]
  end.
  destruct (last_measurements st) as [measurements_ |]; [| discriminate].
  destruct (measurements_feature_values df_round astype_str _ _ _)
    as [e | feature_values_] eqn:E; [discriminate |].
  intros H. inversion H. eauto 6.
Qed.

(** The calls of the second part are those of its objects. *)
Lemma save_all_calls inputs site_id (st : SessionState float)
    (items : list (string * SegmentedObjects float)) :
  forall first_id calls,
    save_all get_or_create_mapobject_type df_round astype_str inputs site_id
             st items first_id = inr calls ->
    exists parts,
      calls = concat parts /\
      Forall2 (fun item part =>
                 exists first_id',
                   save_one inputs site_id st (fst item) (snd item) first_id'
                     = inr part)
              items parts.
Proof.
  induction items as [| [obj_name segm_objs] items IH];
    intros first_id calls; simpl.
  - intros H. inversion H. exists []. split; [reflexivity | constructor].
  - destruct (save_one inputs site_id st obj_name segm_objs first_id)
      as [e | part] eqn:E; [discriminate |].
    destruct (save_all get_or_create_mapobject_type df_round astype_str
                inputs site_id st items _) as [e | calls'] eqn:E';
      [discriminate |].
    intros H. inversion H; subst calls.
    destruct (IH _ _ E') as (parts & -> & Hall).
    exists (part :: parts). split; [reflexivity |].
    constructor; [simpl; eauto | exact Hall].
Qed.

(** *** The first part *)

Lemma session_planes_state obj_name type_id (planes : list (Z * Z)) :
  forall st st' : SessionState float,
    session_planes get_or_create_segmentation_layer layer obj_name type_id
                   planes st = inr st' ->
    objects_to_save st' = objects_to_save st /\
    feature_ids st' = feature_ids st /\
    last_measurements st' = last_measurements st /\
    exists thresholds,
      session_calls st' = session_calls st ++ thresholds /\
      Forall (fun c => exists i p q, c = SegmentationLayer_thresholds i p q)
             thresholds.
Proof.
  induction planes as [| [t z] planes IH]; intros st st'; simpl.
  - intros H. inversion H; subst. repeat split.
    exists []. rewrite app_nil_r. split; [reflexivity | constructor].
  - destruct layer as [maxzoom |]; [| discriminate].
    intros H. apply IH in H. simpl in H.
    destruct H as (-> & -> & -> & thresholds & -> & Hall).
    repeat split. eexists. rewrite <- app_assoc. split; [reflexivity |].
    constructor; [eauto | exact Hall].
Qed.

(** What the first part leaves: the objects to save are objects of its
    items that are marked; the measurements are those of one of them; and
    it has set thresholds only. *)
Lemma session_objects_state (items : list (string * SegmentedObjects float)) :
  forall st st' : SessionState float,
    session items st = inr st' ->
    (forall n o, objects_to_save st' !! n = Some o ->
       objects_to_save st !! n = Some o \/
       (In (n, o) items /\ save o = true)) /\
    (forall m, last_measurements st' = Some m ->
       last_measurements st = Some m \/
       exists n o, In (n, o) items /\ save o = true /\ m = measurements o) /\
    exists thresholds,
      session_calls st' = session_calls st ++ thresholds /\
      Forall (fun c => exists i p q, c = SegmentationLayer_thresholds i p q)
             thresholds.
Proof.
  induction items as [| [obj_name segm_objs] items IH]; intros st st'; simpl.
  - intros H. inversion H; subst. split; [auto |]. split; [auto |].
    exists []. rewrite app_nil_r. split; [reflexivity | constructor].
  - destruct (session_object get_or_create_mapobject_type
                get_or_create_feature get_or_create_segmentation_layer layer
                obj_name segm_objs st) as [e | st1] eqn:E; [discriminate |].
    intros H. apply IH in H. destruct H as (Hobj & Hm & thresholds & Hc & Hall).
    unfold session_object in E.
    destruct (save segm_objs) eqn:Hsave; simpl in E.
    + destruct (measurements segm_objs) as [| first rest] eqn:Hmeas;
        [discriminate |].
      apply session_planes_state in E. simpl in E.
      destruct E as (E1 & _ & E3 & thresholds1 & E4 & Hall1).
      split; [| split].
      * intros n o Ho. apply Hobj in Ho.
        destruct Ho as [Ho | [Hin Hs]]; [| right; split; [right |]; auto].
        rewrite E1 in Ho.
        destruct (decide (obj_name = n)) as [<- | Hne].
        -- rewrite lookup_insert_eq in Ho. inversion Ho; subst o.
           right. split; [left; reflexivity | exact Hsave].
        -- rewrite lookup_insert_ne in Ho by exact Hne. auto.
      * intros m Hm'. apply Hm in Hm'.
        destruct Hm' as [Hm' | (n & o & Hin & Hs & ->)].
        -- rewrite E3 in Hm'. inversion Hm'. right.
           exists obj_name, segm_objs.
           split; [left; reflexivity |]. split; [exact Hsave | congruence].
        -- right. exists n, o. split; [right; exact Hin | auto].
      * exists (thresholds1 ++ thresholds).
        rewrite Hc, E4, <- app_assoc. split; [reflexivity |].
        apply Forall_app. auto.
    + inversion E; subst st1.
      split; [| split].
      * intros n o Ho. apply Hobj in Ho.
        destruct Ho as [Ho | [Hin Hs]]; [auto |].
        right. split; [right |]; auto.
      * intros m Hm'. apply Hm in Hm'.
        destruct Hm' as [Hm' | (n & o & Hin & Hs & ->)]; [auto |].
        right. exists n, o. split; [right; exact Hin | auto].
      * eauto.
Qed.

(** *** The values that [_save_pipeline_outputs] writes *)

(** Every feature value that [_save_pipeline_outputs] writes is the string
    of a value, rounded to six decimals, of the measurements of an object
    that was marked to be saved. *)
Lemma save_values_rounded inputs objects_output
    (store_objects : gmap string (SegmentedObjects float))
    (site_id mapobject_id_seq : Z) (calls : list db_call) :
  save_outputs inputs objects_output store_objects site_id mapobject_id_seq
    = inr calls ->
  forall l row k s,
    In (FeatureValues_add_multiple l) calls -> In row l ->
    ofv_values row !! k = Some s ->
    exists objects obj_name segm_objs data label d v,
      mark_outputs objects_output store_objects = inr objects /\
      In (obj_name, segm_objs) (iteritems objects) /\
      save segm_objs = true /\
      In data (measurements segm_objs) /\
      In (label, d) (df_rows data) /\ In v d /\
      s = astype_str (df_round v 6).
Proof.
  unfold _save_pipeline_outputs.
  destruct (mark_outputs objects_output store_objects) as [e | objects];
    [discriminate |].
  destruct (session (iteritems objects) (mkSessionState ∅ ∅ ∅ None []))
    as [e | st] eqn:Es; [discriminate |].
  destruct site_aligned_offset as [offset |]; [| discriminate].
  destruct (save_all get_or_create_mapobject_type df_round astype_str inputs
              site_id st (iteritems_to_save (objects_to_save st))
              mapobject_id_seq) as [e | calls2] eqn:E2; [discriminate |].
  intros H l row k s Hl Hrow Hk. inversion H; subst calls; clear H.
  apply session_objects_state in Es. simpl in Es.
  destruct Es as (_ & Hm & thresholds & Hc & Hall).
  apply in_app_or in Hl. destruct Hl as [Hl | Hl].
  { exfalso. rewrite Hc in Hl. rewrite Forall_forall in Hall.
    apply list_elem_of_In in Hl.
    destruct (Hall _ Hl) as (i & p & q & Hx). discriminate. }
  apply save_all_calls in E2. destruct E2 as (parts & -> & Hparts).
  apply in_concat in Hl. destruct Hl as (part & Hpart & Hl).
  apply list_elem_of_In, list_elem_of_lookup in Hpart.
  destruct Hpart as [j Hj].
  destruct (Forall2_lookup_r _ _ _ _ _ Hparts Hj)
    as ([obj_name segm_objs] & _ & first_id' & Hsave).
  apply save_objects_returns in Hsave.
  destruct Hsave as (segs & m & fv & Hlast & Hfv & ->).
  simpl in Hl.
  destruct Hl as [Hl | [Hl | [Hl | [Hl | []]]]]; try discriminate.
  inversion Hl; subst l.
  destruct (measurements_feature_values_rounded _ _ _ _ _ _ _ Hfv Hrow Hk)
    as (t & data & label & d & v & Hin & Hd & Hv & Hs).
  apply in_enumerate_from in Hin.
  destruct (Hm m Hlast) as [Hx | (n & o & Hno & Hso & ->)]; [discriminate |].
  exists objects, n, o, data, label, d, v. auto 10.
Qed.

End Save.

Import JteratorExample.

(** C7.  The nuclei are a declared input and an output of the pipeline.
    Saving the outputs of site 5 calls [Mapobject.delete_cascade] for the
    object type of the nuclei and the site before the new objects are
    added. *)
Theorem save_deletes_declared_input :
  In "Nuclei" (map input_name inputs) /\
  save_pipeline_outputs inputs objects_output store_objects
    = inr [ SegmentationLayer_thresholds 300 6 4;
            Mapobject_delete_cascade 3 "Site" 5;
            Mapobject_add_multiple 3 2;
            MapobjectSegmentation_add_multiple
              [ mkMapobjectSegmentation true 100 300 1;
                mkMapobjectSegmentation true 101 300 2 ];
            FeatureValues_add_multiple
              [ mkObjectFeatureValues 100 0 {[ "31" := "120" ]};
                mkObjectFeatureValues 101 0 {[ "31" := "95" ]} ] ].
Proof. split; [simpl; auto | vm_compute; reflexivity]. Qed.

End SaveProps.

(** ** The rounding of the feature values *)

Module RoundingProps.
Import Py Jterator RoundingExample.

(** numpy rounds the float of 1.23456789 to the float of 1.234568. *)
Lemma round_example : Binary64.round x 6 = y.
Proof. vm_compute. reflexivity. Qed.


End RoundingProps.

(** ** More on the workflow manager *)

Module WorkflowMore.
Import Py Workflow WorkflowProps WorkflowMore0.

Section Manager.

Variable Task : Type.
Variable package : Package Task.
Variable workflow_description : list (list string).
Variable super_next : list Task -> Z -> RunState.

Lemma bind_returns {A B} (c : M Task A) (k : A -> M Task B) w w' b :
  bind c k w = (w', inr b) ->
  exists w1 a, c w = (w1, inr a) /\ k a w1 = (w', inr b).
Proof.
  unfold bind. destruct (c w) as [w1 [e | a]]; [discriminate |]. eauto.
Qed.

Lemma lift_returns {A} (r : result A) (w w' : World Task) a :
  lift r w = (w', inr a) -> w' = w /\ r = inr a.
Proof. unfold lift. intros H. inversion H. auto. Qed.

Lemma all_exists_true (fs : FS) (l : list string) :
  all (map (os_path_exists fs) l) = true -> forall p, In p l -> p ∈ fs.
Proof.
  unfold all. induction l as [| q l IH]; simpl; [contradiction |].
  intros H p [-> | Hp].
  - apply andb_true_iff in H. destruct H as [H _].
    unfold os_path_exists in H. apply bool_decide_eq_true in H. exact H.
  - apply andb_true_iff in H. destruct H as [_ H]. auto.
Qed.

(** What [_create_jobs_for_step] has done when it returns. *)
Lemma create_jobs_returns (step : list string) (w w' : World Task) (t : Task) :
  _create_jobs_for_step package step w = (w', inr t) ->
  exists c,
    init_instance package step = inr c /\
    (forall p, In p (required_inputs c) -> p ∈ snd w) /\
    tasks (fst w') = tasks (fst w) /\
    expected_outputs (fst w')
      = expected_outputs (fst w) ++ [expected_outputs_of c].
Proof.
  unfold _create_jobs_for_step, init_instance. intros H.
  apply bind_returns in H. destruct H as (w1 & prog_name & H1 & H).
  apply lift_returns in H1. destruct H1 as [-> Hprog]. rewrite Hprog.
  apply bind_returns in H. destruct H as (w1 & parser & H1 & H).
  apply lift_returns in H1. destruct H1 as [-> Hparser]. rewrite Hparser.
  apply bind_returns in H. destruct H as (w1 & cli_module & H1 & H).
  apply lift_returns in H1. destruct H1 as [-> Hcli]. rewrite Hcli.
  apply bind_returns in H. destruct H as (w1 & args & H1 & H).
  apply lift_returns in H1. destruct H1 as [-> Hargs]. rewrite Hargs.
  apply bind_returns in H. destruct H as (w1 & c & H1 & H).
  apply lift_returns in H1. destruct H1 as [-> Hc].
  exists c. split; [exact Hc |].
  apply bind_returns in H. destruct H as (w1 & fs & H1 & H).
  inversion H1; subst w1 fs; clear H1.
  apply bind_returns in H. destruct H as (w1 & u & H1 & H).
  destruct (all (map (os_path_exists (snd w)) (required_inputs c))) eqn:Hall;
    simpl in H1; [| discriminate].
  inversion H1; subst w1; clear H1.
  split; [apply all_exists_true; exact Hall |].
  apply bind_returns in H. destruct H as (w1 & u1 & H1 & H).
  assert (Hm : fst w1 = fst w).
  { unfold call_method in H1.
    destruct (getattr c (method_name args)) as [f |]; [| discriminate].
    destruct (f (snd w)) as [fs' [e |]]; inversion H1; reflexivity. }
  apply bind_returns in H. destruct H as (w2 & u2 & H2 & H).
  inversion H2; subst w2; clear H2.
  cbv beta in H.
  match type of H with
  | ?c ?w0 = _ =>
      assert (Hrest : respects (fun a b : World Task => fst b = fst a) c)
  end.
  { repeat (first [ apply respects_bind; [congruence | | intros ?]
                  | apply respects_lift; reflexivity
                  | apply respects_get_manager; reflexivity ]). }
  apply Hrest in H. simpl in H. rewrite H. simpl. rewrite Hm. auto.
Qed.


(** What [_add_step] has checked and done when it returns *)
Lemma add_step_inr (index : Z) (w w' : World Task) :
  _add_step package workflow_description index w = (w', inr tt) ->
  exists step c t,
    getitem workflow_description index = inr step /\
    init_instance package step = inr c /\
    (forall p, In p (required_inputs c) -> p ∈ snd w) /\
    (0 < index ->
     exists outputs,
       getitem (expected_outputs (fst w)) (-1) = inr outputs /\
       forall p, In p outputs -> p ∈ snd w) /\
    tasks (fst w') = tasks (fst w) ++ [t] /\
    expected_outputs (fst w')
      = expected_outputs (fst w) ++ [expected_outputs_of c].
Proof.
  unfold _add_step. intros H.
  apply bind_returns in H. destruct H as (w1 & m & H1 & H).
  inversion H1; subst w1 m; clear H1.
  apply bind_returns in H. destruct H as (w1 & fs & H1 & H).
  inversion H1; subst w1 fs; clear H1.
  apply bind_returns in H. destruct H as (w1 & u & Hcheck & H).
  assert (Hout : w1 = w /\
    (0 < index ->
     exists outputs,
       getitem (expected_outputs (fst w)) (-1) = inr outputs /\
       forall p, In p outputs -> p ∈ snd w)).
  { destruct (0 <? index) eqn:Hpos.
    - apply bind_returns in Hcheck.
      destruct Hcheck as (w2 & outputs & H2 & Hcheck).
      apply lift_returns in H2. destruct H2 as [-> Hlast].
      destruct (all (map (os_path_exists (snd w)) outputs)) eqn:Hall;
        simpl in Hcheck; [| discriminate].
      inversion Hcheck; subst w1. split; [reflexivity |].
      intros _. exists outputs. split; [exact Hlast |].
      apply all_exists_true. exact Hall.
    - inversion Hcheck; subst w1. split; [reflexivity |].
      apply Z.ltb_ge in Hpos. lia. }
  destruct Hout as [-> Hout].
  apply bind_returns in H. destruct H as (w1 & step & H1 & H).
  apply lift_returns in H1. destruct H1 as [-> Hstep].
  apply bind_returns in H. destruct H as (w1 & t & H1 & H).
  apply create_jobs_returns in H1.
  destruct H1 as (c & Hc & Hreq & Htasks & Hexp).
  inversion H; subst w'; clear H.
  exists step, c, t. simpl. rewrite Htasks, Hexp. auto 10.
Qed.

(** X1.  When [_add_step] returns, the step at [index] could be set up, all
    its required inputs exist, for [index > 0] all expected outputs
    registered last exist, and exactly one task and the expected outputs of
    the step have been appended. *)
Theorem add_step_returns (index : Z) (w w' : World Task) :
  _add_step package workflow_description index w = (w', inr tt) ->
  exists step c t,
    getitem workflow_description index = inr step /\
    init_instance package step = inr c /\
    (forall p, In p (required_inputs c) -> p ∈ snd w) /\
    (0 < index ->
     exists outputs,
       getitem (expected_outputs (fst w)) (-1) = inr outputs /\
       forall p, In p outputs -> p ∈ snd w) /\
    tasks (fst w') = tasks (fst w) ++ [t] /\
    expected_outputs (fst w')
      = expected_outputs (fst w) ++ [expected_outputs_of c].
Proof. exact (add_step_inr index w w'). Qed.

(** X2.  A step whose command does not contain the word [init]: when its
    inputs exist and its method runs, the expected outputs are registered,
    the files are those the method leaves, and [ValueError] is raised; the
    step gets no task. *)
Theorem create_jobs_without_init (step : list string) (prog_name : string)
    (parser : list string -> result Args) (cli_module : Args -> result (Cli Task))
    (args : Args) (c : Cli Task) (f : FS -> FS * option exception)
    (m : Manager Task) (fs fs' : FS) :
  getitem step 0 = inr prog_name ->
  import_argparser package ("tmlib." +:+ prog_name +:+ ".argparser")
    = inr parser ->
  import_cli package ("tmlib." +:+ prog_name +:+ ".cli") = inr cli_module ->
  parser (skipn 1 step) = inr args ->
  cli_module args = inr c ->
  (forall p, In p (required_inputs c) -> p ∈ fs) ->
  getattr c (method_name args) = Some f ->
  f fs = (fs', None) ->
  index "init" (skipn 1 step) = None ->
  _create_jobs_for_step package step (m, fs) =
    ((append_expected_outputs (expected_outputs_of c) m, fs'),
     inl ValueError).
Proof.
  intros Hprog Hparser Hcli Hargs Hc Hreq Hattr Hf Hinit.
  unfold _create_jobs_for_step, bind, lift, get_fs, get_manager,
    modify_manager, call_method, raise, ret.
  rewrite Hprog, Hparser, Hcli, Hargs, Hc. simpl.
  assert (Hall : all (map (os_path_exists fs) (required_inputs c)) = true).
  { unfold all. apply forallb_forall. intros b Hb.
    apply in_map_iff in Hb. destruct Hb as (p & <- & Hp).
    unfold os_path_exists. apply bool_decide_eq_true. auto. }
  rewrite Hall. simpl. rewrite Hattr, Hf. simpl. rewrite Hinit. reflexivity.
Qed.

(** X3.  One call of [next] never removes a task and adds at most one,
    forgets no registered outputs, leaves the halt flag, changes the exit
    code to zero or not at all, and when it returns [TERMINATED] the exit
    code is zero. *)
Theorem next_effect (done : Z) (w : World Task) :
  let w' := fst (next package workflow_description super_next done w) in
  let state := snd (next package workflow_description super_next done w) in
  stopped (fst w') = stopped (fst w) /\
  (exists l, tasks (fst w') = tasks (fst w) ++ l /\ (length l <= 1)%nat) /\
  (exists l, expected_outputs (fst w') = expected_outputs (fst w) ++ l) /\
  (exitcode (fst w') = exitcode (fst w) \/ exitcode (fst w') = Some 0) /\
  (state = inr TERMINATED -> exitcode (fst w') = Some 0).
Proof.
  intros w' state. subst w' state. unfold next.
  destruct (done + 1 <? Z.of_nat (length workflow_description)).
  - destruct (_add_step package workflow_description (done + 1) w)
      as [w1 [e | []]] eqn:E.
    + destruct (add_step_error_frame _ _ _ _ _ _ _ E) as [Ht Hs].
      destruct (add_step_same_flags _ _ _ _ _ _ _ E) as [_ Hx].
      destruct (add_step_registers _ _ _ _ _ _ _ E) as [l Hl].
      destruct (is_Exception e).
      * simpl. case_eq (stopped (fst w1)); intros Hst; simpl;
          (split; [simpl; congruence |]);
          (split; [exists []; rewrite app_nil_r; auto |]);
          (split; [exists l; exact Hl |]);
          (split; [auto | try discriminate; auto]).
      * simpl. split; [exact Hs |].
        split; [exists []; rewrite app_nil_r; auto |].
        split; [exists l; exact Hl |].
        split; [left; exact Hx | discriminate].
    + destruct (add_step_same_flags _ _ _ _ _ _ _ E) as [Hs Hx].
      destruct (add_step_inr _ _ _ E)
        as (step & c & t & _ & _ & _ & _ & Ht & He).
      destruct (super_next (tasks (fst w1)) done); simpl;
        try (split; [exact Hs |]; split; [exists [t]; auto |];
             split; [eexists; exact He |];
             split; [left; exact Hx | discriminate]).
      case_eq (stopped (fst w1)); intros Hst; simpl;
        (split; [simpl; congruence |]; split; [exists [t]; auto |];
         split; [eexists; exact He |]; auto).
  - assert (Ht : exists l : list Task,
               tasks (fst w) = tasks (fst w) ++ l /\ (length l <= 1)%nat)
      by (exists []; rewrite app_nil_r; auto).
    assert (He : exists l : list (list string),
               expected_outputs (fst w) = expected_outputs (fst w) ++ l)
      by (exists []; rewrite app_nil_r; auto).
    destruct (super_next (tasks (fst w)) done); simpl;
      try (split; [reflexivity |]; split; [exact Ht |];
           split; [exact He |]; split; [left; reflexivity | discriminate]).
    case_eq (stopped (fst w)); intros Hst; simpl;
      (split; [simpl; congruence |]; split; [exact Ht |];
       split; [exact He |]; auto).
Qed.

End Manager.

Lemma add_step_returns_witness :
  let w := (WorkflowExample.manager,
            {["/exp/metadata.json"]} ∪ WorkflowExample.files) in
  let w' := fst (_add_step WorkflowExample.package
                   WorkflowExample.workflow_description 1 w) in
  exists step c t,
    getitem WorkflowExample.workflow_description 1 = inr step /\
    init_instance WorkflowExample.package step = inr c /\
    (forall p, In p (required_inputs c) -> p ∈ snd w) /\
    (0 < 1 ->
     exists outputs,
       getitem (expected_outputs (fst w)) (-1) = inr outputs /\
       forall p, In p outputs -> p ∈ snd w) /\
    tasks (fst w') = tasks (fst w) ++ [t] /\
    expected_outputs (fst w')
      = expected_outputs (fst w) ++ [expected_outputs_of c].
Proof.
  intros w w'.
  apply (add_step_returns string WorkflowExample.package
           WorkflowExample.workflow_description 1 w w').
  vm_compute. reflexivity.
Defined.

Lemma create_jobs_without_init_witness :
  _create_jobs_for_step WorkflowExample2.package WorkflowExample2.step
    (WorkflowExample2.manager, WorkflowExample2.files) =
    ((append_expected_outputs ["/exp/shifts.json"] WorkflowExample2.manager,
      {["/exp/align.jobs"]} ∪ WorkflowExample2.files),
     inl ValueError).
Proof.
  apply (create_jobs_without_init string WorkflowExample2.package
           WorkflowExample2.step "align" WorkflowExample2.parser
           WorkflowExample2.Align (mkArgs "run" ["/exp"; "run"])
           (mkCli ["/exp/metadata.json"] ["/exp/shifts.json"]
              (fun name => if String.eqb name "init" || String.eqb name "run"
                           then Some (fun fs : FS =>
                                        ({["/exp/align.jobs"]} ∪ fs, None))
                           else None)
              (inr "align"))
           (fun fs : FS => ({["/exp/align.jobs"]} ∪ fs, None))).
  - reflexivity.
  - reflexivity.
  - reflexivity.
  - reflexivity.
  - reflexivity.
  - intros p [<- | []]. vm_compute. reflexivity.
  - reflexivity.
  - reflexivity.
  - reflexivity.
Defined.

Lemma next_effect_witness :
  let r := next WorkflowExample.package WorkflowExample.workflow_description
             WorkflowExample.super_next 0
             (WorkflowExample.manager, WorkflowExample.files) in
  stopped (fst (fst r)) = stopped WorkflowExample.manager /\
  (exists l, tasks (fst (fst r)) = tasks WorkflowExample.manager ++ l /\
             (length l <= 1)%nat) /\
  (exists l, expected_outputs (fst (fst r))
             = expected_outputs WorkflowExample.manager ++ l) /\
  (exitcode (fst (fst r)) = exitcode WorkflowExample.manager \/
   exitcode (fst (fst r)) = Some 0) /\
  (snd r = inr TERMINATED -> exitcode (fst (fst r)) = Some 0).
Proof.
  exact (next_effect string WorkflowExample.package
           WorkflowExample.workflow_description WorkflowExample.super_next 0
           (WorkflowExample.manager, WorkflowExample.files)).
Defined.

End WorkflowMore.

(** ** More on saving the outputs of a pipeline *)

Module SaveMore.
Import Py Jterator JteratorMore SaveProps.

(** X4.  The thresholds are not negative, the threshold for centroids is
    not above the one for polygons, and they are the highest zoom level
    less three and less five, cut off at zero. *)
Theorem zoom_thresholds (maxzoom_level_index : Z) :
  let p := polygon_threshold maxzoom_level_index in
  let c := centroid_threshold p in
  0 <= c <= p /\
  p = Z.max 0 (maxzoom_level_index - 3) /\
  c = Z.max 0 (maxzoom_level_index - 5).
Proof.
  unfold polygon_threshold, centroid_threshold. simpl.
  destruct (maxzoom_level_index - 3 <? 0) eqn:E1.
  - apply Z.ltb_lt in E1. simpl. lia.
  - apply Z.ltb_ge in E1.
    destruct (maxzoom_level_index - 3 - 2 <? 0) eqn:E2.
    + apply Z.ltb_lt in E2. lia.
    + apply Z.ltb_ge in E2. lia.
Qed.

Section Save.

Variable float : Type.
Variable iteritems iteritems_to_save :
  gmap string (SegmentedObjects float) ->
  list (string * SegmentedObjects float).
Variable get_or_create_mapobject_type : string -> Z.
Variable get_or_create_feature : string -> Z -> Z.
Variable get_or_create_segmentation_layer : Z -> Z -> Z -> Z.
Variable layer : option Z.
Variable site_aligned_offset : option (Z * Z).
Variable df_round : float -> Z -> float.
Variable astype_str : float -> string.

(** The dictionaries give each of their items once, in some order. *)
Hypothesis iteritems_items :
  forall m, Permutation (iteritems m) (map_to_list m).
Hypothesis iteritems_to_save_items :
  forall m, Permutation (iteritems_to_save m) (map_to_list m).

Local Abbreviation session :=
  (session_objects get_or_create_mapobject_type get_or_create_feature
     get_or_create_segmentation_layer layer).
Local Abbreviation save_one :=
  (save_objects get_or_create_mapobject_type df_round astype_str).
Local Abbreviation save_outputs :=
  (_save_pipeline_outputs iteritems iteritems_to_save
     get_or_create_mapobject_type get_or_create_feature
     get_or_create_segmentation_layer layer site_aligned_offset
     df_round astype_str).

(** [mark_outputs] raises only [KeyError], and only for an output that is
    not in the store. *)
Lemma mark_outputs_raises (outs : list PipelineObjectOutputDescription) :
  forall (objs : gmap string (SegmentedObjects float)) (e : exception),
    mark_outputs outs objs = inl e ->
    e = KeyError /\
    exists item, In item outs /\ objs !! output_name item = None.
Proof.
  induction outs as [| item outs IH]; intros objs e; simpl; [discriminate |].
  destruct (objs !! output_name item) as [o |] eqn:E.
  - intros H. apply IH in H. destruct H as (-> & item' & Hin & Hnone).
    split; [reflexivity |]. exists item'. split; [right; exact Hin |].
    destruct (decide (output_name item = output_name item')) as [Heq | Hne].
    + rewrite <- Heq, lookup_insert_eq in Hnone. discriminate.
    + rewrite lookup_insert_ne in Hnone by exact Hne. exact Hnone.
  - intros H. inversion H. split; [reflexivity |].
    exists item. split; [left; reflexivity | exact E].
Qed.

(** What [mark_outputs] returns: the same objects with the same labels and
    measurements, those of the outputs marked to be saved. *)
Lemma mark_outputs_returns (outs : list PipelineObjectOutputDescription) :
  forall (objs objs' : gmap string (SegmentedObjects float)),
    mark_outputs outs objs = inr objs' ->
    (forall n, objs !! n = None -> objs' !! n = None) /\
    (forall n o, objs !! n = Some o ->
       exists o', objs' !! n = Some o' /\ labels o' = labels o /\
         measurements o' = measurements o /\
         (save o' = true <->
          save o = true \/ In n (map output_name outs))).
Proof.
  induction outs as [| item outs IH]; intros objs objs'; simpl.
  - intros H. inversion H; subst.
    split; [auto |]. intros n o Ho. exists o. intuition.
  - destruct (objs !! output_name item) as [o0 |] eqn:E; [| discriminate].
    intros H. apply IH in H. destruct H as (Hnone & Hlab).
    split.
    + intros n Hn. apply Hnone.
      destruct (decide (output_name item = n)) as [<- | Hne];
        [congruence |].
      rewrite lookup_insert_ne by exact Hne. exact Hn.
    + intros n o Ho.
      destruct (decide (output_name item = n)) as [<- | Hne].
      * destruct (Hlab (output_name item)
                    (mkSegmentedObjects true (as_polygons item) (labels o0)
                       (measurements o0) (iter_planes o0) (iter_polygons o0)
                       (iter_points o0)))
          as (o' & Ho' & Hl & Hm & Hs); [apply lookup_insert_eq |].
        exists o'. split; [exact Ho' |]. simpl in *.
        assert (o0 = o) by congruence. subst o0.
        split; [exact Hl |]. split; [exact Hm |]. split; [auto |].
        intros _. apply Hs. left. reflexivity.
      * destruct (Hlab n o) as (o' & Ho' & Hl & Hm & Hs);
          [rewrite lookup_insert_ne by exact Hne; exact Ho |].
        exists o'. split; [exact Ho' |]. split; [exact Hl |].
        split; [exact Hm |]. rewrite Hs. intuition.
Qed.

Lemma in_iteritems (m : gmap string (SegmentedObjects float)) n o :
  In (n, o) (iteritems m) <-> m !! n = Some o.
Proof.
  rewrite <- elem_of_map_to_list, <- list_elem_of_In.
  split; intros H.
  - rewrite <- (iteritems_items m). exact H.
  - rewrite (iteritems_items m). exact H.
Qed.

Lemma in_iteritems_to_save (m : gmap string (SegmentedObjects float)) n o :
  In (n, o) (iteritems_to_save m) <-> m !! n = Some o.
Proof.
  rewrite <- elem_of_map_to_list, <- list_elem_of_In.
  split; intros H.
  - rewrite <- (iteritems_to_save_items m). exact H.
  - rewrite (iteritems_to_save_items m). exact H.
Qed.

Lemma iteritems_NoDup (m : gmap string (SegmentedObjects float)) :
  NoDup (map fst (iteritems m)).
Proof.
  assert (H : Permutation (map fst (iteritems m)) (map fst (map_to_list m)))
    by (apply Permutation_map, iteritems_items).
  rewrite H. apply NoDup_fst_map_to_list.
Qed.

(** The first part keeps every marked object of its items, when the items
    have distinct names. *)
Lemma session_objects_saved (items : list (string * SegmentedObjects float)) :
  forall st st' : SessionState float,
    NoDup (map fst items) ->
    session items st = inr st' ->
    (forall n o, In (n, o) items -> save o = true ->
                 objects_to_save st' !! n = Some o) /\
    (forall n o, objects_to_save st !! n = Some o ->
                 ~ In n (map fst items) ->
                 objects_to_save st' !! n = Some o).
Proof.
  induction items as [| [obj_name segm_objs] items IH]; intros st st' Hnd;
    simpl.
  - intros H. inversion H; subst. split; [contradiction | auto].
  - simpl in Hnd. apply NoDup_cons in Hnd. destruct Hnd as [Hfresh Hnd].
    destruct (session_object get_or_create_mapobject_type
                get_or_create_feature get_or_create_segmentation_layer layer
                obj_name segm_objs st) as [e | st1] eqn:E; [discriminate |].
    intros H. destruct (IH st1 st' Hnd H) as [Hin Hkeep].
    assert (Hst1 : objects_to_save st1
                   = if save segm_objs
                     then <[obj_name := segm_objs]> (objects_to_save st)
                     else objects_to_save st).
    { unfold session_object in E. destruct (save segm_objs); simpl in E.
      - destruct (measurements segm_objs); [discriminate |].
        apply session_planes_state in E. simpl in E. tauto.
      - inversion E. reflexivity. }
    split.
    + intros n o [Heq | Hno] Hs; [| auto].
      inversion Heq; subst n o. apply Hkeep.
      * rewrite Hst1, Hs. apply lookup_insert_eq.
      * intros Hx. apply Hfresh. apply list_elem_of_In. exact Hx.
    + intros n o Ho Hn. apply Hkeep; [| tauto].
      rewrite Hst1. destruct (save segm_objs); [| exact Ho].
      rewrite lookup_insert_ne; [exact Ho |]. intros ->. tauto.
Qed.

(** The objects that the second part saves are the marked objects. *)
Lemma objects_to_save_marked
    (objects : gmap string (SegmentedObjects float))
    (st : SessionState float) n o :
  session (iteritems objects) (mkSessionState ∅ ∅ ∅ None []) = inr st ->
  objects_to_save st !! n = Some o <->
  objects !! n = Some o /\ save o = true.
Proof.
  intros Hs. split.
  - intros Ho. apply session_objects_state in Hs. destruct Hs as [Hobj _].
    apply Hobj in Ho. destruct Ho as [Ho | [Hin Hsave]].
    + simpl in Ho. rewrite lookup_empty in Ho. discriminate.
    + split; [apply in_iteritems; exact Hin | exact Hsave].
  - intros [Ho Hsave].
    apply session_objects_saved in Hs; [| apply iteritems_NoDup].
    destruct Hs as [Hin _]. apply Hin; [| exact Hsave].
    apply in_iteritems. exact Ho.
Qed.

(** When the saving returns: the state that the first part has left, and
    the calls of the second part for the marked objects. *)
Lemma save_returns inputs objects_output
    (store_objects : gmap string (SegmentedObjects float))
    (site_id mapobject_id_seq : Z) (calls : list db_call) :
  save_outputs inputs objects_output store_objects site_id mapobject_id_seq
    = inr calls ->
  exists objects st thresholds parts,
    mark_outputs objects_output store_objects = inr objects /\
    session (iteritems objects) (mkSessionState ∅ ∅ ∅ None []) = inr st /\
    Forall (fun c => exists i p q, c = SegmentationLayer_thresholds i p q)
           thresholds /\
    calls = thresholds ++ concat parts /\
    Forall2 (fun item part =>
               exists first_id',
                 save_one inputs site_id st (fst item) (snd item) first_id'
                   = inr part)
            (iteritems_to_save (objects_to_save st)) parts.
Proof.
  unfold _save_pipeline_outputs.
  destruct (mark_outputs objects_output store_objects) as [e | objects];
    [discriminate |].
  destruct (session (iteritems objects) (mkSessionState ∅ ∅ ∅ None []))
    as [e | st] eqn:Es; [discriminate |].
  destruct site_aligned_offset as [offset |]; [| discriminate].
  destruct (save_all get_or_create_mapobject_type df_round astype_str inputs
              site_id st (iteritems_to_save (objects_to_save st))
              mapobject_id_seq) as [e | calls2] eqn:E2; [discriminate |].
  intros H. inversion H; subst calls; clear H.
  pose proof Es as Es'. apply session_objects_state in Es'. simpl in Es'.
  destruct Es' as (_ & _ & thresholds & Hc & Hall).
  apply save_all_calls in E2. destruct E2 as (parts & -> & Hparts).
  exists objects, st, thresholds, parts. rewrite Hc. auto.
Qed.

(** *** When the saving raises *)

Lemma polygon_segmentations_raises obj_name mapobject_ids layer_ids
    (polygons : list (Z * Z * Z * bool)) e :
  polygon_segmentations obj_name mapobject_ids layer_ids polygons = inl e ->
  e = KeyError.
Proof.
  induction polygons as [| [[[t z] label] is_empty] polygons IH]; simpl;
    [discriminate |].
  destruct is_empty; [exact IH |].
  destruct (mapobject_ids !! label);
    [| intros H; inversion H; reflexivity].
  destruct (layer_ids !! (obj_name, t, z));
    [| intros H; inversion H; reflexivity].
  destruct (polygon_segmentations obj_name mapobject_ids layer_ids polygons);
    [| discriminate].
  intros H. inversion H; subst. apply IH. reflexivity.
Qed.

Lemma point_segmentations_raises obj_name mapobject_ids layer_ids
    (points : list (Z * Z * Z)) e :
  point_segmentations obj_name mapobject_ids layer_ids points = inl e ->
  e = KeyError.
Proof.
  induction points as [| [[t z] label] points IH]; simpl; [discriminate |].
  destruct (mapobject_ids !! label);
    [| intros H; inversion H; reflexivity].
  destruct (layer_ids !! (obj_name, t, z));
    [| intros H; inversion H; reflexivity].
  destruct (point_segmentations obj_name mapobject_ids layer_ids points);
    [| discriminate].
  intros H. inversion H; subst. apply IH. reflexivity.
Qed.

Lemma frame_feature_values_raises column_lut mapobject_ids t
    (columns_ : list string) (rows_ : list (Z * list float)) e :
  frame_feature_values df_round astype_str column_lut mapobject_ids t
                       columns_ rows_ = inl e ->
  e = KeyError.
Proof.
  induction rows_ as [| [label d] rows_ IH]; simpl; [discriminate |].
  destruct (mapobject_ids !! label);
    [| intros H; inversion H; reflexivity].
  destruct (frame_feature_values df_round astype_str column_lut mapobject_ids
              t columns_ rows_); [| discriminate].
  intros H. inversion H; subst. apply IH. reflexivity.
Qed.

Lemma measurements_feature_values_raises column_lut mapobject_ids
    (frames : list (Z * DataFrame float)) e :
  measurements_feature_values df_round astype_str column_lut mapobject_ids
                              frames = inl e ->
  e = KeyError.
Proof.
  induction frames as [| [t data] frames IH]; simpl; [discriminate |].
  destruct (df_empty data); [exact IH |].
  destruct (frame_feature_values df_round astype_str column_lut mapobject_ids
              t (columns data) (df_rows data)) as [e1 | l1] eqn:E1.
  - intros H. inversion H; subst.
    eapply frame_feature_values_raises. exact E1.
  - destruct (measurements_feature_values df_round astype_str column_lut
                mapobject_ids frames); [| discriminate].
    intros H. inversion H; subst. apply IH. reflexivity.
Qed.

(** The second part raises [KeyError] only, once the first part has bound
    [measurements]. *)
Lemma save_all_raises inputs site_id (st : SessionState float)
    (items : list (string * SegmentedObjects float)) :
  forall first_id e,
    is_Some (last_measurements st) ->
    save_all get_or_create_mapobject_type df_round astype_str inputs site_id
             st items first_id = inl e ->
    e = KeyError.
Proof.
  induction items as [| [obj_name segm_objs] items IH];
    intros first_id e Hm; simpl; [discriminate |].
  destruct (save_one inputs site_id st obj_name segm_objs first_id)
    as [e1 | part] eqn:E.
  - intros H. inversion H; subst e1. clear H. unfold save_objects in E.
    match type of E with
    | context [match (if ?b then ?x else ?y) with _ => _ end] =>
        destruct (if b then x else y) as [e1 | segmentations] eqn:Es
    end.
    + inversion E; subst e1.
      destruct (represent_as_polygons segm_objs);
        [eapply polygon_segmentations_raises
        | eapply point_segmentations_raises]; exact Es.
    + destruct Hm as [m Hm]. rewrite Hm in E.
      destruct (measurements_feature_values df_round astype_str _ _ _)
        as [e1 | fv] eqn:Ef; [| discriminate].
      inversion E; subst e1.
      eapply measurements_feature_values_raises. exact Ef.
  - destruct (save_all get_or_create_mapobject_type df_round astype_str
                inputs site_id st items _) as [e1 | calls'] eqn:E';
      [| discriminate].
    intros H. inversion H; subst e1. eapply IH; eassumption.
Qed.

(** The ids of the new map objects are those of the labels. *)
Lemma mapobject_ids_of_labels (labels_ : list Z) (first_id label : Z) :
  is_Some (mapobject_ids_of labels_ first_id !! label) -> In label labels_.
Proof.
  unfold mapobject_ids_of, enumerate.
  assert (H : forall (l : list Z) (i : Z) (d : gmap Z Z),
    is_Some (fold_left (fun d il => <[snd il := first_id + fst il]> d)
                       (enumerate_from i l) d !! label) ->
    is_Some (d !! label) \/ In label l).
  { induction l as [| a l IH]; intros i d; simpl; [auto |].
    intros Hs. apply IH in Hs. destruct Hs as [Hs | Hs]; [| auto].
    destruct (decide (a = label)) as [-> | Hne]; [auto |].
    rewrite lookup_insert_ne in Hs by exact Hne. auto. }
  intros Hs. apply H in Hs. destruct Hs as [[x Hx] | Hs]; [| exact Hs].
  rewrite lookup_empty in Hx. discriminate.
Qed.

Lemma in_enumerate_from_r {A} (l : list A) (x : A) :
  In x l -> forall i, exists t, In (t, x) (enumerate_from i l).
Proof.
  induction l as [| a l IH]; [contradiction |].
  intros [-> | Hx] i; simpl; [eauto |].
  destruct (IH Hx (i + 1)) as [t Ht]. eauto.
Qed.

(** When the feature values are built, every label of a frame that is not
    empty has a map object. *)
Lemma measurements_feature_values_labels column_lut mapobject_ids
    (frames : list (Z * DataFrame float)) l t data label d :
  measurements_feature_values df_round astype_str column_lut mapobject_ids
                              frames = inr l ->
  In (t, data) frames -> df_empty data = false ->
  In (label, d) (df_rows data) ->
  is_Some (mapobject_ids !! label).
Proof.
  revert l. induction frames as [| [t' data'] frames IH]; intros l; simpl;
    [contradiction |].
  destruct (df_empty data') eqn:Hempty.
  - intros H [Heq | Hin] He Hrow; [congruence | eauto].
  - destruct (frame_feature_values df_round astype_str column_lut
                mapobject_ids t' (columns data') (df_rows data'))
      as [e | l1] eqn:E1; [discriminate |].
    destruct (measurements_feature_values df_round astype_str column_lut
                mapobject_ids frames) as [e | l2] eqn:E2; [discriminate |].
    intros _ [Heq | Hin] He Hrow; [| eauto].
    inversion Heq; subst t' data'.
    apply frame_feature_values_rows in E1.
    apply list_elem_of_In, list_elem_of_lookup in Hrow.
    destruct Hrow as [j Hj].
    destruct (Forall2_lookup_l _ _ _ _ _ E1 Hj) as (row & _ & Hid & _).
    simpl in Hid. eauto.
Qed.

(** With a channel layer, the first part returns when every marked object
    has measurements. *)
Lemma session_planes_returns obj_name type_id (planes : list (Z * Z)) :
  is_Some layer ->
  forall st : SessionState float,
    exists st',
      session_planes get_or_create_segmentation_layer layer obj_name type_id
                     planes st = inr st'.
Proof.
  intros [maxzoom Hl]. induction planes as [| [t z] planes IH]; intros st;
    cbn [session_planes]; [eauto |].
  destruct layer as [maxzoom' |]; [apply IH | discriminate].
Qed.

Lemma session_objects_returns (items : list (string * SegmentedObjects float)) :
  is_Some layer ->
  (forall n o, In (n, o) items -> save o = true -> measurements o <> []) ->
  forall st : SessionState float, exists st', session items st = inr st'.
Proof.
  intros Hl. induction items as [| [obj_name segm_objs] items IH];
    intros Hm st; simpl; [eauto |].
  assert (H1 : exists st1,
    session_object get_or_create_mapobject_type get_or_create_feature
      get_or_create_segmentation_layer layer obj_name segm_objs st = inr st1).
  { unfold session_object. destruct (save segm_objs) eqn:Hs; simpl; [| eauto].
    destruct (measurements segm_objs) eqn:Hmeas.
    - exfalso. eapply Hm; [left; reflexivity | exact Hs | exact Hmeas].
    - apply session_planes_returns. exact Hl. }
  destruct H1 as [st1 ->]. apply IH.
  intros n o Hin. apply (Hm n). right. exact Hin.
Qed.

(** Once an object is handled in the first part, [measurements] stays
    bound. *)
Lemma session_objects_bound (items : list (string * SegmentedObjects float)) :
  forall st st' : SessionState float,
    session items st = inr st' ->
    is_Some (last_measurements st) \/
    (exists n o, In (n, o) items /\ save o = true) ->
    is_Some (last_measurements st').
Proof.
  induction items as [| [n o] items IH]; intros st st'; simpl.
  - intros H. inversion H; subst.
    intros [Hs | (n & o & [] & _)]. exact Hs.
  - destruct (session_object get_or_create_mapobject_type
                get_or_create_feature get_or_create_segmentation_layer
                layer n o st) as [e | st1] eqn:E; [discriminate |].
    intros H Hb. eapply IH; [exact H |].
    unfold session_object in E. destruct (save o) eqn:Hs; simpl in E.
    + destruct (measurements o); [discriminate |].
      apply session_planes_state in E. simpl in E.
      destruct E as (_ & _ & -> & _). left. eauto.
    + inversion E; subst st1.
      destruct Hb as [Hb | (n' & o' & [Heq | Hin] & Hs')]; [auto | | eauto].
      inversion Heq; subst. congruence.
Qed.

(** X5.  Let the pipeline have a channel layer and a site, let the marking
    of the outputs return, and let two objects at least be marked to be
    saved.  If the measurements of every marked object have, in a frame
    that is not empty, a label that another marked object does not have,
    whichever the other object is, then [_save_pipeline_outputs] raises
    [KeyError]: the feature values of every object are built from the
    measurements of the object that was handled last in the first part. *)
Theorem save_raises_other_labels inputs objects_output
    (store_objects objects : gmap string (SegmentedObjects float))
    (site_id mapobject_id_seq : Z)
    (n1 n2 : string) (o1 o2 : SegmentedObjects float) :
  is_Some layer -> is_Some site_aligned_offset ->
  mark_outputs objects_output store_objects = inr objects ->
  objects !! n1 = Some o1 -> save o1 = true ->
  objects !! n2 = Some o2 -> save o2 = true ->
  n1 <> n2 ->
  (forall n o n' o',
     objects !! n = Some o -> save o = true ->
     objects !! n' = Some o' -> save o' = true -> n <> n' ->
     exists data label d,
       In data (measurements o) /\ df_empty data = false /\
       In (label, d) (df_rows data) /\ ~ In label (labels o')) ->
  save_outputs inputs objects_output store_objects site_id mapobject_id_seq
    = inl KeyError.
Proof.
  intros Hlayer [offset Hsite] Hmark H1 Hs1 H2 Hs2 Hne Hother.
  unfold _save_pipeline_outputs. rewrite Hmark.
  destruct (session_objects_returns (iteritems objects) Hlayer)
    with (st := mkSessionState (float:=float) ∅ ∅ ∅ None []) as [st Hst].
  { intros n o Hin Hs Hm. apply in_iteritems in Hin.
    destruct (decide (n = n1)) as [-> | Hn].
    - destruct (Hother n1 o n2 o2 Hin Hs H2 Hs2 Hne) as (data & ? & ? & Hd & _).
      rewrite Hm in Hd. contradiction.
    - destruct (Hother n o n1 o1 Hin Hs H1 Hs1 Hn) as (data & ? & ? & Hd & _).
      rewrite Hm in Hd. contradiction. }
  rewrite Hst, Hsite.
  assert (Hbound : is_Some (last_measurements st)).
  { eapply session_objects_bound; [exact Hst |]. right.
    exists n1, o1. split; [apply in_iteritems; exact H1 | exact Hs1]. }
  destruct (save_all get_or_create_mapobject_type df_round astype_str inputs
              site_id st (iteritems_to_save (objects_to_save st))
              mapobject_id_seq) as [e | calls] eqn:E.
  { apply save_all_raises in E; [subst e; reflexivity | exact Hbound]. }
  exfalso.
  destruct Hbound as [m Hm].
  pose proof Hst as Hst'. apply session_objects_state in Hst'.
  destruct Hst' as (_ & Hlast & _).
  destruct (Hlast m Hm) as [Hx | (n & o & Hin & Hs & ->)]; [discriminate |].
  apply in_iteritems in Hin.
  assert (Hpick : exists n' o',
            objects !! n' = Some o' /\ save o' = true /\ n <> n').
  { destruct (decide (n = n1)) as [-> | Hn]; [exists n2, o2 | exists n1, o1];
      auto. }
  destruct Hpick as (n' & o' & Ho' & Hs' & Hnn').
  destruct (Hother n o n' o' Hin Hs Ho' Hs' Hnn')
    as (data & label & d & Hdata & Hempty & Hrow & Hlabel).
  assert (Hitem : In (n', o') (iteritems_to_save (objects_to_save st))).
  { apply in_iteritems_to_save.
    apply (objects_to_save_marked objects st n' o' Hst). auto. }
  apply save_all_calls in E. destruct E as (parts & _ & Hparts).
  apply list_elem_of_In, list_elem_of_lookup in Hitem.
  destruct Hitem as [j Hj].
  destruct (Forall2_lookup_l _ _ _ _ _ Hparts Hj)
    as (part & _ & first_id' & Hsave).
  simpl in Hsave. apply save_objects_returns in Hsave.
  destruct Hsave as (segs & m' & fv & Hm' & Hfv & _).
  assert (m' = measurements o) by congruence. subst m'.
  destruct (in_enumerate_from_r _ _ Hdata 0) as [t Ht].
  apply Hlabel. eapply mapobject_ids_of_labels.
  eapply measurements_feature_values_labels; eassumption.
Qed.

(** X6.  When saving the outputs returns: for every object of the store
    that is a declared output or was marked before, the map objects of its
    type are deleted for the site, also when it is a declared input, and
    as many map objects are added as it has labels; and map objects are
    deleted and added for these objects only, and deleted for the site of
    the store only. *)
Theorem save_calls inputs objects_output
    (store_objects : gmap string (SegmentedObjects float))
    (site_id mapobject_id_seq : Z) (calls : list db_call) :
  save_outputs inputs objects_output store_objects site_id mapobject_id_seq
    = inr calls ->
  (forall n o,
     store_objects !! n = Some o ->
     save o = true \/ In n (map output_name objects_output) ->
     In (Mapobject_delete_cascade (get_or_create_mapobject_type n) "Site"
           site_id) calls /\
     In (Mapobject_add_multiple (get_or_create_mapobject_type n)
           (length (labels o))) calls) /\
  (forall type_id ref_type ref_id,
     In (Mapobject_delete_cascade type_id ref_type ref_id) calls ->
     ref_type = "Site" /\ ref_id = site_id /\
     exists n o,
       store_objects !! n = Some o /\
       (save o = true \/ In n (map output_name objects_output)) /\
       type_id = get_or_create_mapobject_type n) /\
  (forall type_id k,
     In (Mapobject_add_multiple type_id k) calls ->
     exists n o,
       store_objects !! n = Some o /\
       (save o = true \/ In n (map output_name objects_output)) /\
       type_id = get_or_create_mapobject_type n /\ k = length (labels o)).
Proof.
  intros H. apply save_returns in H.
  destruct H as (objects & st & thresholds & parts & Hmark & Hs & Hth & ->
                 & Hparts).
  apply mark_outputs_returns in Hmark. destruct Hmark as [Hnone Hlab].
  assert (Hpart : forall item part,
    In item (iteritems_to_save (objects_to_save st)) ->
    (exists first_id',
       save_one inputs site_id st (fst item) (snd item) first_id' = inr part) ->
    exists segmentations feature_values_ o,
      store_objects !! fst item = Some o /\
      (save o = true \/ In (fst item) (map output_name objects_output)) /\
      labels (snd item) = labels o /\
      part = [ Mapobject_delete_cascade
                 (get_or_create_mapobject_type (fst item)) "Site" site_id;
               Mapobject_add_multiple
                 (get_or_create_mapobject_type (fst item))
                 (length (labels (snd item)));
               MapobjectSegmentation_add_multiple segmentations;
               FeatureValues_add_multiple feature_values_ ]).
  { intros [n o'] part Hin [first_id' Hsave]. simpl in *.
    apply in_iteritems_to_save in Hin.
    apply (objects_to_save_marked objects st n o' Hs) in Hin.
    destruct Hin as [Ho' Hso'].
    apply save_objects_returns in Hsave.
    destruct Hsave as (segs & m & fv & _ & _ & ->).
    destruct (store_objects !! n) as [o |] eqn:Ho;
      [| rewrite (Hnone n Ho) in Ho'; discriminate].
    destruct (Hlab n o Ho) as (o'' & Ho'' & Hl & _ & Hsave).
    assert (o'' = o') by congruence. subst o''.
    exists segs, fv, o. split; [reflexivity |].
    split; [apply Hsave; exact Hso' |]. split; [exact Hl | reflexivity]. }
  assert (Hcall : forall c,
    In c (thresholds ++ concat parts) ->
    (exists i p q, c = SegmentationLayer_thresholds i p q) \/
    exists item part,
      In item (iteritems_to_save (objects_to_save st)) /\
      (exists first_id',
         save_one inputs site_id st (fst item) (snd item) first_id'
           = inr part) /\
      In c part).
  { intros c Hc. apply in_app_or in Hc. destruct Hc as [Hc | Hc].
    - left. rewrite Forall_forall in Hth. apply Hth.
      apply list_elem_of_In. exact Hc.
    - right. apply in_concat in Hc. destruct Hc as (part & Hin & Hc).
      apply list_elem_of_In, list_elem_of_lookup in Hin.
      destruct Hin as [j Hj].
      destruct (Forall2_lookup_r _ _ _ _ _ Hparts Hj) as (item & Hitem & Hsave).
      exists item, part. split; [| auto].
      apply list_elem_of_In. eapply list_elem_of_lookup_2. exact Hitem. }
  split; [| split].
  - intros n o Ho Hsave.
    destruct (Hlab n o Ho) as (o' & Ho' & Hl & _ & Hs').
    assert (Hitem : In (n, o') (iteritems_to_save (objects_to_save st))).
    { apply in_iteritems_to_save.
      apply (objects_to_save_marked objects st n o' Hs).
      split; [exact Ho' | apply Hs'; exact Hsave]. }
    pose proof Hitem as Hitem'.
    apply list_elem_of_In, list_elem_of_lookup in Hitem'.
    destruct Hitem' as [j Hj].
    destruct (Forall2_lookup_l _ _ _ _ _ Hparts Hj) as (part & Hp & Hsv).
    destruct (Hpart (n, o') part Hitem Hsv) as (segs & fv & o0 & _ & _ & _ & ->).
    simpl. rewrite <- Hl.
    split; apply in_or_app; right; apply in_concat;
      eexists; (split; [apply list_elem_of_In; eapply list_elem_of_lookup_2;
                        exact Hp |]); simpl; auto.
  - intros type_id ref_type ref_id Hc. apply Hcall in Hc.
    destruct Hc as [(i & p & q & Hx) | (item & part & Hin & Hsv & Hc)];
      [discriminate |].
    destruct (Hpart item part Hin Hsv) as (segs & fv & o & Ho & Hsave & _ & ->).
    simpl in Hc. destruct Hc as [Hc | [Hc | [Hc | [Hc | []]]]];
      try discriminate.
    inversion Hc; subst. split; [reflexivity |]. split; [reflexivity |].
    exists (fst item), o. auto.
  - intros type_id k Hc. apply Hcall in Hc.
    destruct Hc as [(i & p & q & Hx) | (item & part & Hin & Hsv & Hc)];
      [discriminate |].
    destruct (Hpart item part Hin Hsv) as (segs & fv & o & Ho & Hsave & Hl & ->).
    simpl in Hc. destruct Hc as [Hc | [Hc | [Hc | [Hc | []]]]];
      try discriminate.
    inversion Hc; subst. exists (fst item), o. rewrite Hl. auto.
Qed.

End Save.

Import JteratorExample.

(** The objects of the store with the nuclei and the cells, both marked *)
Lemma marked_objects_2_items n (o : SegmentedObjects Z) :
  marked_objects_2 !! n = Some o ->
  (n = "Cells" /\ labels o = [3; 4] /\
   measurements o = [mkDataFrame ["Area"] [(3, [310]); (4, [275])]]) \/
  (n = "Nuclei" /\ labels o = [1; 2] /\
   measurements o = [mkDataFrame ["Area"] [(1, [120]); (2, [95])]]).
Proof.
  intros H. apply elem_of_map_to_list in H. vm_compute in H.
  apply list_elem_of_In in H.
  destruct H as [H | [H | []]]; inversion H; subst; auto.
Qed.

Lemma save_raises_other_labels_witness :
  save_pipeline_outputs inputs objects_output_2 store_objects_2
    = inl KeyError.
Proof.
  apply (save_raises_other_labels Z map_to_list map_to_list
           mapobject_type_ids feature_id_of segmentation_layer_id_of
           (Some maxzoom_level_index) (Some aligned_offset) df_round
           astype_str (fun m => Permutation_refl _)
           (fun m => Permutation_refl _)
           inputs objects_output_2 store_objects_2 marked_objects_2 5 100
           "Nuclei" "Cells"
           (mkSegmentedObjects true true [1; 2] (measurements nuclei)
              (iter_planes nuclei) (iter_polygons nuclei) (iter_points nuclei))
           (mkSegmentedObjects true true [3; 4] (measurements cells)
              (iter_planes cells) (iter_polygons cells) (iter_points cells))).
  - eauto.
  - eauto.
  - vm_compute. reflexivity.
  - vm_compute. reflexivity.
  - reflexivity.
  - vm_compute. reflexivity.
  - reflexivity.
  - discriminate.
  - intros n o n' o' Ho _ Ho' _ Hne.
    apply marked_objects_2_items in Ho, Ho'.
    destruct Ho as [(-> & _ & ->) | (-> & _ & ->)];
      destruct Ho' as [(-> & -> & _) | (-> & -> & _)];
      try congruence.
    + exists (mkDataFrame ["Area"] [(3, [310]); (4, [275])]), 3, [310].
      split; [left; reflexivity |]. split; [reflexivity |].
      split; [left; reflexivity |]. simpl. lia.
    + exists (mkDataFrame ["Area"] [(1, [120]); (2, [95])]), 1, [120].
      split; [left; reflexivity |]. split; [reflexivity |].
      split; [left; reflexivity |]. simpl. lia.
Defined.

Lemma save_calls_witness :
  let calls := [ SegmentationLayer_thresholds 300 6 4;
                 Mapobject_delete_cascade 3 "Site" 5;
                 Mapobject_add_multiple 3 2;
                 MapobjectSegmentation_add_multiple
                   [ mkMapobjectSegmentation true 100 300 1;
                     mkMapobjectSegmentation true 101 300 2 ];
                 FeatureValues_add_multiple
                   [ mkObjectFeatureValues 100 0 {[ "31" := "120" ]};
                     mkObjectFeatureValues 101 0 {[ "31" := "95" ]} ] ] in
  (forall n o,
     store_objects !! n = Some o ->
     save o = true \/ In n (map output_name objects_output) ->
     In (Mapobject_delete_cascade (mapobject_type_ids n) "Site" 5) calls /\
     In (Mapobject_add_multiple (mapobject_type_ids n) (length (labels o)))
        calls) /\
  (forall type_id ref_type ref_id,
     In (Mapobject_delete_cascade type_id ref_type ref_id) calls ->
     ref_type = "Site" /\ ref_id = 5 /\
     exists n o,
       store_objects !! n = Some o /\
       (save o = true \/ In n (map output_name objects_output)) /\
       type_id = mapobject_type_ids n) /\
  (forall type_id k,
     In (Mapobject_add_multiple type_id k) calls ->
     exists n o,
       store_objects !! n = Some o /\
       (save o = true \/ In n (map output_name objects_output)) /\
       type_id = mapobject_type_ids n /\ k = length (labels o)).
Proof.
  apply (save_calls Z map_to_list map_to_list mapobject_type_ids
           feature_id_of segmentation_layer_id_of
           (Some maxzoom_level_index) (Some aligned_offset) df_round
           astype_str (fun m => Permutation_refl _)
           (fun m => Permutation_refl _)
           inputs objects_output store_objects 5 100).
  vm_compute. reflexivity.
Defined.

End SaveMore.

(** ** More on the feature catalog and the aggregation *)

Module AggregateMore.
Import Py Jterator JteratorMore CatalogProps.

Lemma select_id_row name ty t i :
  select_id name ty t = Some i ->
  exists f, In f (rows t) /\ feature_id f = i /\
            feature_name f = name /\ mapobject_type_id f = ty.
Proof.
  unfold select_id.
  destruct (find (has_key name ty) (rows t)) as [f |] eqn:F; [| discriminate].
  intros H. inversion H. apply find_some in F. destruct F as [Hin Hk].
  apply has_key_iff in Hk. exists f. tauto.
Qed.

Lemma pkey_row_unique t f g :
  features_pkey t -> In f (rows t) -> In g (rows t) ->
  feature_id f = feature_id g -> f = g.
Proof.
  intros [Hnd _]. induction (rows t) as [| h l IH]; simpl; [contradiction |].
  simpl in Hnd. inversion Hnd as [| ? ? Hh Hnd']; subst.
  intros [-> | Hf] [-> | Hg] Heq; auto.
  - exfalso. apply Hh. rewrite Heq. apply in_map. exact Hg.
  - exfalso. apply Hh. rewrite <- Heq. apply in_map. exact Hf.
Qed.

(** X7.  In a catalog with distinct ids below the next value of its
    sequence, two calls of [_add_feature] in a sequence of calls return the
    same id only for the same name and object type. *)
Theorem add_features_injective (t : Features)
    (calls : list (string * Z * bool)) (k k' : nat)
    (name name' : string) (ty ty' : Z) (agg agg' : bool) (i : Z) :
  features_pkey t ->
  features_name_mapobject_type_id_key t ->
  calls !! k = Some (name, ty, agg) ->
  calls !! k' = Some (name', ty', agg') ->
  snd (add_features calls t) !! k = Some (inr i) ->
  snd (add_features calls t) !! k' = Some (inr i) ->
  name = name' /\ ty = ty'.
Proof.
  intros Hp Hkey Hk Hk' Hr Hr'.
  destruct (add_features_spec calls t) as (_ & Hp' & _ & _ & Hall).
  specialize (Hp' Hp).
  destruct (Forall2_lookup_l _ _ _ _ _ Hall Hk) as (r & Hr1 & Hj).
  destruct (Forall2_lookup_l _ _ _ _ _ Hall Hk') as (r' & Hr1' & Hj').
  simpl in Hj, Hj'.
  assert (E1 : Some r = Some (inr i))
    by (etransitivity; [symmetry; exact Hr1 | exact Hr]).
  assert (E2 : Some r' = Some (inr i))
    by (etransitivity; [symmetry; exact Hr1' | exact Hr']).
  inversion E1 as [E1']. inversion E2 as [E2']. clear E1 E2.
  rename E1' into E1. rename E2' into E2.
  specialize (Hj i E1). specialize (Hj' i E2).
  apply select_id_row in Hj. destruct Hj as (f & Hf & Hfi & Hfn & Hft).
  apply select_id_row in Hj'. destruct Hj' as (g & Hg & Hgi & Hgn & Hgt).
  assert (f = g) by (eapply pkey_row_unique; eauto; congruence).
  subst g. split; congruence.
Qed.

Lemma add_features_injective_witness : "Area_Cells_Mean" = "Area_Cells_Mean" /\ 9 = 9.
Proof.
  apply (add_features_injective JteratorExample.catalog JteratorExample.calls 0 2 "Area_Cells_Mean"
           "Area_Cells_Mean" 9 9 true true 2).
  - exact catalog_pkey.
  - exact catalog_key.
  - reflexivity.
  - reflexivity.
  - reflexivity.
  - reflexivity.
Defined.


Lemma agg_extends_refl ref (st : AggState) : agg_extends ref st st.
Proof.
  split; [exists []; rewrite app_nil_r; split; [reflexivity | constructor] |].
  split; [reflexivity |]. auto.
Qed.

Lemma agg_extends_trans ref (st1 st2 st3 : AggState) :
  agg_extends ref st1 st2 -> agg_extends ref st2 st3 ->
  agg_extends ref st1 st3.
Proof.
  intros ((n1 & Hr1 & Hf1) & Hd1 & Hk1 & Hp1 & Hc1)
         ((n2 & Hr2 & Hf2) & Hd2 & Hk2 & Hp2 & Hc2).
  split; [| split; [etransitivity; eassumption | auto]].
  exists (n1 ++ n2). split.
  - rewrite Hr2, Hr1, app_assoc. reflexivity.
  - apply Forall_app. auto.
Qed.

(** One pass of the body of the inner loop, when [_add_feature] returns:
    the feature is added or found, and the two dictionaries get its id. *)
Lemma add_feature_extends ref (st : AggState) (n v : string)
    (t' : Features) (i : Z) :
  _add_feature n ref true (catalog st) = (t', inr i) ->
  agg_extends ref st
    (mkAggState t' (<[i := v]> (agg_values st))
                (<[i := n]> (agg_features st)) (feature_values st)).
Proof.
  intros E.
  assert (Ht : fst (_add_feature n ref true (catalog st)) = t')
    by (rewrite E; reflexivity).
  assert (Hi : snd (_add_feature n ref true (catalog st)) = inr i)
    by (rewrite E; reflexivity).
  pose proof (add_feature_returns _ _ _ _ _ Hi) as Hsel. rewrite Ht in Hsel.
  split; [| split; [| split; [| split]]]; simpl.
  - rewrite <- Ht.
    destruct (add_feature_rows n ref true (catalog st))
      as [-> | (_ & -> & _)].
    + exists []. rewrite app_nil_r. split; [reflexivity | constructor].
    + eexists. split; [reflexivity |].
      constructor; [simpl; auto | constructor].
  - rewrite dom_insert. set_solver.
  - intros Hk. rewrite <- Ht. apply add_feature_key. exact Hk.
  - rewrite <- Ht. apply add_feature_pkey.
  - unfold agg_consistent. simpl. intros Hc j m Hj.
    destruct (decide (i = j)) as [<- | Hne].
    + rewrite lookup_insert_eq in Hj. inversion Hj; subst m. exact Hsel.
    + rewrite lookup_insert_ne in Hj by exact Hne.
      rewrite <- Ht. apply add_feature_select_stable. apply Hc. exact Hj.
Qed.

(** A call on a catalog that keeps its primary key and has a value of the
    sequence left: it returns, and takes one value at most. *)
Lemma add_feature_step name ty agg (t : Features) :
  features_pkey t -> ids_left 1 t ->
  exists t' i,
    _add_feature name ty agg t = (t', inr i) /\
    features_pkey t' /\
    id_seq t' <= id_seq t + 1 /\ id_max t' = id_max t.
Proof.
  intros Hp Hleft.
  destruct (add_feature_total name ty agg t Hp Hleft) as [i Hi].
  pose proof (add_feature_pkey name ty agg t Hp) as Hp'.
  destruct (add_feature_seq name ty agg t) as [[_ Hs] Hm].
  destruct (_add_feature name ty agg t) as [t' r]. simpl in *. subst r.
  exists t', i. auto.
Qed.

Lemma columns_count_cons {float} (t : Z) (data : list (string * list float))
    (records : list (Z * list (string * list float))) :
  columns_count ((t, data) :: records)
  = (length data + columns_count records)%nat.
Proof. unfold columns_count. simpl. rewrite length_app. reflexivity. Qed.

Section Aggregate.

Variable float : Type.
Variable np : Numpy float.

Lemma aggregate_columns_extends type ref stat func
    (data : list (string * list float)) :
  forall st st' : AggState,
    aggregate_columns float np type ref stat func data st = inr st' ->
    agg_extends ref st st' /\ feature_values st' = feature_values st.
Proof.
  induction data as [| [n vals] data IH]; intros st st';
    cbn [aggregate_columns].
  - intros H. inversion H; subst st'.
    split; [apply agg_extends_refl | reflexivity].
  - destruct (_add_feature (agg_feature_name stat n type) ref true (catalog st))
      as [t' [e | i]] eqn:E; [discriminate |].
    intros H. apply IH in H. destruct H as [Hext Hfv]. simpl in Hfv.
    split; [| exact Hfv].
    eapply agg_extends_trans; [| exact Hext].
    apply add_feature_extends. exact E.
Qed.

Lemma aggregate_statistics_extends type ref
    (stats : list (string * (list float -> number float)))
    (data : list (string * list float)) :
  forall st st' : AggState,
    aggregate_statistics float np type ref stats data st = inr st' ->
    agg_extends ref st st' /\ feature_values st' = feature_values st.
Proof.
  induction stats as [| [stat func] stats IH]; intros st st';
    cbn [aggregate_statistics].
  - intros H. inversion H; subst st'.
    split; [apply agg_extends_refl | reflexivity].
  - destruct (aggregate_columns float np type ref stat func data st)
      as [e | st1] eqn:E; [discriminate |].
    apply aggregate_columns_extends in E. destruct E as [Hext1 Hfv1].
    intros H. apply IH in H. destruct H as [Hext Hfv].
    split; [eapply agg_extends_trans; eassumption | congruence].
Qed.

Lemma aggregate_records_extends feature_map type ref ref_id
    (results : list (Z * list (string * list float))) :
  forall st st' : AggState,
    aggregate_records float np feature_map type ref ref_id results st
      = inr st' ->
    exists new_rows,
      agg_extends ref st st' /\
      feature_values st' = feature_values st ++ new_rows /\
      map fv_tpoint new_rows = map fst results /\
      Forall (fun r => fv_mapobject_id r = ref_id) new_rows /\
      dom_chain (dom (agg_values st)) new_rows.
Proof.
  induction results as [| [t data] results IH]; intros st st';
    cbn [aggregate_records].
  - intros H. inversion H; subst st'. exists []. rewrite app_nil_r.
    split; [apply agg_extends_refl |]. repeat split; auto.
  - destruct (aggregate_statistics float np type ref (statistics float np)
                (rename float feature_map data) st) as [e | st1] eqn:E;
      [discriminate |].
    apply aggregate_statistics_extends in E. destruct E as [Hext1 Hfv1].
    intros H. apply IH in H.
    destruct H as (new_rows & Hext' & Hfv' & Ht & Hid & Hchain).
    exists (mkFeatureValues ref_id (agg_values st1) t :: new_rows).
    split; [| split; [| split; [| split]]].
    + eapply agg_extends_trans; [exact Hext1 |].
      destruct Hext' as (Hr & Hd & Hk & Hp & Hc).
      split; [exact Hr |]. split; [exact Hd |]. auto.
    + rewrite Hfv'. simpl. rewrite Hfv1, <- app_assoc. reflexivity.
    + simpl. rewrite Ht. reflexivity.
    + constructor; [reflexivity | exact Hid].
    + simpl. split; [| exact Hchain].
      destruct Hext1 as (_ & Hd & _). exact Hd.
Qed.

(** The loops return when the catalog keeps its primary key and the
    sequence has a value for every call of [_add_feature]. *)
Lemma aggregate_columns_returns type ref stat func
    (data : list (string * list float)) :
  forall st : AggState,
    features_pkey (catalog st) ->
    ids_left (Z.of_nat (length data)) (catalog st) ->
    exists st',
      aggregate_columns float np type ref stat func data st = inr st' /\
      features_pkey (catalog st') /\
      id_seq (catalog st') <= id_seq (catalog st) + Z.of_nat (length data) /\
      id_max (catalog st') = id_max (catalog st).
Proof.
  induction data as [| [n vals] data IH]; intros st Hp Hleft;
    cbn [aggregate_columns].
  - exists st. split; [reflexivity |]. split; [exact Hp |].
    simpl. split; [lia | reflexivity].
  - unfold ids_left in Hleft. simpl length in Hleft.
    destruct (add_feature_step (agg_feature_name stat n type) ref true
                (catalog st) Hp) as (t' & i & -> & Hp' & Hs & Hm);
      [unfold ids_left; lia |].
    destruct (IH (mkAggState t'
                    (<[i := str float np (round float np (func vals) 6)]>
                       (agg_values st))
                    (<[i := agg_feature_name stat n type]> (agg_features st))
                    (feature_values st)))
      as (st' & Hst' & Hp'' & Hs' & Hm'); simpl;
      [exact Hp' | unfold ids_left; lia |].
    simpl in Hs', Hm'. exists st'. split; [exact Hst' |].
    split; [exact Hp'' |]. simpl length. split; [lia | congruence].
Qed.

Lemma aggregate_statistics_returns type ref
    (stats : list (string * (list float -> number float)))
    (data : list (string * list float)) :
  forall st : AggState,
    features_pkey (catalog st) ->
    ids_left (Z.of_nat (length stats) * Z.of_nat (length data)) (catalog st) ->
    exists st',
      aggregate_statistics float np type ref stats data st = inr st' /\
      features_pkey (catalog st') /\
      id_seq (catalog st')
        <= id_seq (catalog st)
           + Z.of_nat (length stats) * Z.of_nat (length data) /\
      id_max (catalog st') = id_max (catalog st).
Proof.
  induction stats as [| [stat func] stats IH]; intros st Hp Hleft;
    cbn [aggregate_statistics].
  - exists st. split; [reflexivity |]. split; [exact Hp |].
    simpl. split; [lia | reflexivity].
  - unfold ids_left in Hleft.
    replace (Z.of_nat (length ((stat, func) :: stats)))
      with (1 + Z.of_nat (length stats)) in * by (simpl length; lia).
    destruct (aggregate_columns_returns type ref stat func data st Hp)
      as (st1 & -> & Hp1 & Hs1 & Hm1); [unfold ids_left; nia |].
    destruct (IH st1 Hp1) as (st' & Hst' & Hp' & Hs' & Hm');
      [unfold ids_left; nia |].
    exists st'. split; [exact Hst' |]. split; [exact Hp' |].
    split; [nia | congruence].
Qed.

Lemma aggregate_records_returns feature_map type ref ref_id
    (results : list (Z * list (string * list float))) :
  forall st : AggState,
    features_pkey (catalog st) ->
    ids_left (5 * Z.of_nat (columns_count results)) (catalog st) ->
    exists st',
      aggregate_records float np feature_map type ref ref_id results st
        = inr st'.
Proof.
  induction results as [| [t data] results IH]; intros st Hp Hleft;
    cbn [aggregate_records]; [eauto |].
  unfold ids_left in Hleft. rewrite columns_count_cons in Hleft.
  destruct (aggregate_statistics_returns type ref (statistics float np)
              (rename float feature_map data) st Hp)
    as (st1 & -> & Hp1 & Hs1 & Hm1).
  { unfold ids_left, rename. rewrite length_map. simpl length. lia. }
  unfold rename in Hs1. rewrite length_map in Hs1. simpl length in Hs1.
  apply IH; simpl; [exact Hp1 |]. unfold ids_left. lia.
Qed.

(** X8.  Let the catalog have distinct ids below the next value of its
    sequence, and let the sequence have a value left for every call of
    [_add_feature]: five for each column of each record.  Then
    [_aggregate] does not raise.  It appends one row of feature values
    for each record, in the order of the records, for the time point of
    the record and the map object of the reference, and leaves the rows
    that were there. *)
Theorem aggregate_returns feature_map type ref ref_id
    (results : list (Z * list (string * list float)))
    (features : Features) (values : list FeatureValues) :
  features_pkey features ->
  ids_left (5 * Z.of_nat (columns_count results)) features ->
  exists catalog' new_rows agg_features',
    _aggregate np feature_map type ref ref_id results features values
      = inr (catalog', values ++ new_rows, agg_features') /\
    map fv_tpoint new_rows = map fst results /\
    Forall (fun r => fv_mapobject_id r = ref_id) new_rows.
Proof.
  intros Hp Hleft. unfold _aggregate.
  destruct (aggregate_records_returns feature_map type ref ref_id results
              (mkAggState features ∅ ∅ values) Hp Hleft) as [st' Hst'].
  rewrite Hst'. apply aggregate_records_extends in Hst'.
  destruct Hst' as (new_rows & _ & Hfv & Ht & Hid & _).
  exists (catalog st'), new_rows, (agg_features st').
  simpl in Hfv. rewrite Hfv. auto.
Qed.

(** X9.  [_aggregate] only adds rows to the catalog, all of them
    aggregates of the object type of the reference; it keeps the constraint
    on names and object types, and it keeps the ids distinct. *)
Theorem aggregate_catalog feature_map type ref ref_id
    (results : list (Z * list (string * list float)))
    (features catalog' : Features) (values values' : list FeatureValues)
    (agg_features' : gmap Z string) :
  _aggregate np feature_map type ref ref_id results features values
    = inr (catalog', values', agg_features') ->
  (exists new,
     rows catalog' = rows features ++ new /\
     Forall (fun f => is_aggregate f = true /\ mapobject_type_id f = ref) new) /\
  (features_name_mapobject_type_id_key features ->
   features_name_mapobject_type_id_key catalog') /\
  (features_pkey features -> features_pkey catalog').
Proof.
  unfold _aggregate.
  destruct (aggregate_records float np feature_map type ref ref_id results
              (mkAggState features ∅ ∅ values)) as [e | st'] eqn:E;
    [discriminate |].
  apply aggregate_records_extends in E.
  destruct E as (new_rows & (Hr & _ & Hk & Hp & _) & _).
  intros H. inversion H; subst. simpl in *. auto.
Qed.

Lemma dom_chain_lookup (l : list FeatureValues) :
  forall (d : gset Z) (k : nat) (r1 r2 : FeatureValues),
    dom_chain d l -> l !! k = Some r1 -> l !! S k = Some r2 ->
    dom (fv_values r1) ⊆ dom (fv_values r2).
Proof.
  induction l as [| r l IH]; intros d k r1 r2 Hc H1 H2; [discriminate |].
  destruct Hc as [_ Hc]. destruct k as [| k]; simpl in *.
  - inversion H1; subst r1. destruct l as [| r' l]; [discriminate |].
    simpl in H2. inversion H2; subst r'. destruct Hc as [Hd _]. exact Hd.
  - eapply IH; eauto.
Qed.

(** X10.  The dictionary of the aggregate values is not emptied between
    the records: every feature id in the row written for one record is in
    the row written for the next. *)
Theorem aggregate_values_accumulate feature_map type ref ref_id
    (results : list (Z * list (string * list float)))
    (features catalog' : Features) (values values' : list FeatureValues)
    (agg_features' : gmap Z string) :
  _aggregate np feature_map type ref ref_id results features values
    = inr (catalog', values', agg_features') ->
  exists new_rows,
    values' = values ++ new_rows /\
    forall (k : nat) (r1 r2 : FeatureValues),
      new_rows !! k = Some r1 -> new_rows !! S k = Some r2 ->
      dom (fv_values r1) ⊆ dom (fv_values r2).
Proof.
  unfold _aggregate.
  destruct (aggregate_records float np feature_map type ref ref_id results
              (mkAggState features ∅ ∅ values)) as [e | st'] eqn:E;
    [discriminate |].
  apply aggregate_records_extends in E.
  destruct E as (new_rows & _ & Hfv & _ & _ & Hchain).
  intros H. inversion H; subst. exists new_rows.
  split; [exact Hfv |]. intros k r1 r2. eapply dom_chain_lookup. exact Hchain.
Qed.

(** X11.  The dictionary that [_aggregate] returns agrees with the catalog
    that it leaves: looking up the name of an id, for the object type of
    the reference, gives the id. *)
Theorem aggregate_features_catalog feature_map type ref ref_id
    (results : list (Z * list (string * list float)))
    (features catalog' : Features) (values values' : list FeatureValues)
    (agg_features' : gmap Z string) (i : Z) (n : string) :
  _aggregate np feature_map type ref ref_id results features values
    = inr (catalog', values', agg_features') ->
  agg_features' !! i = Some n ->
  select_id n ref catalog' = Some i.
Proof.
  unfold _aggregate.
  destruct (aggregate_records float np feature_map type ref ref_id results
              (mkAggState features ∅ ∅ values)) as [e | st'] eqn:E;
    [discriminate |].
  apply aggregate_records_extends in E.
  destruct E as (new_rows & (_ & _ & _ & _ & Hc) & _).
  intros H. inversion H; subst. apply Hc.
  intros j m Hj. simpl in Hj. rewrite lookup_empty in Hj. discriminate.
Qed.

End Aggregate.

Lemma empty_catalog_pkey : features_pkey (mkFeatures [] 1 2147483647).
Proof. split; simpl; constructor. Qed.

Lemma aggregate_returns_witness :
  exists catalog' new_rows agg_features',
    _aggregate JteratorExample2.np JteratorExample2.feature_map "Cells" 7 70
      JteratorExample2.results (mkFeatures [] 1 2147483647) []
      = inr (catalog', [] ++ new_rows, agg_features') /\
    map fv_tpoint new_rows = map fst JteratorExample2.results /\
    Forall (fun r => fv_mapobject_id r = 70) new_rows.
Proof.
  apply (aggregate_returns Z JteratorExample2.np
           JteratorExample2.feature_map "Cells" 7 70 JteratorExample2.results
           (mkFeatures [] 1 2147483647) []).
  - exact empty_catalog_pkey.
  - unfold ids_left. vm_compute. discriminate.
Defined.

Lemma aggregated_eq :
  _aggregate JteratorExample2.np JteratorExample2.feature_map "Cells" 7 70
    JteratorExample2.results (mkFeatures [] 1 2147483647) []
  = inr (fst (fst JteratorExample2.aggregated),
         snd (fst JteratorExample2.aggregated),
         snd JteratorExample2.aggregated).
Proof. vm_compute. reflexivity. Qed.

Lemma aggregate_catalog_witness :
  (exists new,
     rows (fst (fst JteratorExample2.aggregated))
       = rows (mkFeatures [] 1 2147483647) ++ new /\
     Forall (fun f => is_aggregate f = true /\ mapobject_type_id f = 7) new) /\
  (features_name_mapobject_type_id_key (mkFeatures [] 1 2147483647) ->
   features_name_mapobject_type_id_key (fst (fst JteratorExample2.aggregated))) /\
  (features_pkey (mkFeatures [] 1 2147483647) ->
   features_pkey (fst (fst JteratorExample2.aggregated))).
Proof.
  apply (aggregate_catalog Z JteratorExample2.np
           JteratorExample2.feature_map "Cells" 7 70 JteratorExample2.results
           (mkFeatures [] 1 2147483647)
           (fst (fst JteratorExample2.aggregated)) []
           (snd (fst JteratorExample2.aggregated))
           (snd JteratorExample2.aggregated)).
  exact aggregated_eq.
Defined.

Lemma aggregate_values_accumulate_witness :
  exists new_rows,
    snd (fst JteratorExample2.aggregated) = [] ++ new_rows /\
    forall (k : nat) (r1 r2 : FeatureValues),
      new_rows !! k = Some r1 -> new_rows !! S k = Some r2 ->
      dom (fv_values r1) ⊆ dom (fv_values r2).
Proof.
  apply (aggregate_values_accumulate Z JteratorExample2.np
           JteratorExample2.feature_map "Cells" 7 70 JteratorExample2.results
           (mkFeatures [] 1 2147483647)
           (fst (fst JteratorExample2.aggregated)) []
           (snd (fst JteratorExample2.aggregated))
           (snd JteratorExample2.aggregated)).
  exact aggregated_eq.
Defined.

Lemma aggregate_features_catalog_witness :
  select_id "Area_Cells_Count" 7 (fst (fst JteratorExample2.aggregated))
  = Some 1.
Proof.
  apply (aggregate_features_catalog Z JteratorExample2.np
           JteratorExample2.feature_map "Cells" 7 70 JteratorExample2.results
           (mkFeatures [] 1 2147483647)
           (fst (fst JteratorExample2.aggregated)) []
           (snd (fst JteratorExample2.aggregated))
           (snd JteratorExample2.aggregated) 1 "Area_Cells_Count").
  - exact aggregated_eq.
  - vm_compute. reflexivity.
Defined.

End AggregateMore.

(** ** The aggregates of aggregates *)

Module AggregateAggregatesProps.
Import Py Jterator JteratorMore CatalogProps AggregateMore.

Lemma no_underscore_no_suffix (s : string) :
  contains_underscore s = false -> statistic_suffix s = None.
Proof.
  induction s as [| c s IH]; simpl; [reflexivity |].
  destruct (Ascii.eqb c "_"); [discriminate |].
  intros H. rewrite (IH H). reflexivity.
Qed.

(** The suffix of a name that ends in an underscore and a word without
    underscores is the word. *)
Lemma statistic_suffix_append (x s : string) :
  s <> "" -> contains_underscore s = false ->
  statistic_suffix (x +:+ "_" +:+ s) = Some s.
Proof.
  intros Hne Hs. induction x as [| c x IH].
  - change (statistic_suffix (String "_" s) = Some s).
    cbn [statistic_suffix].
    rewrite (no_underscore_no_suffix s Hs), Hs.
    destruct (String.eqb_spec s ""); [contradiction | reflexivity].
  - change (statistic_suffix (String c (x +:+ "_" +:+ s)) = Some s).
    cbn [statistic_suffix]. rewrite IH. reflexivity.
Qed.

Lemma string_app_assoc (a b c : string) : (a +:+ b) +:+ c = a +:+ b +:+ c.
Proof.
  induction a as [| x a IH]; [reflexivity |].
  change (String x ((a +:+ b) +:+ c) = String x (a +:+ b +:+ c)).
  rewrite IH. reflexivity.
Qed.

(** X12.  The names that [_aggregate] gives to the aggregate features can
    be read back by [_aggregate_aggregates]: the text after the last
    underscore is the statistic that the name was built for, and it is a
    key of the statistics of [_aggregate_aggregates], whatever the names of
    the feature and of the object type. *)
Theorem statistic_suffix_agg_feature_name {float} (np : Numpy float)
    (np_sum : list float -> float) (stat_name feature type : string)
    (func : list float -> number float) :
  In (stat_name, func) (statistics float np) ->
  statistic_suffix (agg_feature_name stat_name feature type) = Some stat_name /\
  exists func',
    dict_get stat_name (statistics_of_aggregates np np_sum) = Some func'.
Proof.
  intros H.
  rewrite (AggregateProps.agg_feature_name_statistics np stat_name feature type
             func H).
  replace (feature +:+ "_" +:+ type +:+ "_" +:+ stat_name)
    with ((feature +:+ "_" +:+ type) +:+ "_" +:+ stat_name)
    by (rewrite !string_app_assoc; reflexivity).
  simpl in H.
  repeat (destruct H as [H | H];
          [inversion H; subst; split;
           [apply statistic_suffix_append; [discriminate | reflexivity]
           | eexists; reflexivity] |]).
  contradiction.
Qed.

Lemma statistic_suffix_agg_feature_name_witness :
  statistic_suffix (agg_feature_name "Count" "Area" "Cells") = Some "Count" /\
  exists func',
    dict_get "Count"
      (statistics_of_aggregates JteratorExample2.np JteratorExample2.np_sum)
    = Some func'.
Proof.
  apply (statistic_suffix_agg_feature_name JteratorExample2.np
           JteratorExample2.np_sum "Count" "Area" "Cells"
           (fun v => Int (Z.of_nat (length v)))).
  simpl. auto 10.
Defined.

Section AggregateAggregates.

Variable float : Type.
Variable np : Numpy float.
Variable np_sum : list float -> float.

Lemma dict_get_in {V} (k : string) (d : list (string * V)) (v : V) :
  dict_get k d = Some v -> In (k, v) d.
Proof.
  induction d as [| [k' v'] d IH]; simpl; [discriminate |].
  destruct (String.eqb_spec k' k) as [-> | Hne].
  - intros H. inversion H. auto.
  - auto.
Qed.

Lemma in_dict_get {V} (k : string) (d : list (string * V)) (v : V) :
  In (k, v) d -> exists v', dict_get k d = Some v'.
Proof.
  induction d as [| [k' v'] d IH]; simpl; [contradiction |].
  destruct (String.eqb_spec k' k) as [-> | Hne]; [eauto |].
  intros [H | H]; [inversion H; contradiction | auto].
Qed.

(** The loop over the columns returns when every name ends in a statistic,
    the catalog keeps its primary key and the sequence has a value for
    every column. *)
Lemma aggregate_aggregates_columns_spec ref
    (data : list (string * list float)) :
  forall st : AggState,
    (forall n vals, In (n, vals) data ->
       exists stat func,
         statistic_suffix n = Some stat /\
         In (stat, func) (statistics_of_aggregates np np_sum)) ->
    features_pkey (catalog st) ->
    ids_left (Z.of_nat (length data)) (catalog st) ->
    exists st',
      aggregate_aggregates_columns float np np_sum ref data st = inr st' /\
      features_pkey (catalog st') /\
      id_seq (catalog st') <= id_seq (catalog st) + Z.of_nat (length data) /\
      id_max (catalog st') = id_max (catalog st).
Proof.
  induction data as [| [n vals] data IH]; intros st Hok Hp Hleft;
    cbn [aggregate_aggregates_columns].
  - exists st. split; [reflexivity |]. split; [exact Hp |].
    simpl. split; [lia | reflexivity].
  - destruct (Hok n vals (or_introl eq_refl)) as (stat & func & -> & Hin).
    destruct (in_dict_get _ _ _ Hin) as [func' ->].
    unfold ids_left in Hleft. simpl length in Hleft.
    destruct (add_feature_step n ref true (catalog st) Hp)
      as (t' & i & -> & Hp' & Hs & Hm); [unfold ids_left; lia |].
    destruct (IH (mkAggState t'
                    (<[i := str float np (round float np (func' vals) 6)]>
                       (agg_values st))
                    (<[i := n]> (agg_features st)) (feature_values st)))
      as (st' & Hst' & Hp'' & Hs' & Hm'); simpl;
      [intros n0 vals0 Hin0; apply (Hok n0 vals0); right; exact Hin0
      | exact Hp' | unfold ids_left; lia |].
    simpl in Hs', Hm'. exists st'. split; [exact Hst' |].
    split; [exact Hp'' |]. simpl length. split; [lia | congruence].
Qed.

Lemma aggregate_aggregates_columns_returns ref
    (data : list (string * list float)) :
  forall st st' : AggState,
    aggregate_aggregates_columns float np np_sum ref data st = inr st' ->
    forall n vals, In (n, vals) data ->
      exists stat func,
        statistic_suffix n = Some stat /\
        In (stat, func) (statistics_of_aggregates np np_sum).
Proof.
  induction data as [| [n vals] data IH]; intros st st';
    cbn [aggregate_aggregates_columns]; [contradiction |].
  destruct (statistic_suffix n) as [stat |] eqn:Hs; [| discriminate].
  destruct (dict_get stat (statistics_of_aggregates np np_sum))
    as [func |] eqn:Hd; [| discriminate].
  destruct (_add_feature n ref true (catalog st)) as [t' [e | i]];
    [discriminate |].
  intros H n' vals' [Heq | Hin].
  - inversion Heq; subst. exists stat, func.
    split; [exact Hs | apply dict_get_in; exact Hd].
  - eapply IH; eassumption.
Qed.

Lemma aggregate_aggregates_records_returns feature_map ref ref_id
    (records : list (Z * list (string * list float))) :
  forall st : AggState,
    columns_name_statistics np np_sum feature_map records ->
    features_pkey (catalog st) ->
    ids_left (Z.of_nat (columns_count records)) (catalog st) ->
    exists st',
      aggregate_aggregates_records float np np_sum feature_map ref ref_id
        records st = inr st'.
Proof.
  unfold columns_name_statistics.
  induction records as [| [t data] records IH]; intros st Hok Hp Hleft;
    cbn [aggregate_aggregates_records]; [eauto |].
  unfold ids_left in Hleft. rewrite columns_count_cons in Hleft.
  destruct (aggregate_aggregates_columns_spec ref
              (rename float feature_map data) st)
    as (st1 & -> & Hp1 & Hs1 & Hm1).
  { intros n vals Hn. eapply Hok; [left; reflexivity | exact Hn]. }
  { exact Hp. }
  { unfold ids_left, rename. rewrite length_map. lia. }
  unfold rename in Hs1. rewrite length_map in Hs1.
  apply IH; simpl.
  - intros t' data' n vals Hin Hn. eapply Hok; [right; exact Hin | exact Hn].
  - exact Hp1.
  - unfold ids_left. lia.
Qed.

Lemma aggregate_aggregates_records_names feature_map ref ref_id
    (records : list (Z * list (string * list float))) :
  forall st st' : AggState,
    aggregate_aggregates_records float np np_sum feature_map ref ref_id
      records st = inr st' ->
    columns_name_statistics np np_sum feature_map records.
Proof.
  unfold columns_name_statistics.
  induction records as [| [t data] records IH]; intros st st';
    cbn [aggregate_aggregates_records].
  - intros _ ? ? ? ? [].
  - destruct (aggregate_aggregates_columns float np np_sum ref
                (rename float feature_map data) st) as [e | st1] eqn:E;
      [discriminate |].
    intros Hr t' data' n vals [Heq | Hin] Hn.
    + inversion Heq; subst.
      eapply aggregate_aggregates_columns_returns; eassumption.
    + eapply IH; eassumption.
Qed.

(** X13.  Let the catalog have distinct ids below the next value of its
    sequence, and let the sequence have a value left for every column of
    every record.  Then [_aggregate_aggregates] returns exactly when the
    name of every column of every record, after the renaming, ends in an
    underscore and one of [Min], [Max], [Sum], [Mean] and [Count]. *)
Theorem aggregate_aggregates_returns_iff feature_map type ref ref_id
    (records : list (Z * list (string * list float)))
    (features : Features) (values : list FeatureValues) :
  features_pkey features ->
  ids_left (Z.of_nat (columns_count records)) features ->
  (exists r,
     _aggregate_aggregates np np_sum feature_map type ref ref_id records
                           features values = inr r) <->
  columns_name_statistics np np_sum feature_map records.
Proof.
  intros Hp Hleft. unfold _aggregate_aggregates. split.
  - intros [r Hr].
    destruct (aggregate_aggregates_records float np np_sum feature_map ref
                ref_id records (mkAggState features ∅ ∅ values))
      as [e | st'] eqn:E; [discriminate |].
    eapply aggregate_aggregates_records_names. exact E.
  - intros Hok.
    destruct (aggregate_aggregates_records_returns feature_map ref ref_id
                records (mkAggState features ∅ ∅ values) Hok Hp Hleft)
      as [st' ->].
    eauto.
Qed.

End AggregateAggregates.

Lemma site_columns_name_statistics :
  columns_name_statistics JteratorExample2.np JteratorExample2.np_sum
    JteratorExample2.site_feature_map JteratorExample2.site_records.
Proof.
  intros t data n vals [Hin | []] Hn. inversion Hin; subst t data.
  vm_compute in Hn.
  destruct Hn as [Hn | [Hn | []]]; inversion Hn; subst n vals.
  - exists "Min", (fun v => Float (nanmin Z JteratorExample2.np v)).
    split; [reflexivity | simpl; auto 10].
  - exists "Count", (fun v => Float (JteratorExample2.np_sum v)).
    split; [reflexivity | simpl; auto 10].
Qed.

Lemma aggregate_aggregates_returns_iff_witness :
  exists r,
    _aggregate_aggregates JteratorExample2.np JteratorExample2.np_sum
      JteratorExample2.site_feature_map "Site" 8 80
      JteratorExample2.site_records (mkFeatures [] 1 2147483647) [] = inr r.
Proof.
  apply (aggregate_aggregates_returns_iff Z JteratorExample2.np
           JteratorExample2.np_sum JteratorExample2.site_feature_map "Site"
           8 80 JteratorExample2.site_records (mkFeatures [] 1 2147483647) []).
  - exact empty_catalog_pkey.
  - unfold ids_left. vm_compute. discriminate.
  - exact site_columns_name_statistics.
Defined.

End AggregateAggregatesProps.

(** ** The jobs for debugging *)

Module DebugJobsProps.
Import Py DebugJobs.

Section DebugJobs.

Variable step_name : string.
Variable experiment_id : Z.
Variable log_location : string.
Variable Walltime : Type.
Variable Mem : Type.
Variable Duration : string -> result Walltime.
Variable Memory : Z -> result Mem.
Variable maxint : Z.

Local Abbreviation create_jobs :=
  (create_debug_run_jobs step_name experiment_id log_location Duration Memory
                         maxint).
Local Abbreviation command :=
  (_build_debug_run_command step_name experiment_id).

(** The job that is made for a site *)
Local Abbreviation job_of user verbosity walltime mem cores c :=
  (fun site_id : Z =>
     mkDebugRunJob (command site_id verbosity) log_location site_id
       (phase_submission_id c) (persistent_id c) user walltime mem cores).

(** The jobs that [create_debug_run_jobs] adds, for a value of [cores] that
    passes the two checks *)
Lemma create_jobs_adds (user : string)
    (batches : list (gmap string Z)) (sites : list Z)
    (verbosity : Z) (duration : string) (memory : Z) (cores : value)
    (walltime : Walltime) (mem : Mem) :
  Forall2 (fun b site_id => b !! "site_id" = Some site_id) batches sites ->
  Duration duration = inr walltime ->
  Memory memory = inr mem ->
  isinstance_int maxint cores = true ->
  greater_than_zero cores = true ->
  forall c : RunPhase Walltime Mem,
    create_jobs user c batches verbosity duration memory cores =
      (mkRunPhase (phase_submission_id c) (persistent_id c)
         (phase_jobs c
          ++ map (job_of user verbosity walltime mem cores c) sites),
       None).
Proof.
  intros Hsites Hd Hm Hi Hn.
  induction Hsites as [| b site_id batches sites Hb _ IH]; intros c; simpl.
  - rewrite app_nil_r. destruct c; reflexivity.
  - unfold create_debug_run_job. rewrite Hb, Hd, Hm, Hi, Hn.
    simpl. rewrite IH. simpl. rewrite <- app_assoc. reflexivity.
Qed.

Lemma isinstance_int_bounds (n : Z) :
  0 < n -> (isinstance_int maxint (IntValue n) = true <-> n <= maxint).
Proof.
  intros Hn. simpl. rewrite andb_true_iff, !Z.leb_le. lia.
Qed.

(** X14.  With a valid duration and amount of memory and, for [cores], a
    positive integer that is an [int] of Python 2 (not above
    [sys.maxint]), [create_debug_run_jobs] raises nothing and adds one job
    for each batch, in the order of the batches, which has the site of the
    batch as id and in its command, and the ids of the collection as
    submission and parent. *)
Theorem create_debug_run_jobs_adds (user : string)
    (batches : list (gmap string Z)) (sites : list Z)
    (verbosity : Z) (duration : string) (memory n : Z)
    (walltime : Walltime) (mem : Mem) :
  Forall2 (fun b site_id => b !! "site_id" = Some site_id) batches sites ->
  Duration duration = inr walltime ->
  Memory memory = inr mem ->
  0 < n <= maxint ->
  forall c : RunPhase Walltime Mem,
    create_jobs user c batches verbosity duration memory (IntValue n) =
      (mkRunPhase (phase_submission_id c) (persistent_id c)
         (phase_jobs c
          ++ map (job_of user verbosity walltime mem (IntValue n) c) sites),
       None).
Proof.
  intros Hsites Hd Hm [Hn Hmax].
  apply (create_jobs_adds user batches sites verbosity duration memory
           (IntValue n) walltime mem Hsites Hd Hm).
  - apply isinstance_int_bounds; assumption.
  - apply Z.ltb_lt. exact Hn.
Qed.

(** X15.  The value of [cores] is checked for each batch, not before the
    loop: with batches that name their sites and a valid duration and
    amount of memory, [create_debug_run_jobs] raises nothing exactly when
    there is no batch, or [cores] is a positive integer not above
    [sys.maxint], or [cores] is [True]; when it raises, the collection is
    as before. *)
Theorem create_debug_run_jobs_cores (user : string)
    (batches : list (gmap string Z)) (verbosity : Z) (duration : string)
    (memory : Z) (cores : value) (walltime : Walltime) (mem : Mem)
    (c : RunPhase Walltime Mem) :
  Forall (fun b => is_Some (b !! "site_id")) batches ->
  Duration duration = inr walltime ->
  Memory memory = inr mem ->
  (snd (create_jobs user c batches verbosity duration memory cores) = None <->
   batches = [] \/
   (exists n, cores = IntValue n /\ 0 < n <= maxint) \/
   cores = BoolValue true) /\
  (snd (create_jobs user c batches verbosity duration memory cores) <> None ->
   fst (create_jobs user c batches verbosity duration memory cores) = c).
Proof.
  intros Hb Hd Hm.
  destruct batches as [| b batches]; [simpl; split; [tauto | congruence] |].
  assert (Hsites : exists sites,
            Forall2 (fun b site_id => b !! "site_id" = Some site_id)
                    (b :: batches) sites).
  { clear -Hb. induction Hb as [| b0 l [site_id Hs] _ [sites IH]].
    - exists []. constructor.
    - exists (site_id :: sites). constructor; assumption. }
  destruct Hsites as [sites Hsites].
  destruct (isinstance_int maxint cores && greater_than_zero cores) eqn:Hok.
  - apply andb_true_iff in Hok. destruct Hok as [Hi Hn].
    rewrite (create_jobs_adds user (b :: batches) sites verbosity
               duration memory cores walltime mem Hsites Hd Hm Hi Hn c).
    simpl. split; [| congruence]. split; [| reflexivity]. intros _. right.
    destruct cores as [n | n | [|] | s |]; simpl in Hi, Hn; try discriminate.
    + left. exists n. split; [reflexivity |].
      apply andb_true_iff in Hi. rewrite !Z.leb_le in Hi.
      apply Z.ltb_lt in Hn. lia.
    + right. reflexivity.
  - inversion Hb as [| ? ? [site_id Hs] _]; subst. simpl.
    unfold create_debug_run_job. rewrite Hs, Hd, Hm.
    assert (Hcases : isinstance_int maxint cores = false \/
                     (isinstance_int maxint cores = true /\
                      greater_than_zero cores = false)).
    { destruct (isinstance_int maxint cores); simpl in Hok; auto. }
    destruct Hcases as [Hi | [Hi Hn]]; rewrite Hi; [| rewrite Hn]; simpl;
      (split; [| reflexivity]).
    all: split; [discriminate |].
    all: intros [H | [(n & -> & Hn') | ->]]; [discriminate | |];
      simpl in Hok; [| discriminate].
    all: apply andb_false_iff in Hok;
      rewrite andb_false_iff, !Z.leb_gt, Z.ltb_ge in Hok; lia.
Qed.

End DebugJobs.

Import DebugJobsExample.

Lemma create_debug_run_jobs_adds_witness :
  create_debug_run_jobs "jterator" 1 "/exp/log" Duration Memory maxint "user"
    job_collection batches 2 "00:15:00" 2000 (IntValue 1) =
    (mkRunPhase (phase_submission_id job_collection)
       (persistent_id job_collection)
       (phase_jobs job_collection
        ++ map (fun site_id : Z =>
                  mkDebugRunJob
                    (_build_debug_run_command "jterator" 1 site_id 2)
                    "/exp/log" site_id (phase_submission_id job_collection)
                    (persistent_id job_collection) "user" 900 2000
                    (IntValue 1))
               [5; 6]),
     None).
Proof.
  apply (create_debug_run_jobs_adds "jterator" 1 "/exp/log" Z Z Duration
           Memory maxint "user" batches [5; 6] 2 "00:15:00" 2000 1 900 2000).
  - repeat constructor.
  - reflexivity.
  - reflexivity.
  - unfold maxint. lia.
Defined.

Lemma create_debug_run_jobs_cores_witness :
  (snd (create_debug_run_jobs "jterator" 1 "/exp/log" Duration Memory maxint
          "user" job_collection batches 2 "00:15:00" 2000
          (IntValue (2 ^ 63))) = None <->
   batches = [] \/
   (exists n, IntValue (2 ^ 63) = IntValue n /\ 0 < n <= maxint) \/
   IntValue (2 ^ 63) = BoolValue true) /\
  (snd (create_debug_run_jobs "jterator" 1 "/exp/log" Duration Memory maxint
          "user" job_collection batches 2 "00:15:00" 2000
          (IntValue (2 ^ 63))) <> None ->
   fst (create_debug_run_jobs "jterator" 1 "/exp/log" Duration Memory maxint
          "user" job_collection batches 2 "00:15:00" 2000
          (IntValue (2 ^ 63)))
   = job_collection).
Proof.
  apply (create_debug_run_jobs_cores "jterator" 1 "/exp/log" Z Z Duration
           Memory maxint "user" batches 2 "00:15:00" 2000 (IntValue (2 ^ 63))
           900 2000 job_collection).
  - repeat constructor; eexists; reflexivity.
  - reflexivity.
  - reflexivity.
Defined.

(** A [long] for [cores] raises [TypeError], and nothing is added. *)
Example create_debug_run_jobs_long :
  create_debug_run_jobs "jterator" 1 "/exp/log" Duration Memory maxint "user"
    job_collection batches 2 "00:15:00" 2000 (IntValue (2 ^ 63))
  = (job_collection, Some TypeError).
Proof. reflexivity. Qed.

End DebugJobsProps.

(** ** Paths of modules *)

Module PathUtilsProps.
Import Py PathUtils.

Lemma append_cons (c : ascii) (a b : string) :
  String c a +:+ b = String c (a +:+ b).
Proof. reflexivity. Qed.

Lemma append_nil_r (a : string) : a +:+ "" = a.
Proof.
  induction a as [| c a IH]; [reflexivity |].
  rewrite append_cons, IH. reflexivity.
Qed.

Lemma append_assoc (a b c : string) : (a +:+ b) +:+ c = a +:+ b +:+ c.
Proof.
  induction a as [| x a IH]; [reflexivity |].
  rewrite !append_cons, IH. reflexivity.
Qed.

Lemma split_slash_not_nil (s : string) : split_slash s <> [].
Proof.
  destruct s as [| c s]; simpl; [discriminate |].
  destruct (Ascii.eqb c slash); [discriminate |].
  destruct (split_slash s); discriminate.
Qed.

Lemma split_slash_bare (f : string) :
  no_slash f = true -> split_slash f = [f].
Proof.
  induction f as [| c f IH]; simpl; [reflexivity |].
  intros H. apply andb_true_iff in H. destruct H as [Hc Hf].
  apply negb_true_iff in Hc. rewrite Hc, (IH Hf). reflexivity.
Qed.

(** The components of a path with a slash in it are those before the
    slash and those after it. *)
Lemma split_slash_app (p q : string) :
  split_slash (p +:+ "/" +:+ q) = split_slash p ++ split_slash q.
Proof.
  induction p as [| c p IH]; [reflexivity |].
  rewrite append_cons. cbn [split_slash].
  destruct (Ascii.eqb c slash); rewrite IH; [reflexivity |].
  pose proof (split_slash_not_nil p) as Hne.
  destruct (split_slash p) as [| h t]; [congruence | reflexivity].
Qed.

Lemma endswith_split (s : string) (c : ascii) :
  endswith s c = true -> exists q, s = q +:+ String c "".
Proof.
  induction s as [| x s IH]; [discriminate |].
  cbn [endswith]. destruct s as [| y s'].
  - intros H. apply Ascii.eqb_eq in H. subst x. exists "". reflexivity.
  - intros H. destruct (IH H) as [q Hq]. exists (String x q).
    rewrite append_cons, <- Hq. reflexivity.
Qed.

(** A path that is empty or ends in a slash, continued by a name without
    slashes: the name is the last component. *)
Lemma split_slash_name (p f : string) :
  p = "" \/ endswith p slash = true ->
  no_slash f = true ->
  exists pre, split_slash (p +:+ f) = pre ++ [f].
Proof.
  intros [-> | Hp] Hf.
  - exists []. simpl. apply split_slash_bare. exact Hf.
  - destruct (endswith_split p slash Hp) as [q ->].
    exists (split_slash q).
    rewrite append_assoc. change (String slash "" +:+ f) with ("/" +:+ f).
    rewrite split_slash_app, (split_slash_bare f Hf). reflexivity.
Qed.

Lemma basename_name (p f : string) :
  p = "" \/ endswith p slash = true ->
  no_slash f = true ->
  basename (p +:+ f) = f.
Proof.
  intros Hp Hf. unfold basename.
  destruct (split_slash_name p f Hp Hf) as [pre ->].
  apply last_last.
Qed.

Lemma endswith_app_slash (p : string) : endswith (p +:+ "/") slash = true.
Proof.
  induction p as [| c p IH]; [reflexivity |].
  rewrite append_cons. cbn [endswith].
  destruct (p +:+ "/") eqn:E; [| exact IH].
  destruct p; discriminate.
Qed.

(** The loop of [normpath] goes through the components one after the
    other. *)
Lemma normpath_loop_app (i : nat) (l1 l2 st : list string) :
  normpath_loop i (l1 ++ l2) st = normpath_loop i l2 (normpath_loop i l1 st).
Proof.
  revert st. induction l1 as [| c l1 IH]; intros st; [reflexivity |].
  simpl.
  destruct (String.eqb c "" || String.eqb c "."); [apply IH |].
  destruct (negb (String.eqb c "..")
            || (Nat.eqb i 0 && match st with [] => true | _ => false end)
            || match st with last :: _ => String.eqb last ".." | [] => false end);
    [apply IH |].
  destruct st; apply IH.
Qed.

Lemma normpath_loop_name (i : nat) (f : string) (st : list string) :
  f <> "" -> f <> "." -> f <> ".." ->
  normpath_loop i [f] st = f :: st.
Proof.
  intros H1 H2 H3. simpl.
  destruct (String.eqb_spec f ""); [contradiction |].
  destruct (String.eqb_spec f "."); [contradiction |].
  destruct (String.eqb_spec f ".."); [contradiction |].
  reflexivity.
Qed.

Lemma join_slash_cons (c : string) (l : list string) :
  l <> [] -> join_slash (c :: l) = c +:+ "/" +:+ join_slash l.
Proof. destruct l; [congruence | reflexivity]. Qed.

Lemma join_slash_name (l : list string) (f : string) :
  exists p, join_slash (l ++ [f]) = p +:+ f /\
            (p = "" \/ endswith p slash = true).
Proof.
  induction l as [| c l IH].
  - exists "". auto.
  - destruct IH as (p & Hp & Hend).
    change (join_slash ((c :: l) ++ [f]))
      with (join_slash (c :: (l ++ [f]))).
    rewrite join_slash_cons by (destruct l; discriminate).
    rewrite Hp.
    exists (c +:+ "/" +:+ p). split.
    + rewrite !append_assoc. reflexivity.
    + right. destruct Hend as [-> | Hend].
      * rewrite append_nil_r. apply endswith_app_slash.
      * destruct (endswith_split p slash Hend) as [q ->].
        rewrite <- !append_assoc. apply endswith_app_slash.
Qed.

Lemma append_is_nil (a b : string) : a +:+ b = "" -> b = "".
Proof. destruct a; [auto | discriminate]. Qed.

(** The name of a file comes out of [abspath] as the last component. *)
Lemma basename_abspath (cwd f : string) :
  no_slash f = true -> f <> "" -> f <> "." -> f <> ".." ->
  basename (abspath cwd f) = f.
Proof.
  intros Hf H1 H2 H3. unfold abspath.
  assert (Hstart : startswith f slash = false).
  { destruct f as [| c f]; [reflexivity |]. simpl in *.
    apply andb_true_iff in Hf. destruct Hf as [Hc _].
    apply negb_true_iff in Hc. exact Hc. }
  rewrite Hstart.
  assert (Hjoin : exists p, join cwd f = p +:+ f /\
                            (p = "" \/ endswith p slash = true)).
  { unfold join. rewrite Hstart.
    destruct (String.eqb_spec cwd "") as [-> | Hne]; simpl.
    - exists "". auto.
    - destruct (endswith cwd slash) eqn:E.
      + exists cwd. auto.
      + exists (cwd +:+ "/"). split; [rewrite append_assoc; reflexivity |].
        right. apply endswith_app_slash. }
  destruct Hjoin as (p & -> & Hp).
  unfold normpath.
  destruct (String.eqb_spec (p +:+ f) "") as [E | _];
    [apply append_is_nil in E; contradiction |].
  destruct (split_slash_name p f Hp Hf) as [pre ->].
  set (i := match p +:+ f with
            | String "/" (String "/" (String "/" _)) => 1%nat
            | String "/" (String "/" _) => 2%nat
            | String "/" _ => 1%nat
            | _ => 0%nat
            end).
  rewrite normpath_loop_app, (normpath_loop_name i f _ H1 H2 H3).
  cbn [rev].
  destruct (join_slash_name (rev (normpath_loop i pre [])) f)
    as (q & -> & Hq).
  assert (Hres : forall s, s = "" \/ endswith s slash = true ->
                 basename (if String.eqb (s +:+ f) "" then "." else s +:+ f)
                 = f).
  { intros s Hs.
    destruct (String.eqb_spec (s +:+ f) "") as [E | _];
      [apply append_is_nil in E; contradiction |].
    apply basename_name; assumption. }
  destruct i as [| [| i]].
  - apply Hres. exact Hq.
  - rewrite <- append_assoc. apply Hres. right.
    destruct Hq as [-> | Hq]; [reflexivity |].
    destruct (endswith_split q slash Hq) as [r ->].
    rewrite <- append_assoc. apply endswith_app_slash.
  - rewrite <- append_assoc. apply Hres. right.
    destruct Hq as [-> | Hq]; [reflexivity |].
    destruct (endswith_split q slash Hq) as [r ->].
    rewrite <- append_assoc. apply endswith_app_slash.
Qed.

(** X16.  For the name of a file without slashes, other than the empty
    name, [.] and [..], [abspath] keeps the name as the last component of
    the path, so the language that [determine_language] finds does not
    depend on the working directory. *)
Theorem determine_language_bare (cwd cwd' f : string) :
  no_slash f = true -> f <> "" -> f <> "." -> f <> ".." ->
  basename (abspath cwd f) = f /\
  determine_language cwd f = determine_language cwd' f.
Proof.
  intros Hf H1 H2 H3. split; [apply basename_abspath; assumption |].
  unfold determine_language.
  rewrite !basename_abspath by assumption. reflexivity.
Qed.

Lemma determine_language_bare_witness :
  basename (abspath "/home/user" "threshold.py") = "threshold.py" /\
  determine_language "/home/user" "threshold.py"
  = determine_language "/" "threshold.py".
Proof.
  apply (determine_language_bare "/home/user" "/" "threshold.py").
  - reflexivity.
  - discriminate.
  - discriminate.
  - discriminate.
Defined.

Lemma last_dot_suffix_app (x e r : string) :
  last_dot_suffix e = Some r -> last_dot_suffix (x +:+ e) = Some r.
Proof.
  intros He. induction x as [| c x IH]; [exact He |].
  rewrite append_cons. cbn [last_dot_suffix]. rewrite IH. reflexivity.
Qed.

Lemma strip_leading_dots_app (stem e : string) :
  has_non_dot stem = true ->
  strip_leading_dots (stem +:+ e) = strip_leading_dots stem +:+ e.
Proof.
  induction stem as [| c stem IH]; [discriminate |].
  rewrite append_cons. cbn [strip_leading_dots has_non_dot].
  destruct (Ascii.eqb c dot); simpl; [exact IH | reflexivity].
Qed.

Lemma splitext_ext_app (stem e : string) :
  has_non_dot stem = true -> last_dot_suffix e = Some e ->
  splitext_ext (stem +:+ e) = e.
Proof.
  intros Hs He. unfold splitext_ext.
  rewrite (strip_leading_dots_app stem e Hs).
  rewrite (last_dot_suffix_app _ e e He). reflexivity.
Qed.

Lemma no_slash_app (a b : string) :
  no_slash a = true -> no_slash b = true -> no_slash (a +:+ b) = true.
Proof.
  intros Ha Hb. induction a as [| c a IH]; [exact Hb |].
  rewrite append_cons. simpl in *.
  apply andb_true_iff in Ha. destruct Ha as [Hc Ha].
  rewrite Hc, (IH Ha). reflexivity.
Qed.

Lemma has_non_dot_app (a b : string) :
  has_non_dot a = true -> has_non_dot (a +:+ b) = true.
Proof.
  induction a as [| c a IH]; [discriminate |].
  rewrite append_cons. simpl.
  destruct (Ascii.eqb c dot); simpl; auto.
Qed.

Lemma has_non_dot_name (f : string) :
  has_non_dot f = true -> f <> "" /\ f <> "." /\ f <> "..".
Proof. intros H. repeat split; intros ->; discriminate. Qed.

(** The language of a name with a stem and an extension *)
Lemma determine_language_ext (cwd stem e : string) :
  no_slash stem = true -> has_non_dot stem = true ->
  no_slash e = true -> last_dot_suffix e = Some e ->
  splitext_ext (basename (abspath cwd (stem +:+ e))) = e.
Proof.
  intros Hs Hd He Hl.
  destruct (has_non_dot_name (stem +:+ e) (has_non_dot_app stem e Hd))
    as (H1 & H2 & H3).
  rewrite basename_abspath by (auto using no_slash_app).
  apply splitext_ext_app; assumption.
Qed.

(** The languages of the suffixes *)
Lemma language_of_suffix (cwd stem : string) :
  no_slash stem = true -> has_non_dot stem = true ->
  determine_language cwd (stem +:+ ".m") = inr "Matlab" /\
  determine_language cwd (stem +:+ ".R") = inr "R" /\
  determine_language cwd (stem +:+ ".r") = inr "R" /\
  determine_language cwd (stem +:+ ".py") = inr "Python" /\
  determine_language cwd (stem +:+ ".jl") = inr "Julia" /\
  forall e,
    no_slash e = true -> last_dot_suffix e = Some e ->
    e <> ".m" -> e <> ".R" -> e <> ".r" -> e <> ".py" -> e <> ".jl" ->
    determine_language cwd (stem +:+ e)
    = inl (OtherException "Language could not be determined from filename.").
Proof.
  intros Hs Hd.
  repeat (split; [unfold determine_language;
                  rewrite determine_language_ext by (auto; reflexivity);
                  reflexivity |]).
  intros e He Hl H1 H2 H3 H4 H5. unfold determine_language.
  rewrite determine_language_ext by assumption.
  destruct (String.eqb_spec e ".m"); [contradiction |].
  destruct (String.eqb_spec e ".R"); [contradiction |].
  destruct (String.eqb_spec e ".r"); [contradiction |].
  destruct (String.eqb_spec e ".py"); [contradiction |].
  destruct (String.eqb_spec e ".jl"); [contradiction |].
  reflexivity.
Qed.

(** X17.  A stem without slashes that has a character other than the dot,
    followed by [.m], [.R], [.r], [.py] or [.jl], is a Matlab, R, R, Python
    or Julia file, in every working directory; followed by another
    extension that starts with its only dot, it has no language. *)
Theorem determine_language_suffix (cwd stem : string) :
  no_slash stem = true -> has_non_dot stem = true ->
  determine_language cwd (stem +:+ ".m") = inr "Matlab" /\
  determine_language cwd (stem +:+ ".R") = inr "R" /\
  determine_language cwd (stem +:+ ".r") = inr "R" /\
  determine_language cwd (stem +:+ ".py") = inr "Python" /\
  determine_language cwd (stem +:+ ".jl") = inr "Julia" /\
  forall e,
    no_slash e = true -> last_dot_suffix e = Some e ->
    e <> ".m" -> e <> ".R" -> e <> ".r" -> e <> ".py" -> e <> ".jl" ->
    determine_language cwd (stem +:+ e)
    = inl (OtherException "Language could not be determined from filename.").
Proof. exact (language_of_suffix cwd stem). Qed.

Lemma determine_language_suffix_witness :
  determine_language "/home/user" ("smooth" +:+ ".m") = inr "Matlab" /\
  determine_language "/home/user" ("smooth" +:+ ".R") = inr "R" /\
  determine_language "/home/user" ("smooth" +:+ ".r") = inr "R" /\
  determine_language "/home/user" ("smooth" +:+ ".py") = inr "Python" /\
  determine_language "/home/user" ("smooth" +:+ ".jl") = inr "Julia" /\
  forall e,
    no_slash e = true -> last_dot_suffix e = Some e ->
    e <> ".m" -> e <> ".R" -> e <> ".r" -> e <> ".py" -> e <> ".jl" ->
    determine_language "/home/user" ("smooth" +:+ e)
    = inl (OtherException "Language could not be determined from filename.").
Proof.
  apply (determine_language_suffix "/home/user" "smooth").
  - reflexivity.
  - reflexivity.
Defined.

(** X18.  [get_module_path] gives the file in the directory of the modules
    of its language below [repo_dir] for Python, Matlab and R files; for a
    Julia file it raises [KeyError], because [get_module_directories] has no
    directory for Julia. *)
Theorem get_module_path_language (cwd stem repo_dir : string) :
  no_slash stem = true -> has_non_dot stem = true ->
  get_module_path cwd (stem +:+ ".py") repo_dir
    = inr (join (join repo_dir "python/jtlib/modules") (stem +:+ ".py")) /\
  get_module_path cwd (stem +:+ ".m") repo_dir
    = inr (join (join repo_dir "matlab/+jtlib/+modules") (stem +:+ ".m")) /\
  get_module_path cwd (stem +:+ ".R") repo_dir
    = inr (join (join repo_dir "r/jtlib/modules") (stem +:+ ".R")) /\
  get_module_path cwd (stem +:+ ".r") repo_dir
    = inr (join (join repo_dir "r/jtlib/modules") (stem +:+ ".r")) /\
  get_module_path cwd (stem +:+ ".jl") repo_dir = inl KeyError.
Proof.
  intros Hs Hd.
  destruct (language_of_suffix cwd stem Hs Hd)
    as (Hm & HR & Hr & Hpy & Hjl & _).
  unfold get_module_path. rewrite Hm, HR, Hr, Hpy, Hjl.
  repeat split; reflexivity.
Qed.

Lemma get_module_path_language_witness :
  get_module_path "/home/user" ("smooth" +:+ ".py") "/opt/jtlib"
    = inr (join (join "/opt/jtlib" "python/jtlib/modules")
                ("smooth" +:+ ".py")) /\
  get_module_path "/home/user" ("smooth" +:+ ".m") "/opt/jtlib"
    = inr (join (join "/opt/jtlib" "matlab/+jtlib/+modules")
                ("smooth" +:+ ".m")) /\
  get_module_path "/home/user" ("smooth" +:+ ".R") "/opt/jtlib"
    = inr (join (join "/opt/jtlib" "r/jtlib/modules") ("smooth" +:+ ".R")) /\
  get_module_path "/home/user" ("smooth" +:+ ".r") "/opt/jtlib"
    = inr (join (join "/opt/jtlib" "r/jtlib/modules") ("smooth" +:+ ".r")) /\
  get_module_path "/home/user" ("smooth" +:+ ".jl") "/opt/jtlib"
    = inl KeyError.
Proof.
  apply (get_module_path_language "/home/user" "smooth" "/opt/jtlib").
  - reflexivity.
  - reflexivity.
Defined.

End PathUtilsProps.

(** ** Cycles *)

Module CycleProps.
Import Py Cycle.

Section Layers.

Variable LAYER_NAME : string -> string -> string.
Variable image_dir : string.

Local Abbreviation images_of := (images image_dir).
Local Abbreviation names_of := (layer_names LAYER_NAME image_dir).
Local Abbreviation in_channel c :=
  (fun img : ChannelImage => String.eqb (channel (metadata img)) c).

Lemma layer_metadata_loop_returns user mds (cs : list string) :
  forall layers,
    layer_metadata_loop LAYER_NAME image_dir user mds cs = inr layers ->
    Forall2 (fun c l =>
               names_of user mds !! c = Some (layer_name l) /\
               layer_images l = List.filter (in_channel c) (images_of mds))
            cs layers.
Proof.
  induction cs as [| c cs IH]; intros layers; simpl.
  - intros H. inversion H. constructor.
  - destruct (names_of user mds !! c) as [n |] eqn:E; [| discriminate].
    destruct (layer_metadata_loop LAYER_NAME image_dir user mds cs)
      as [e | l]; [discriminate |].
    intros H. inversion H; subst. constructor; [auto | apply IH; reflexivity].
Qed.

Lemma layer_metadata_loop_iff user mds (cs : list string) :
  (exists layers,
     layer_metadata_loop LAYER_NAME image_dir user mds cs = inr layers) <->
  forall c, In c cs -> is_Some (names_of user mds !! c).
Proof.
  induction cs as [| c cs IH]; simpl.
  - split; [intros _ c [] | eauto].
  - destruct (names_of user mds !! c) as [n |] eqn:E.
    + destruct (layer_metadata_loop LAYER_NAME image_dir user mds cs)
        as [e | l].
      * split.
        -- intros [layers H]. discriminate.
        -- intros H. destruct (proj2 IH) as [? ?]; [auto | discriminate].
      * split; [| eauto]. intros _ c' [<- | Hc]; [rewrite E; eauto |].
        apply (proj1 IH); eauto.
    + split.
      * intros [layers H]. discriminate.
      * intros H. destruct (H c (or_introl eq_refl)) as [? ?]. congruence.
Qed.

Lemma layer_metadata_loop_raises user mds (cs : list string) e :
  layer_metadata_loop LAYER_NAME image_dir user mds cs = inl e ->
  e = KeyError.
Proof.
  induction cs as [| c cs IH]; simpl; [discriminate |].
  destruct (names_of user mds !! c); [| intros H; inversion H; reflexivity].
  destruct (layer_metadata_loop LAYER_NAME image_dir user mds cs);
    [| discriminate].
  intros H. inversion H; subst. apply IH. reflexivity.
Qed.

(** No image is in the layer of a channel that is not its own. *)
Lemma filter_other_channel (x : ChannelImage) (imgs : list ChannelImage)
    (cs : list string) :
  ~ In (channel (metadata x)) cs ->
  map (fun c => List.filter (in_channel c) (x :: imgs)) cs
  = map (fun c => List.filter (in_channel c) imgs) cs.
Proof.
  induction cs as [| c cs IH]; intros Hnot; [reflexivity |].
  simpl in *. rewrite IH by tauto.
  destruct (String.eqb_spec (channel (metadata x)) c);
    [exfalso; apply Hnot; left; congruence | reflexivity].
Qed.

Lemma layers_insert (x : ChannelImage) (imgs : list ChannelImage)
    (cs : list string) :
  List.NoDup cs -> In (channel (metadata x)) cs ->
  Permutation
    (concat (map (fun c => List.filter (in_channel c) (x :: imgs)) cs))
    (x :: concat (map (fun c => List.filter (in_channel c) imgs) cs)).
Proof.
  induction cs as [| c cs IH]; intros Hnd Hin; [contradiction |].
  inversion Hnd as [| ? ? Hc Hnd']; subst.
  cbn [map concat].
  assert (Hhead : List.filter (in_channel c) (x :: imgs)
                  = if String.eqb (channel (metadata x)) c
                    then x :: List.filter (in_channel c) imgs
                    else List.filter (in_channel c) imgs) by reflexivity.
  rewrite Hhead. clear Hhead.
  destruct (String.eqb_spec (channel (metadata x)) c) as [Heq | Hne].
  - rewrite filter_other_channel by (rewrite Heq; exact Hc). reflexivity.
  - destruct Hin as [Heq | Hin]; [congruence |].
    rewrite (IH Hnd' Hin). apply Permutation_sym, Permutation_middle.
Qed.

(** The layers of distinct channels that cover the channels of the images
    hold each image once. *)
Lemma layers_partition (imgs : list ChannelImage) (cs : list string) :
  List.NoDup cs ->
  (forall img, In img imgs -> In (channel (metadata img)) cs) ->
  Permutation (concat (map (fun c => List.filter (in_channel c) imgs) cs))
              imgs.
Proof.
  intros Hnd. induction imgs as [| x imgs IH]; intros Hin.
  - clear. induction cs as [| c cs IHc]; [reflexivity | exact IHc].
  - rewrite layers_insert by (auto; apply Hin; left; reflexivity).
    constructor. apply IH. intros img Himg. apply Hin. right. exact Himg.
Qed.

Lemma channels_of (mds : list ChannelImageMetadata) :
  let cs := elements (list_to_set (map channel mds) : gset string) in
  List.NoDup cs /\ (forall c, In c cs <-> In c (map channel mds)).
Proof.
  split.
  - apply NoDup_ListNoDup, NoDup_elements.
  - intros c. rewrite <- !list_elem_of_In, elem_of_elements,
      elem_of_list_to_set. reflexivity.
Qed.

(** X19.  When [layer_metadata] returns, every image of the cycle is in
    the layer of its channel and in no other: the images of the layers
    together are the images, each once; the images of a layer have one
    channel and keep their order; no layer is empty; and the name of a
    layer is the one that [layer_names] has for its channel. *)
Theorem layer_metadata_partition user (mds : list ChannelImageMetadata)
    (layers : list MosaicMetadata) :
  layer_metadata LAYER_NAME image_dir user mds = inr layers ->
  Permutation (concat (map layer_images layers)) (images_of mds) /\
  Forall (fun l =>
            exists c,
              layer_images l = List.filter (in_channel c) (images_of mds) /\
              layer_images l <> [] /\
              names_of user mds !! c = Some (layer_name l))
         layers.
Proof.
  unfold layer_metadata. intros H.
  apply layer_metadata_loop_returns in H.
  destruct (channels_of mds) as [Hnd Hcs].
  set (cs := elements (list_to_set (map channel mds) : gset string)) in *.
  assert (Himgs : map layer_images layers
                  = map (fun c => List.filter (in_channel c) (images_of mds)) cs).
  { clear -H. induction H as [| c l cs layers [_ Hl] _ IH]; [reflexivity |].
    simpl. rewrite Hl, IH. reflexivity. }
  split.
  - rewrite Himgs. apply layers_partition; [exact Hnd |].
    intros img Himg. apply Hcs. unfold images in Himg.
    apply in_map_iff in Himg. destruct Himg as (md & <- & Hmd).
    simpl. apply in_map. exact Hmd.
  - assert (Hall : Forall (fun c => In c (map channel mds)) cs)
      by (apply Forall_forall; intros c Hc;
          apply Hcs, list_elem_of_In; exact Hc).
    clear -H Hall. induction H as [| c l cs layers [Hn Hl] _ IH];
      [constructor |].
    inversion Hall as [| ? ? Hc Hall']; subst.
    constructor; [| apply IH; exact Hall'].
    exists c. split; [exact Hl |]. split; [| exact Hn].
    rewrite Hl. apply in_map_iff in Hc. destruct Hc as (md & Hmd & Hin).
    intros Hnil.
    assert (Hx : In (mkChannelImage (PathUtils.join image_dir (md_name md)) md)
                    (List.filter (in_channel c) (images_of mds))).
    { apply filter_In. split.
      - unfold images. apply in_map_iff. exists md. auto.
      - simpl. rewrite Hmd. apply String.eqb_refl. }
    rewrite Hnil in Hx. contradiction.
Qed.

(** The dictionary of the names that is made from the images has a name
    for the channel of every image. *)
Lemma default_layer_names (imgs : list ChannelImage) :
  forall (d : gmap string string) (c : string),
    is_Some (d !! c) \/ In c (map (fun img => channel (metadata img)) imgs) ->
    is_Some
      (fold_left
         (fun d img =>
            <[channel (metadata img) :=
                LAYER_NAME (cycle (metadata img)) (channel (metadata img))]> d)
         imgs d !! c).
Proof.
  induction imgs as [| x imgs IH]; intros d c H; simpl.
  - destruct H as [H | []]. exact H.
  - apply IH. simpl in H.
    destruct (decide (channel (metadata x) = c)) as [<- | Hne].
    + left. rewrite lookup_insert_eq. eauto.
    + destruct H as [H | [H | H]]; [| congruence | right; exact H].
      left. rewrite lookup_insert_ne by exact Hne. exact H.
Qed.

(** X20.  [layer_metadata] returns exactly when [layer_names] has a name
    for the channel of every image, and raises [KeyError] otherwise; with
    the names that are made from the images it always returns. *)
Theorem layer_metadata_returns_iff user (mds : list ChannelImageMetadata) :
  ((exists layers, layer_metadata LAYER_NAME image_dir user mds = inr layers)
   <-> forall md, In md mds -> is_Some (names_of user mds !! channel md)) /\
  (forall e, layer_metadata LAYER_NAME image_dir user mds = inl e ->
             e = KeyError) /\
  (exists layers, layer_metadata LAYER_NAME image_dir None mds = inr layers).
Proof.
  destruct (channels_of mds) as [_ Hcs].
  assert (Hiff : forall u,
    (exists layers, layer_metadata LAYER_NAME image_dir u mds = inr layers)
    <-> forall md, In md mds -> is_Some (names_of u mds !! channel md)).
  { intros u. unfold layer_metadata. rewrite layer_metadata_loop_iff. split.
    - intros H md Hmd. apply H, Hcs, in_map. exact Hmd.
    - intros H c Hc. apply Hcs, in_map_iff in Hc.
      destruct Hc as (md & <- & Hmd). auto. }
  split; [apply Hiff |]. split.
  - intros e. apply layer_metadata_loop_raises.
  - apply Hiff. intros md Hmd. unfold layer_names.
    apply default_layer_names. right. unfold images. rewrite map_map. simpl.
    apply in_map_iff. exists md. auto.
Qed.

End Layers.

Section ImageMetadata.

Variable natsorted : list string -> list string.

Lemma names_index_in (f : string) (names : list string) :
  In f names -> exists i, names_index f names = Some i.
Proof.
  induction names as [| n names IH]; [intros [] |].
  intros Hin. simpl. destruct (String.eqb_spec n f) as [Heq | Hne]; [eauto |].
  destruct Hin as [Heq | Hin]; [congruence |].
  destruct (IH Hin) as [i ->]. simpl. eauto.
Qed.

(** [names.index(f)] is the position of the first metadata of the name. *)
Lemma names_index_metadata (f : string) (mds : list ChannelImageMetadata) i :
  names_index f (map md_name mds) = Some i ->
  exists md, nth_error mds i = Some md /\ md_name md = f.
Proof.
  revert i. induction mds as [| m mds IH]; intros i; simpl; [discriminate |].
  destruct (String.eqb_spec (md_name m) f) as [Heq | Hne].
  - intros H. inversion H; subst. simpl. eauto.
  - destruct (names_index f (map md_name mds)) as [j |]; [| discriminate].
    simpl. intros H. inversion H; subst. simpl. apply IH. reflexivity.
Qed.

Lemma names_index_unique (mds : list ChannelImageMetadata) md :
  List.NoDup (map md_name mds) -> In md mds ->
  exists i, names_index (md_name md) (map md_name mds) = Some i /\
            nth_error mds i = Some md.
Proof.
  induction mds as [| m mds IH]; intros Hnd Hin; [contradiction |].
  simpl in Hnd. inversion Hnd as [| ? ? Hm Hnd']; subst. simpl.
  destruct (String.eqb_spec (md_name m) (md_name md)) as [Heq | Hne].
  - exists 0%nat. split; [reflexivity |]. simpl.
    destruct Hin as [-> | Hin]; [reflexivity |].
    exfalso. apply Hm. rewrite Heq. apply in_map. exact Hin.
  - destruct Hin as [-> | Hin]; [congruence |].
    destruct (IH Hnd' Hin) as (i & -> & Hi). exists (S i). auto.
Qed.

Lemma image_metadata_loop_spec (mds : list ChannelImageMetadata)
    (sorted : list string) :
  (forall f, In f sorted -> In f (map md_name mds)) ->
  exists l,
    image_metadata_loop mds (map md_name mds) sorted = inr l /\
    Forall2 (fun f md =>
               exists i, names_index f (map md_name mds) = Some i /\
                         nth_error mds i = Some md /\ md_name md = f)
            sorted l.
Proof.
  induction sorted as [| f sorted IH]; intros Hin; simpl.
  - exists []. split; [reflexivity | constructor].
  - destruct (names_index_in f (map md_name mds)) as [i Hi];
      [apply Hin; left; reflexivity |].
    destruct (names_index_metadata _ _ _ Hi) as (md & Hmd & Hname).
    destruct IH as (l & Hl & Hall); [intros; apply Hin; right; assumption |].
    rewrite Hi, Hmd, Hl. exists (md :: l). split; [reflexivity |].
    constructor; [eauto | exact Hall].
Qed.

(** X21.  When [natsorted] gives the names of the metadata in another
    order, [image_metadata] returns: one metadata for each name, in the
    order of [natsorted], each the first metadata of its name in the file.
    When no two metadata of the file have the same name, the value holds
    the metadata of the file, each once. *)
Theorem image_metadata_sorted (mds : list ChannelImageMetadata) :
  Permutation (natsorted (map md_name mds)) (map md_name mds) ->
  exists l,
    image_metadata natsorted mds = inr l /\
    map md_name l = natsorted (map md_name mds) /\
    Forall (fun md =>
              exists i, names_index (md_name md) (map md_name mds) = Some i /\
                        nth_error mds i = Some md) l /\
    (List.NoDup (map md_name mds) -> Permutation l mds).
Proof.
  intros Hperm. unfold image_metadata.
  destruct (image_metadata_loop_spec mds (natsorted (map md_name mds)))
    as (l & Hl & Hall).
  { intros f Hf. eapply Permutation_in; eassumption. }
  exists l. split; [exact Hl |].
  set (sorted := natsorted (map md_name mds)) in *.
  assert (Hnames : map md_name l = sorted).
  { clear -Hall. induction Hall as [| f md s l (i & _ & _ & Hn) _ IH];
      [reflexivity |]. simpl. rewrite Hn, IH. reflexivity. }
  assert (Hfirst : Forall (fun md =>
            exists i, names_index (md_name md) (map md_name mds) = Some i /\
                      nth_error mds i = Some md) l).
  { clear -Hall. induction Hall as [| f md s l (i & Hi & Hmd & Hn) _ IH];
      constructor; [| exact IH]. exists i. rewrite Hn. auto. }
  split; [exact Hnames |]. split; [exact Hfirst |].
  intros Hnd.
  assert (Hsub : forall md, In md l -> In md mds).
  { intros md Hmd. rewrite Forall_forall in Hfirst.
    destruct (Hfirst md) as (i & _ & Hi); [apply list_elem_of_In; exact Hmd |].
    eapply nth_error_In. exact Hi. }
  assert (Hinj : forall a b, In a mds -> In b mds ->
                             md_name a = md_name b -> a = b).
  { intros a b Ha Hb Hab.
    destruct (names_index_unique mds a Hnd Ha) as (i & Hi & Hia).
    destruct (names_index_unique mds b Hnd Hb) as (j & Hj & Hjb).
    rewrite Hab in Hi. congruence. }
  apply NoDup_Permutation.
  - apply NoDup_ListNoDup.
    assert (Hndl : List.NoDup (map md_name l)).
    { rewrite Hnames. eapply Permutation_NoDup;
        [apply Permutation_sym; exact Hperm | exact Hnd]. }
    clear -Hndl. induction l as [| a l IH]; [constructor |].
    simpl in Hndl. inversion Hndl as [| ? ? Ha Hndl']; subst.
    constructor; [| apply IH; exact Hndl'].
    intros Hin. apply Ha. apply in_map. exact Hin.
  - apply NoDup_ListNoDup.
    clear -Hnd. induction mds as [| a mds IH]; [constructor |].
    simpl in Hnd. inversion Hnd as [| ? ? Ha Hnd']; subst.
    constructor; [| apply IH; exact Hnd'].
    intros Hin. apply Ha. apply in_map. exact Hin.
  - intros md. rewrite !list_elem_of_In. split; [apply Hsub |].
    intros Hmd.
    assert (Hn : In (md_name md) (map md_name l)).
    { rewrite Hnames. eapply Permutation_in;
        [apply Permutation_sym; exact Hperm | apply in_map; exact Hmd]. }
    apply in_map_iff in Hn. destruct Hn as (md' & Hn & Hmd').
    rewrite <- (Hinj md' md); auto.
Qed.

End ImageMetadata.

Lemma layer_metadata_partition_witness :
  Permutation (concat (map layer_images CycleExample.layers))
              (images CycleExample.image_dir CycleExample.image_metadata_) /\
  Forall (fun l =>
            exists c,
              layer_images l
              = List.filter
                  (fun img => String.eqb (channel (metadata img)) c)
                  (images CycleExample.image_dir
                          CycleExample.image_metadata_) /\
              layer_images l <> [] /\
              layer_names CycleExample.LAYER_NAME CycleExample.image_dir None
                          CycleExample.image_metadata_ !! c
              = Some (layer_name l))
         CycleExample.layers.
Proof.
  apply (layer_metadata_partition CycleExample.LAYER_NAME
           CycleExample.image_dir None CycleExample.image_metadata_
           CycleExample.layers).
  vm_compute. reflexivity.
Defined.

Lemma image_metadata_sorted_witness :
  exists l,
    image_metadata CycleExample.natsorted CycleExample.metadata_ = inr l /\
    map md_name l
    = CycleExample.natsorted (map md_name CycleExample.metadata_) /\
    Forall (fun md =>
              exists i,
                names_index (md_name md)
                            (map md_name CycleExample.metadata_) = Some i /\
                nth_error CycleExample.metadata_ i = Some md) l /\
    (List.NoDup (map md_name CycleExample.metadata_) ->
     Permutation l CycleExample.metadata_).
Proof.
  apply (image_metadata_sorted CycleExample.natsorted
           CycleExample.metadata_).
  apply merge_sort_Permutation.
Defined.

(** *** The files of the illumination statistics *)

Lemma is_digit_value (d : ascii) :
  is_digit d = true -> 0 <= digit_value d <= 9.
Proof.
  unfold is_digit, digit_value, Ascii.is_nat.
  destruct d as [[] [] [] [] [] [] [] []]; simpl; (discriminate || lia).
Qed.

Ltac pattern_step :=
  match goal with
  | |- context [match ?x with _ => _ end] =>
      is_var x; destruct x; cbn iota; try discriminate
  end.

(** What the regular expression matches at the start of a string *)
Lemma match_stats_pattern_inv (s : string) (d : ascii) :
  match_stats_pattern s = Some d ->
  exists x y rest,
    s = "channel_"
          +:+ String d (String x ("stat" +:+ String y ("h5" +:+ rest))) /\
    is_digit d = true /\ any_char x = true /\ any_char y = true.
Proof.
  unfold match_stats_pattern.
  repeat pattern_step.
  match goal with
  | |- context [is_digit ?a && any_char ?x && any_char ?y] =>
      destruct (is_digit a) eqn:Ed; [| discriminate];
      destruct (any_char x) eqn:Ex; [| discriminate];
      destruct (any_char y) eqn:Ey; [| discriminate]
  end.
  simpl. intros H. inversion H; subst. eauto 10.
Qed.

Lemma search_stats_pattern_unfold (s : string) :
  search_stats_pattern s
  = match match_stats_pattern s with
    | Some d => Some d
    | None => match s with
              | EmptyString => None
              | String _ s' => search_stats_pattern s'
              end
    end.
Proof. destruct s; reflexivity. Qed.

Lemma search_stats_pattern_digit (s : string) (d : ascii) :
  search_stats_pattern s = Some d -> is_digit d = true.
Proof.
  induction s as [| a s IH]; rewrite search_stats_pattern_unfold.
  - destruct (match_stats_pattern "") eqn:E; [| discriminate].
    intros H. inversion H; subst.
    apply match_stats_pattern_inv in E. destruct E as (? & ? & ? & ? & ? & ?).
    tauto.
  - destruct (match_stats_pattern (String a s)) eqn:E; [| exact IH].
    intros H. inversion H; subst.
    apply match_stats_pattern_inv in E. destruct E as (? & ? & ? & ? & ? & ?).
    tauto.
Qed.

Local Abbreviation add_file :=
  (fun (files : gmap Z string) (f : string) =>
     match search_stats_pattern f with
     | Some d => <[digit_value d := f]> files
     | None => files
     end).

(** Every entry of the dictionary was in it before or is a matched name
    of the list under the value of its digit. *)
Lemma stats_files_sound (l : list string) :
  forall (acc : gmap Z string) k f,
    fold_left add_file l acc !! k = Some f ->
    acc !! k = Some f \/
    (In f l /\ exists d, search_stats_pattern f = Some d /\
                         digit_value d = k).
Proof.
  induction l as [| g l IH]; intros acc k f; simpl; [auto |].
  intros H. apply IH in H. destruct H as [H | (Hin & d & Hd & Hk)];
    [| right; eauto].
  destruct (search_stats_pattern g) as [e |] eqn:E; [| auto].
  destruct (decide (digit_value e = k)) as [Heq | Hne].
  - rewrite <- Heq, lookup_insert_eq in H. inversion H; subst.
    right. split; [left; reflexivity | eauto].
  - rewrite lookup_insert_ne in H by exact Hne. auto.
Qed.

(** Names whose digit has another value leave the entry of [k] as it is. *)
Lemma stats_files_frame (l : list string) k :
  forall acc : gmap Z string,
    (forall g e, In g l -> search_stats_pattern g = Some e ->
                 digit_value e <> k) ->
    fold_left add_file l acc !! k = acc !! k.
Proof.
  induction l as [| g l IH]; intros acc Hne; simpl; [reflexivity |].
  rewrite IH by (intros; eapply Hne; [right |]; eassumption).
  destruct (search_stats_pattern g) as [e |] eqn:E; [| reflexivity].
  apply lookup_insert_ne. eapply Hne; [left; reflexivity | exact E].
Qed.

(** A non-empty dictionary stays non-empty, and a matched name makes the
    dictionary non-empty. *)
Lemma stats_files_entry (l : list string) :
  forall (acc : gmap Z string) k,
    is_Some (acc !! k) \/
    (exists f d, In f l /\ search_stats_pattern f = Some d /\
                 digit_value d = k) ->
    is_Some (fold_left add_file l acc !! k).
Proof.
  induction l as [| g l IH]; intros acc k H; simpl.
  - destruct H as [H | (f & d & [] & _)]. exact H.
  - apply IH. destruct H as [H | (f & d & [<- | Hin] & Hd & Hk)].
    + left. destruct (search_stats_pattern g) as [e |]; [| exact H].
      destruct (decide (digit_value e = k)) as [<- | Hne].
      * rewrite lookup_insert_eq. eauto.
      * rewrite lookup_insert_ne by exact Hne. exact H.
    + left. rewrite Hd, Hk, lookup_insert_eq. eauto.
    + right. eauto.
Qed.

(** X22.  In the dictionary that [illumstats_files] returns, every key is a
    number from 0 to 9 and its value is a name of the directory in which
    the pattern finds the digit of this number; of the names with the same
    digit, the one that is listed last is in the dictionary. *)
Theorem illumstats_files_returns (stats_dir : string) (listdir : list string)
    (files : gmap Z string) :
  illumstats_files stats_dir listdir = inr files ->
  (forall k f,
     files !! k = Some f ->
     0 <= k <= 9 /\ In f listdir /\
     exists d, search_stats_pattern f = Some d /\ digit_value d = k) /\
  (forall before f after d,
     listdir = before ++ f :: after ->
     search_stats_pattern f = Some d ->
     (forall g e, In g after -> search_stats_pattern g = Some e ->
                  digit_value e <> digit_value d) ->
     files !! digit_value d = Some f).
Proof.
  unfold illumstats_files, stats_files_of.
  destruct (decide (fold_left add_file listdir ∅ = ∅)); [discriminate |].
  intros H. inversion H; subst. clear H. split.
  - intros k f H. apply stats_files_sound in H.
    destruct H as [H | (Hin & d & Hd & Hk)];
      [rewrite lookup_empty in H; discriminate |].
    split; [| eauto].
    rewrite <- Hk. apply is_digit_value.
    eapply search_stats_pattern_digit. exact Hd.
  - intros before f after d -> Hd Hafter.
    rewrite fold_left_app. simpl. rewrite Hd.
    rewrite stats_files_frame by exact Hafter.
    apply lookup_insert_eq.
Qed.

(** When [illumstats_files] raises *)
Lemma illumstats_raises (stats_dir : string)
    (listdir : list string) :
  (exists e, illumstats_files stats_dir listdir = inl e) <->
  (forall f, In f listdir -> search_stats_pattern f = None).
Proof.
  unfold illumstats_files, stats_files_of.
  destruct (decide (fold_left add_file listdir ∅ = ∅)) as [Hempty | Hne].
  - split; [| eauto]. intros _ f Hin.
    destruct (search_stats_pattern f) as [d |] eqn:Hd; [| reflexivity].
    destruct (stats_files_entry listdir ∅ (digit_value d)) as [g Hg];
      [right; eauto |].
    rewrite Hempty, lookup_empty in Hg. discriminate.
  - split; [intros [e H]; discriminate |].
    intros Hnone. exfalso. apply Hne. apply map_eq. intros k.
    rewrite lookup_empty.
    destruct (fold_left add_file listdir ∅ !! k) as [f |] eqn:E;
      [| reflexivity].
    apply stats_files_sound in E.
    destruct E as [E | (Hin & d & Hd & _)];
      [rewrite lookup_empty in E; discriminate |].
    rewrite (Hnone f Hin) in Hd. discriminate.
Qed.

(** X23.  [illumstats_files] raises exactly when the pattern is found in no
    name of the directory; so it raises for the empty directory. *)
Theorem illumstats_files_raises_iff (stats_dir : string)
    (listdir : list string) :
  (exists e, illumstats_files stats_dir listdir = inl e) <->
  (forall f, In f listdir -> search_stats_pattern f = None).
Proof. exact (illumstats_raises stats_dir listdir). Qed.

(** *** The names that [STATS_FILE_FORMAT] gives the files *)

Lemma app_String (a : ascii) (s t : string) :
  String a s +:+ t = String a (s +:+ t).
Proof. reflexivity. Qed.

Lemma app_Empty (t : string) : "" +:+ t = t.
Proof. reflexivity. Qed.

Lemma is_digit_not_c (a : ascii) :
  is_digit a = true -> Ascii.eqb a "c" = false.
Proof.
  unfold is_digit, Ascii.is_nat.
  destruct a as [[] [] [] [] [] [] [] []]; simpl;
    (discriminate || reflexivity).
Qed.

Lemma has_c_app (s t : string) : has_c (s +:+ t) = has_c s || has_c t.
Proof.
  induction s as [| a s IH]; [reflexivity |].
  rewrite app_String. simpl. rewrite IH. apply orb_assoc.
Qed.

Lemma all_digits_app (s t : string) :
  all_digits (s +:+ t) = all_digits s && all_digits t.
Proof.
  induction s as [| a s IH]; [reflexivity |].
  rewrite app_String. simpl. rewrite IH. apply andb_assoc.
Qed.

Lemma all_digits_no_c (s : string) : all_digits s = true -> has_c s = false.
Proof.
  induction s as [| a s IH]; [reflexivity |]. simpl.
  intros H. apply andb_prop in H. destruct H as [Ha Hs].
  rewrite (is_digit_not_c a Ha), (IH Hs). reflexivity.
Qed.

(** The pattern is not found in a string without the letter [c]. *)
Lemma search_no_c (s : string) :
  has_c s = false -> search_stats_pattern s = None.
Proof.
  induction s as [| a s IH]; intros H; rewrite search_stats_pattern_unfold.
  - destruct (match_stats_pattern "") eqn:E; [| reflexivity].
    apply match_stats_pattern_inv in E.
    destruct E as (? & ? & ? & E & _). discriminate.
  - simpl in H. apply orb_false_elim in H. destruct H as [Ha Hs].
    destruct (match_stats_pattern (String a s)) eqn:E; [| auto].
    apply match_stats_pattern_inv in E.
    destruct E as (? & ? & ? & E & _).
    rewrite app_String in E. inversion E; subst. discriminate.
Qed.

(** The pattern is not found in the name of a number of two or more
    digits: after the first digit and one more character it wants the
    letter [s]. *)
Lemma search_two_digits (d1 d2 : ascii) (ds : string) :
  is_digit d1 = true -> is_digit d2 = true -> all_digits ds = true ->
  search_stats_pattern
    ("channel_" +:+ String d1 (String d2 ds) +:+ ".stat.h5") = None.
Proof.
  intros H1 H2 Hds.
  rewrite !app_String, app_Empty, search_stats_pattern_unfold.
  match goal with
  | |- match match_stats_pattern ?s with _ => _ end = _ =>
      destruct (match_stats_pattern s) eqn:E
  end.
  - exfalso. apply match_stats_pattern_inv in E.
    destruct E as (x & y & rest & E & _).
    rewrite !app_String, !app_Empty in E.
    destruct ds as [| d3 ds]; rewrite ?app_String, ?app_Empty in E;
      inversion E; subst.
    simpl in Hds. discriminate.
  - apply search_no_c.
    change (has_c ("hannel_" +:+ String d1 (String d2 ds) +:+ ".stat.h5")
            = false).
    rewrite !has_c_app. simpl.
    rewrite (is_digit_not_c d1 H1), (is_digit_not_c d2 H2),
      (all_digits_no_c ds Hds). reflexivity.
Qed.

(** The pattern is not found in the name of a negative number: it wants a
    digit in the place of the sign. *)
Lemma search_sign (ds : string) :
  all_digits ds = true ->
  search_stats_pattern ("channel_" +:+ ("-" +:+ ds) +:+ ".stat.h5") = None.
Proof.
  intros Hds.
  rewrite !app_String, !app_Empty, search_stats_pattern_unfold.
  match goal with
  | |- match match_stats_pattern ?s with _ => _ end = _ =>
      destruct (match_stats_pattern s) eqn:E
  end.
  - exfalso. apply match_stats_pattern_inv in E.
    destruct E as (x & y & rest & E & Hd & _).
    rewrite !app_String, !app_Empty in E. inversion E; subst.
    discriminate.
  - apply search_no_c.
    change (has_c ("hannel_-" +:+ ds +:+ ".stat.h5") = false).
    rewrite !has_c_app. simpl. rewrite (all_digits_no_c ds Hds). reflexivity.
Qed.

Lemma pretty_N_char_digit (x : N) : is_digit (pretty_N_char x) = true.
Proof.
  unfold pretty_N_char.
  repeat (match goal with
          | |- context [match ?x with _ => _ end] => destruct x
          end; try reflexivity).
Qed.

(** The digits of a number, in front of the digits that are there *)
Lemma pretty_N_go_digits (x : N) :
  forall s, exists t,
    pretty_N_go x s = t +:+ s /\ all_digits t = true /\
    ((0 < x)%N -> t <> "").
Proof.
  induction (N.lt_wf_0 x) as [x _ IH]; intros s.
  destruct (decide (0 < x)%N) as [Hpos | Hzero].
  - rewrite pretty_N_go_step by exact Hpos.
    destruct (IH (x `div` 10)%N
                 (N.div_lt x 10 Hpos eq_refl)
                 (String (pretty_N_char (x `mod` 10)) s)) as (t & -> & Ht & _).
    exists (t +:+ String (pretty_N_char (x `mod` 10)) "").
    split; [| split].
    + clear. induction t as [| a t IHt]; [reflexivity |].
      rewrite !app_String, IHt. reflexivity.
    + rewrite all_digits_app, Ht. simpl.
      rewrite pretty_N_char_digit. reflexivity.
    + intros _. destruct t; discriminate.
  - assert (x = 0%N) as -> by lia. rewrite pretty_N_go_0.
    exists "". split; [reflexivity |]. split; [reflexivity | lia].
Qed.

Lemma append_empty_r (t : string) : t +:+ "" = t.
Proof.
  induction t as [| a t IH]; [reflexivity |].
  rewrite app_String, IH. reflexivity.
Qed.

Lemma pretty_positive_digits (p : positive) : all_digits (pretty p) = true.
Proof.
  unfold pretty, pretty_positive, pretty, pretty_N.
  destruct (decide (N.pos p = 0%N)); [discriminate |].
  destruct (pretty_N_go_digits (N.pos p) "") as (t & -> & Ht & _).
  rewrite append_empty_r. exact Ht.
Qed.

Lemma pretty_two_digits (p : positive) :
  (10 <= N.pos p)%N ->
  exists d1 d2 ds,
    pretty p = String d1 (String d2 ds) /\
    is_digit d1 = true /\ is_digit d2 = true /\ all_digits ds = true.
Proof.
  intros Hp.
  unfold pretty, pretty_positive, pretty, pretty_N.
  destruct (decide (N.pos p = 0%N)); [discriminate |].
  rewrite pretty_N_go_step by lia.
  destruct (pretty_N_go_digits (N.pos p `div` 10)%N
              (String (pretty_N_char (N.pos p `mod` 10)) ""))
    as (t & -> & Ht & Hne).
  assert (Hdiv : (0 < N.pos p `div` 10)%N)
    by (apply N.div_str_pos; lia).
  specialize (Hne Hdiv).
  destruct t as [| d1 t]; [congruence |].
  simpl in Ht. apply andb_prop in Ht. destruct Ht as [H1 Ht].
  rewrite app_String.
  destruct t as [| d2 t].
  - rewrite app_Empty. exists d1, (pretty_N_char (N.pos p `mod` 10)), "".
    rewrite pretty_N_char_digit. auto.
  - simpl in Ht. apply andb_prop in Ht. destruct Ht as [H2 Ht].
    rewrite app_String.
    exists d1, d2, (t +:+ String (pretty_N_char (N.pos p `mod` 10)) "").
    rewrite all_digits_app, Ht. simpl. rewrite pretty_N_char_digit. auto.
Qed.

(** The pattern finds the digit in the name that the format gives the file
    of the channels 0 to 9, and is not found in the name of another
    channel. *)
Lemma search_stats_file_name (n : Z) :
  (0 <= n <= 9 ->
   exists d, search_stats_pattern (stats_file_name n) = Some d /\
             digit_value d = n) /\
  (~ 0 <= n <= 9 -> search_stats_pattern (stats_file_name n) = None).
Proof.
  split.
  - intros Hn.
    assert (H : exists k, (k < 10)%nat /\ n = Z.of_nat k)
      by (exists (Z.to_nat n); lia).
    destruct H as (k & Hk & ->). clear Hn.
    do 10 (destruct k as [| k];
           [eexists; split; [vm_compute; reflexivity | reflexivity] |]).
    lia.
  - intros Hn. unfold stats_file_name. destruct n as [| p | p].
    + lia.
    + destruct (pretty_two_digits p) as (d1 & d2 & ds & Hp & H1 & H2 & Hds);
        [lia |].
      change (pretty (Z.pos p)) with (pretty p). rewrite Hp.
      apply search_two_digits; assumption.
    + change (pretty (Z.neg p)) with ("-" +:+ pretty p).
      apply search_sign, pretty_positive_digits.
Qed.

(** X24.  For a directory of the files that [STATS_FILE_FORMAT] names for
    the channels [ns], [illumstats_files] raises exactly when no channel of
    [ns] is from 0 to 9, and what it returns otherwise has the files of the
    channels 0 to 9 of [ns], each under the number of its channel, and
    nothing else.  The files of the channels from 10 on are never found. *)
Theorem illumstats_files_of_format (stats_dir : string) (ns : list Z) :
  ((exists e, illumstats_files stats_dir (map stats_file_name ns) = inl e) <->
   (forall n, In n ns -> ~ 0 <= n <= 9)) /\
  ((exists files,
      illumstats_files stats_dir (map stats_file_name ns) = inr files) <->
   (exists n, In n ns /\ 0 <= n <= 9)) /\
  (forall files,
     illumstats_files stats_dir (map stats_file_name ns) = inr files ->
     forall n, files !! n = if decide (n ∈ ns /\ 0 <= n <= 9)
                            then Some (stats_file_name n) else None).
Proof.
  assert (Hraises :
    (exists e, illumstats_files stats_dir (map stats_file_name ns) = inl e) <->
    (forall n, In n ns -> ~ 0 <= n <= 9)).
  { rewrite illumstats_raises. split.
    - intros Hnone n Hin Hn.
      destruct (proj1 (search_stats_file_name n) Hn) as (d & Hd & _).
      rewrite (Hnone (stats_file_name n) (in_map _ _ _ Hin)) in Hd.
      discriminate.
    - intros Hout f Hin. apply in_map_iff in Hin.
      destruct Hin as (n & <- & Hn).
      apply search_stats_file_name. apply Hout. exact Hn. }
  split; [exact Hraises |]. split.
  - split.
    + intros [files E].
      destruct (decide (Exists (fun n => 0 <= n <= 9) ns)) as [Hex | Hno].
      * apply Exists_exists in Hex. destruct Hex as (n & Hin & Hn).
        exists n. split; [apply list_elem_of_In; exact Hin | exact Hn].
      * exfalso.
        assert (Hr : exists e,
                  illumstats_files stats_dir (map stats_file_name ns) = inl e).
        { apply Hraises. intros n Hin Hn. apply Hno, Exists_exists.
          exists n. split; [apply list_elem_of_In; exact Hin | exact Hn]. }
        destruct Hr as [e He]. congruence.
    + intros (n & Hin & Hn).
      destruct (illumstats_files stats_dir (map stats_file_name ns))
        as [e | files] eqn:E; [| eauto].
      exfalso. apply (proj1 Hraises (ex_intro _ e eq_refl) n Hin Hn).
  - intros files E.
    assert (Hsound : forall k f, files !! k = Some f ->
              In k ns /\ 0 <= k <= 9 /\ f = stats_file_name k).
    { intros k f Hk.
      unfold illumstats_files, stats_files_of in E.
      destruct (decide (fold_left add_file (map stats_file_name ns) ∅ = ∅))
        as [Hempty | Hempty]; [discriminate |].
      inversion E; subst. apply stats_files_sound in Hk.
      destruct Hk as [Hk | (Hin & d & Hd & Hv)];
        [rewrite lookup_empty in Hk; discriminate |].
      apply in_map_iff in Hin. destruct Hin as (m & <- & Hm).
      destruct (decide (0 <= m <= 9)) as [Hr | Hr].
      - destruct (proj1 (search_stats_file_name m) Hr) as (d' & Hd' & Hv').
        assert (d' = d) by congruence. subst d'.
        assert (m = k) by congruence. subst m. subst k. auto.
      - rewrite (proj2 (search_stats_file_name m) Hr) in Hd. discriminate. }
    intros n. destruct (decide (n ∈ ns /\ 0 <= n <= 9)) as [[Hin Hn] | Hno].
    + apply list_elem_of_In in Hin.
      destruct (proj1 (search_stats_file_name n) Hn) as (d & Hd & Hv).
      assert (Hsome : is_Some (files !! n)).
      { unfold illumstats_files, stats_files_of in E.
        destruct (decide (fold_left add_file (map stats_file_name ns) ∅ = ∅))
          as [Hempty | Hempty]; [discriminate |].
        injection E as <-. apply stats_files_entry. right.
        exists (stats_file_name n), d. split; [apply in_map; exact Hin | auto]. }
      destruct Hsome as [f Hf]. rewrite Hf.
      destruct (Hsound _ _ Hf) as (_ & _ & ->). reflexivity.
    + destruct (files !! n) as [f |] eqn:Hf; [| reflexivity].
      destruct (Hsound _ _ Hf) as (Hin & ? & _).
      apply list_elem_of_In in Hin. tauto.
Qed.

Lemma illumstats_files_returns_witness :
  (forall k f,
     CycleExample.stats_files !! k = Some f ->
     0 <= k <= 9 /\ In f CycleExample.listdir /\
     exists d, search_stats_pattern f = Some d /\ digit_value d = k) /\
  (forall before f after d,
     CycleExample.listdir = before ++ f :: after ->
     search_stats_pattern f = Some d ->
     (forall g e, In g after -> search_stats_pattern g = Some e ->
                  digit_value e <> digit_value d) ->
     CycleExample.stats_files !! digit_value d = Some f).
Proof.
  apply (illumstats_files_returns "/exp/cycle_1/stats" CycleExample.listdir
           CycleExample.stats_files).
  vm_compute. reflexivity.
Defined.

End CycleProps.
